(** * Verification of the dependency-free statistics and PNG core of
    [feature_rollout_simulation/feature_rollout_analysis.py]

    The development embeds the fallback code paths of the report script:
    the hand-written Welch t-test with its Student-t CDF (Simpson's rule),
    the canvas and bitmap-font renderer, and the PNG writer.

    Conventions of the embedding:
    - a Python [float] is a binary64 value, Rocq's primitive [float]
      (all NaNs identified); arithmetic is the IEEE operation, and the
      places where CPython raises instead of returning an IEEE special
      value (division by zero, [math.sqrt] of a negative number) are
      written out;
    - a Python call that may raise returns [result A], a sum of an
      exception and a value, threaded with [x <- e ;; k];
    - functions of the C library and of Python's standard library that the
      script calls ([math.lgamma], [math.log], [math.exp], [float.__pow__],
      [statistics.mean], [statistics.variance], [zlib.crc32],
      [zlib.compress]) and the upper-casing of characters outside ASCII
      are interfaces ([PyMath], [Zlib], [PyUnicode]); theorems hold for
      every implementation, closed examples use the reference instances
      defined below;
    - [bytes] is [list byte]; a canvas is the nested list the script
      builds, [list (list (list Z))]. *)

From Stdlib Require Import ZArith List String Ascii Floats Lia Bool Reals Lra.
From Stdlib.Strings Require Byte.
From stdpp Require Import base list gmap strings.

Set Default Proof Using "Type".
Local Open Scope Z_scope.

(** ** Python exceptions and fallible computations *)

Inductive exn : Type :=
  | ValueError (msg : string)
  | ZeroDivisionError
  | OverflowError
  | StructError
  | ZlibError
  | IndexError
  | KeyError
  (** raised only by the reference library functions below, outside the
      arguments they cover *)
  | NotImplementedError.

Definition result (A : Type) : Type := exn + A.

Definition ok {A} (a : A) : result A := inr a.
Definition raise {A} (e : exn) : result A := inl e.

Definition rbind {A B} (r : result A) (k : A -> result B) : result B :=
  match r with
  | inl e => inl e
  | inr a => k a
  end.

Notation "x <- e ;; k" := (rbind e (fun x => k))
  (at level 100, e at next level, right associativity,
   format "'[v' x  <-  e  ;;  '/' k ']'").

(** A [for] loop whose body may raise: the accumulator is threaded through
    the items in order and the first exception aborts the loop. *)
Fixpoint foldM {A B} (f : A -> B -> result A) (acc : A) (items : list B)
  : result A :=
  match items with
  | [] => ok acc
  | b :: rest => acc' <- f acc b ;; foldM f acc' rest
  end.

Definition is_ok {A} (r : result A) : bool :=
  match r with inr _ => true | inl _ => false end.

(** ** Python float operations *)

(** [float(n)] for a Python [int]: the nearest binary64 value. *)
Definition float_of_int (n : Z) : float :=
  SF2Prim (binary_normalize prec emax n 0 false).

(** [x / y] on floats: CPython raises on a zero divisor. *)
Definition float_div (x y : float) : result float :=
  if (y =? 0)%float then raise ZeroDivisionError else ok (x / y)%float.

(** [x / n] with [n] an [int]: the divisor is converted with [float(n)],
    which is zero exactly when [n] is. *)
Definition float_div_int (x : float) (n : Z) : result float :=
  if n =? 0 then raise ZeroDivisionError else ok (x / float_of_int n)%float.

(** [math.sqrt]: a domain error for negative arguments; NaN, zeros and
    [+inf] pass through. *)
Definition math_sqrt (x : float) : result float :=
  if (x <? 0)%float then raise (ValueError "math domain error")
  else ok (PrimFloat.sqrt x).

(** The builtins [min(a, b)] and [max(a, b)]: the first argument is kept
    unless the second compares strictly below (above) it. *)
Definition py_min (a b : float) : float := if (b <? a)%float then b else a.
Definition py_max (a b : float) : float := if (a <? b)%float then b else a.

(** [math.pi] *)
Definition math_pi : float := 0x1.921fb54442d18p+1%float.

(** ** Library interface of the statistics code *)

Class PyMath := {
  math_lgamma : float -> result float;
  math_log : float -> result float;
  math_exp : float -> result float;
  (** [x ** y] on floats *)
  float_pow : float -> float -> result float;
  statistics_mean : list float -> result float;
  statistics_variance : list float -> result float;
}.

(** ** Student-t distribution *)

Section StudentT.
Context `{PyMath}.

(** The normalising constant of the density. The script memoises it with
    [lru_cache]; the cache does not change what a call returns. *)
Definition _student_t_coeff (df : float) : result float :=
  lgamma_num <- math_lgamma ((df + 1) / 2)%float ;;
  lgamma_den <- math_lgamma (df / 2)%float ;;
  log_df <- math_log df ;;
  log_pi <- math_log math_pi ;;
  let log_coeff := (lgamma_num - lgamma_den - 0.5 * (log_df + log_pi))%float in
  math_exp log_coeff.

Definition _student_t_pdf (x df : float) : result float :=
  coeff <- _student_t_coeff df ;;
  q <- float_div (x * x)%float df ;;
  p <- float_pow (1 + q)%float (- (df + 1) / 2)%float ;;
  ok (coeff * p)%float.

(** The interval count of Simpson's rule as first chosen from [abs x]. *)
Definition n_intervals_chosen (x : float) : Z :=
  if (x <? 10)%float then 1000 else 2000.

(** [if n_intervals % 2 == 1: n_intervals += 1] *)
Definition n_intervals_made_even (n : Z) : Z :=
  if n mod 2 =? 1 then n + 1 else n.

(** One pass of [for i in range(1, n_intervals)]. *)
Definition simpson_step (df h : float) (total : float) (i : Z) : result float :=
  let weight := if i mod 2 =? 1 then 4 else 2 in
  p <- _student_t_pdf (float_of_int i * h)%float df ;;
  ok (total + float_of_int weight * p)%float.

(** [range(1, n)] *)
Definition range1 (n : Z) : list Z :=
  map (fun k => Z.of_nat k) (seq 1 (Z.to_nat n - 1)).

(** The integral of the density over [[0, x]] for [x = abs x0], as computed
    between the early return and the final clamp of [_student_t_cdf]. *)
Definition simpson_integral (x df : float) : result float :=
  let n_intervals := n_intervals_made_even (n_intervals_chosen x) in
  let h := (x / float_of_int n_intervals)%float in
  p0 <- _student_t_pdf 0 df ;;
  px <- _student_t_pdf x df ;;
  total <- foldM (simpson_step df h) (p0 + px)%float (range1 n_intervals) ;;
  ok ((h / 3) * total)%float.

Definition _student_t_cdf (x df : float) : result float :=
  if (x =? 0)%float then ok 0.5%float else
  let sign := if (0 <? x)%float then 1 else -1 in
  let x := PrimFloat.abs x in
  integral <- simpson_integral x df ;;
  let cdf := (0.5 + float_of_int sign * integral)%float in
  ok (py_max 0 (py_min 1 cdf)).

Definition _two_tailed_p_value (t_stat df : float) : result float :=
  if (df <=? 0)%float then ok 1%float else
  cdf <- _student_t_cdf t_stat df ;;
  ok (py_max (py_min (2 * py_min cdf (1 - cdf)) 1) 0)%float.

(** ** Welch's t-test *)

Definition InsufficientSamples : exn :=
  ValueError "Samples must have at least two observations for a t-test.".

(** The Welch-Satterthwaite degrees of freedom: the statements
    [numerator = ...], [denominator = ...] and [df = numerator / denominator]
    of [_manual_welchs_ttest]. *)
Definition welch_df (var1 var2 : float) (n1 n2 : Z) : result float :=
  a1 <- float_div_int var1 n1 ;;
  a2 <- float_div_int var2 n2 ;;
  numerator <- float_pow (a1 + a2)%float 2 ;;
  b1 <- float_div_int var1 n1 ;;
  s1 <- float_pow b1 2 ;;
  d1 <- float_div_int s1 (n1 - 1) ;;
  b2 <- float_div_int var2 n2 ;;
  s2 <- float_pow b2 2 ;;
  d2 <- float_div_int s2 (n2 - 1) ;;
  let denominator := (d1 + d2)%float in
  float_div numerator denominator.

Definition _manual_welchs_ttest (sample_a sample_b : list float)
  : result (float * float) :=
  let n1 := Z.of_nat (length sample_a) in
  let n2 := Z.of_nat (length sample_b) in
  if (n1 <? 2) || (n2 <? 2) then raise InsufficientSamples else
  mean1 <- statistics_mean sample_a ;;
  mean2 <- statistics_mean sample_b ;;
  var1 <- statistics_variance sample_a ;;
  var2 <- statistics_variance sample_b ;;
  q1 <- float_div_int var1 n1 ;;
  q2 <- float_div_int var2 n2 ;;
  se <- math_sqrt (q1 + q2)%float ;;
  if (se =? 0)%float then ok (0%float, 1%float) else
  t_stat <- float_div (mean1 - mean2)%float se ;;
  df <- welch_df var1 var2 n1 n2 ;;
  p_value <- _two_tailed_p_value t_stat df ;;
  ok (t_stat, p_value).

End StudentT.

(** ** Canvas *)

(** The canvas is the nested list the script builds: rows of pixels, a
    pixel being the list of its three channels. *)
Abbreviation Canvas := (list (list (list Z))).

Definition color : Type := (Z * Z * Z)%type.

Definition color_list (c : color) : list Z :=
  let '(c0, c1, c2) := c in [c0; c1; c2].

Definition _create_canvas (width height : Z) (c : color) : Canvas :=
  replicate (Z.to_nat height) (replicate (Z.to_nat width) (color_list c)).

(** [canvas[py][px] = v] for indices that are not negative: [IndexError]
    when the row or the column does not exist. *)
Definition canvas_setitem (canvas : Canvas) (py px : Z) (v : list Z)
  : result Canvas :=
  match canvas !! Z.to_nat py with
  | None => raise IndexError
  | Some row =>
      if px <? Z.of_nat (length row)
      then ok (<[Z.to_nat py := <[Z.to_nat px := v]> row]> canvas)
      else raise IndexError
  end.

(** [enumerate(l)] *)
Definition enumerate {A} (l : list A) : list (Z * A) :=
  imap (fun i a => (Z.of_nat i, a)) l.

(** ** Bitmap font *)

Abbreviation glyph := (list string).

(** The [FONT] dictionary of [_fallback_plot]; its keys are one-character
    strings. *)
Definition FONT : gmap ascii glyph := list_to_map [
  ("A"%char, [" 1 "; "1 1"; "111"; "1 1"; "1 1"]);
  ("B"%char, ["11 "; "1 1"; "11 "; "1 1"; "11 "]);
  ("C"%char, [" 11"; "1  "; "1  "; "1  "; " 11"]);
  ("D"%char, ["11 "; "1 1"; "1 1"; "1 1"; "11 "]);
  ("E"%char, ["111"; "1  "; "11 "; "1  "; "111"]);
  ("F"%char, ["111"; "1  "; "11 "; "1  "; "1  "]);
  ("G"%char, [" 11"; "1  "; "1  "; "1 1"; " 11"]);
  ("H"%char, ["1 1"; "1 1"; "111"; "1 1"; "1 1"]);
  ("I"%char, ["111"; " 1 "; " 1 "; " 1 "; "111"]);
  ("K"%char, ["1 1"; "11 "; "1  "; "11 "; "1 1"]);
  ("L"%char, ["1  "; "1  "; "1  "; "1  "; "111"]);
  ("M"%char, ["1 1"; "111"; "111"; "1 1"; "1 1"]);
  ("N"%char, ["1 1"; "111"; "111"; "111"; "1 1"]);
  ("O"%char, ["111"; "1 1"; "1 1"; "1 1"; "111"]);
  ("P"%char, ["111"; "1 1"; "111"; "1  "; "1  "]);
  ("R"%char, ["111"; "1 1"; "111"; "11 "; "1 1"]);
  ("S"%char, [" 11"; "1  "; "111"; "  1"; "11 "]);
  ("T"%char, ["111"; " 1 "; " 1 "; " 1 "; " 1 "]);
  ("U"%char, ["1 1"; "1 1"; "1 1"; "1 1"; "111"]);
  ("V"%char, ["1 1"; "1 1"; "1 1"; "1 1"; " 1 "]);
  ("Z"%char, ["111"; "  1"; " 1 "; "1  "; "111"]);
  (" "%char, ["   "; "   "; "   "; "   "; "   "]);
  ("("%char, [" 1"; "1 "; "1 "; "1 "; " 1"]);
  (")"%char, ["1 "; " 1"; " 1"; " 1"; "1 "]);
  ("-"%char, ["   "; "   "; "111"; "   "; "   "]);
  ("="%char, ["   "; "111"; "   "; "111"; "   "]);
  (":"%char, ["   "; " 1 "; "   "; " 1 "; "   "]);
  ("0"%char, ["111"; "1 1"; "1 1"; "1 1"; "111"]);
  ("1"%char, [" 1 "; "11 "; " 1 "; " 1 "; "111"]);
  ("2"%char, ["111"; "  1"; "111"; "1  "; "111"]);
  ("3"%char, ["111"; "  1"; "111"; "  1"; "111"]);
  ("4"%char, ["1 1"; "1 1"; "111"; "  1"; "  1"]);
  ("5"%char, ["111"; "1  "; "111"; "  1"; "111"]);
  ("6"%char, ["111"; "1  "; "111"; "1 1"; "111"]);
  ("7"%char, ["111"; "  1"; " 1 "; " 1 "; " 1 "]);
  ("8"%char, ["111"; "1 1"; "111"; "1 1"; "111"]);
  ("9"%char, ["111"; "1 1"; "111"; "  1"; "111"]);
  ("."%char, ["   "; "   "; "   "; "   "; " 1 "]);
  (","%char, ["   "; "   "; "   "; " 1 "; " 1 "])
]%string.

(** [d[k]]: a missing key raises. *)
Definition dict_getitem {V} (d : gmap ascii V) (k : ascii) : result V :=
  match d !! k with
  | Some v => ok v
  | None => raise KeyError
  end.

(** [l[0]] *)
Definition list_first {A} (l : list A) : result A :=
  match l with
  | a :: _ => ok a
  | [] => raise IndexError
  end.

(** ** Text

    A Python [str] that is drawn is the list of its code points, and a
    character is a code point. The string constants of the script and the
    strings held by its records are Rocq strings, read character by
    character. *)

Abbreviation pystr := (list N).

Definition pystr_of_string (s : string) : pystr :=
  map N_of_ascii (list_ascii_of_string s).

(** [ch.upper()] for an ASCII character: the letters a to z move to A to
    Z, every other character stays. *)
Definition ascii_upper (ch : N) : N :=
  if ((97 <=? ch) && (ch <=? 122))%N then (ch - 32)%N else ch.

(** Outside ASCII [ch.upper()] is read off the Unicode tables: the
    character stays, changes, or becomes several characters (the
    upper-case form of the German sharp s, U+00DF, is ["SS"]). Upper-casing
    an upper-cased character changes nothing. *)
Class PyUnicode := {
  unicode_upper : N -> pystr;
  unicode_upper_idempotent : forall ch,
    (128 <= ch)%N ->
    flat_map (fun u => if (u <? 128)%N then [ascii_upper u] else unicode_upper u)
             (unicode_upper ch)
    = unicode_upper ch;
}.

(** [ch.upper()] *)
Definition char_upper `{PyUnicode} (ch : N) : pystr :=
  if (ch <? 128)%N then [ascii_upper ch] else unicode_upper ch.

(** [text.upper()]: [str.upper] works character by character. *)
Definition str_upper `{PyUnicode} (text : pystr) : pystr :=
  flat_map char_upper text.

(** [FONT.get(ch)]: the keys of [FONT] are ASCII characters. *)
Definition font_get (ch : N) : option glyph :=
  if (ch <? 128)%N then FONT !! ascii_of_N ch else None.

(** ** Text rendering: the closure [draw_text] of [_fallback_plot]

    The closure reads [width], [height] and [FONT] and mutates [canvas];
    here the canvas is passed in and handed back together with the final
    value of the cursor [x]. *)

Section DrawText.
Context `{PyUnicode}.
Variables width height : Z.

(** The body of [for gx, val in enumerate(row)]. *)
Definition draw_cell (c : color) (x y gy : Z) (canvas : Canvas)
  (cell : Z * ascii) : result Canvas :=
  let '(gx, val) := cell in
  if Ascii.eqb val "1" then
    let px := x + gx in
    let py := y + gy in
    if (0 <=? px) && (px <? width) && ((0 <=? py) && (py <? height))
    then canvas_setitem canvas py px (color_list c)
    else ok canvas
  else ok canvas.

(** The body of [for gy, row in enumerate(glyph)]. *)
Definition draw_row (c : color) (x y : Z) (canvas : Canvas)
  (line : Z * string) : result Canvas :=
  let '(gy, row) := line in
  foldM (draw_cell c x y gy) canvas (enumerate (list_ascii_of_string row)).

(** The body of [for ch in text.upper()]: the state is the canvas and the
    cursor. *)
Definition draw_char (c : color) (y : Z) (st : Canvas * Z) (ch : N)
  : result (Canvas * Z) :=
  let '(canvas, x) := st in
  blank <- dict_getitem FONT " "%char ;;
  let glyph := default blank (font_get ch) in
  canvas' <- foldM (draw_row c x y) canvas (enumerate glyph) ;;
  row0 <- list_first glyph ;;
  ok (canvas', x + Z.of_nat (String.length row0) + 1).

Definition draw_text (canvas : Canvas) (text : pystr) (x y : Z) (c : color)
  : result (Canvas * Z) :=
  foldM (draw_char c y) (canvas, x) (str_upper text).

End DrawText.

(** ** PNG writer *)

Abbreviation byte := Byte.byte.

Definition byte_of_Z (z : Z) : byte :=
  default Byte.x00 (Byte.of_N (Z.to_N (z mod 256))).

Definition Z_of_byte (b : byte) : Z := Z.of_N (Byte.to_N b).

(** The [n] low-order bytes of [v], most significant first. *)
Fixpoint big_endian (n : nat) (v : Z) : list byte :=
  match n with
  | O => []
  | S n' => big_endian n' (v / 256) ++ [byte_of_Z v]
  end.

(** [v.to_bytes(n, "big")] *)
Definition int_to_bytes (v : Z) (n : nat) : result (list byte) :=
  if (0 <=? v) && (v <? 256 ^ Z.of_nat n) then ok (big_endian n v)
  else raise OverflowError.

(** One field of [struct.pack]: format [I] is 4 bytes, [B] is 1, both
    unsigned and, under [>], big-endian. *)
Definition pack_field (n : nat) (v : Z) : result (list byte) :=
  if (0 <=? v) && (v <? 256 ^ Z.of_nat n) then ok (big_endian n v)
  else raise StructError.

(** [struct.pack(">IIBBBBB", a, b, c, d, e, f, g)] *)
Definition struct_pack_IIBBBBB (a b c d e f g : Z) : result (list byte) :=
  fa <- pack_field 4 a ;;
  fb <- pack_field 4 b ;;
  fc <- pack_field 1 c ;;
  fd <- pack_field 1 d ;;
  fe <- pack_field 1 e ;;
  ff <- pack_field 1 f ;;
  fg <- pack_field 1 g ;;
  ok (fa ++ fb ++ fc ++ fd ++ fe ++ ff ++ fg).

(** [bytes(pixel)] for a list of ints: every item must be in [range(256)]. *)
Fixpoint bytes_of_ints (l : list Z) : result (list byte) :=
  match l with
  | [] => ok []
  | v :: rest =>
      if (0 <=? v) && (v <? 256)
      then (bs <- bytes_of_ints rest ;; ok (byte_of_Z v :: bs))
      else raise (ValueError "bytes must be in range(0, 256)")
  end.

Class Zlib := {
  (** [zlib.crc32(data)], an unsigned 32-bit value *)
  zlib_crc32 : list byte -> Z;
  zlib_crc32_range : forall data, 0 <= zlib_crc32 data < 2 ^ 32;
  (** [zlib.compress(data, level=level)] *)
  zlib_compress : list byte -> Z -> result (list byte);
}.

(** The file behind [output_path]: [None] until it is opened, then the
    bytes written so far. A run of the writer yields the file and the
    outcome of the call. *)
Definition file : Type := option (list byte).

Definition io (A : Type) : Type := list byte -> list byte * result A.

Definition io_bind {A B} (m : io A) (k : A -> io B) : io B :=
  fun written =>
    match m written with
    | (written', inl e) => (written', inl e)
    | (written', inr a) => k a written'
    end.

Definition io_lift {A} (r : result A) : io A := fun written => (written, r).

(** [png_file.write(data)] *)
Definition file_write (data : list byte) : io unit :=
  fun written => (written ++ data, ok tt).

Notation "x <~ e ;; k" := (io_bind e (fun x => k))
  (at level 100, e at next level, right associativity,
   format "'[v' x  <~  e  ;;  '/' k ']'").

Definition PNG_SIGNATURE : list byte :=
  [Byte.x89; Byte.x50; Byte.x4e; Byte.x47; Byte.x0d; Byte.x0a; Byte.x1a; Byte.x0a].

Definition IHDR : list byte := [Byte.x49; Byte.x48; Byte.x44; Byte.x52].
Definition IDAT : list byte := [Byte.x49; Byte.x44; Byte.x41; Byte.x54].
Definition IEND : list byte := [Byte.x49; Byte.x45; Byte.x4e; Byte.x44].

Section WritePng.
Context `{Zlib}.

(** The inner function [chunk] of [_write_png]. *)
Definition chunk (chunk_type data : list byte) : result (list byte) :=
  let crc := Z.land (zlib_crc32 (chunk_type ++ data)) 0xFFFFFFFF in
  len_bytes <- int_to_bytes (Z.of_nat (length data)) 4 ;;
  crc_bytes <- int_to_bytes crc 4 ;;
  ok (len_bytes ++ chunk_type ++ data ++ crc_bytes).

(** The loop over [row] filling [raw_data]. *)
Definition raw_row (raw_data : list byte) (row : list (list Z))
  : result (list byte) :=
  foldM (fun raw pixel => bs <- bytes_of_ints pixel ;; ok (raw ++ bs))
        (raw_data ++ [Byte.x00]) row.

(** The body of the [with] block: what is written once the file is open. *)
Definition write_png_body (width height : Z) (raw_data : list byte) : io unit :=
  _ <~ file_write PNG_SIGNATURE ;;
  ihdr <~ io_lift (data <- struct_pack_IIBBBBB width height 8 2 0 0 0 ;;
                   chunk IHDR data) ;;
  _ <~ file_write ihdr ;;
  idat <~ io_lift (data <- zlib_compress raw_data 9 ;; chunk IDAT data) ;;
  _ <~ file_write idat ;;
  iend <~ io_lift (chunk IEND []) ;;
  file_write iend.

Definition _write_png (rgb_matrix : Canvas) : file * result unit :=
  let height := Z.of_nat (length rgb_matrix) in
  let width :=
    match rgb_matrix with
    | row0 :: _ => Z.of_nat (length row0)
    | [] => 0
    end in
  match foldM raw_row [] rgb_matrix with
  | inl e => (None, inl e)
  | inr raw_data =>
      let '(written, outcome) := write_png_body width height raw_data [] in
      (Some written, outcome)
  end.

End WritePng.

(** ** Reference implementations of the library interfaces

    Closed examples need concrete library functions. [statistics.mean] and
    [statistics.variance] are computed as CPython does, in exact rational
    arithmetic with one final rounding; the functions of the C library are
    tabulated at the arguments the examples reach. *)

(** A finite float as [m * 2 ^ e]. *)
Definition dyadic_of_float (x : float) : option (Z * Z) :=
  match Prim2SF x with
  | S754_zero _ => Some (0, 0)
  | S754_finite s m e => Some (if s then Z.neg m else Z.pos m, e)
  | _ => None
  end.

(** The mantissas of the floats of a list over their least exponent. *)
Definition aligned (xs : list float) : option (list Z * Z) :=
  ds ← mapM dyadic_of_float xs;
  let e0 := foldr Z.min 0 (snd <$> ds) in
  Some ((fun d => fst d * 2 ^ (snd d - e0)) <$> ds, e0).

(** [p / q * 2 ^ e] rounded to the nearest float, ties to even: the quotient
    is taken with more than 60 bits and a sticky bit, then rounded once.
    CPython raises [OverflowError] where the quotient exceeds the floats. *)
Definition float_of_ratio (p : Z) (q : positive) (e : Z) : result float :=
  if p =? 0 then ok 0%float else
  let k := Z.max 0 (64 + Z.log2 (Z.pos q) - Z.log2 (Z.abs p)) in
  let '(quot, rem) := Z.div_eucl (Z.abs p * 2 ^ k) (Z.pos q) in
  let m := 2 * quot + (if rem =? 0 then 0 else 1) in
  match binary_normalize prec emax (if p <? 0 then - m else m) (e - k - 1) false with
  | S754_infinity _ => raise OverflowError
  | sf => ok (SF2Prim sf)
  end.

Definition sumZ (l : list Z) : Z := foldr Z.add 0 l.

Definition ref_mean (data : list float) : result float :=
  match aligned data with
  | None => raise NotImplementedError
  | Some (ms, e0) =>
      match Z.of_nat (length data) with
      | Z.pos n => float_of_ratio (sumZ ms) n e0
      | _ => raise (ValueError "mean requires at least one data point")
      end
  end.

Definition ref_variance (data : list float) : result float :=
  match aligned data with
  | None => raise NotImplementedError
  | Some (ms, e0) =>
      let n := Z.of_nat (length data) in
      match n * (n - 1) with
      | Z.pos d =>
          float_of_ratio (n * sumZ ((fun m => m * m) <$> ms) - sumZ ms * sumZ ms)
                         d (2 * e0)
      | _ => raise (ValueError "variance requires at least two data points")
      end
  end.

(** A function given by finitely many of its values. *)
Fixpoint tabulated (table : list (float * float)) (x : float) : result float :=
  match table with
  | [] => raise NotImplementedError
  | (a, v) :: rest => if Leibniz.eqb a x then ok v else tabulated rest x
  end.

(** [x ** y] where the C library's [pow] is exact up to one rounding:
    [1.0 ** y] is 1.0, and [x ** 2.0] is the rounded square, which CPython
    reports as [OverflowError] when it is infinite for a finite [x]. *)
Definition ref_pow (x y : float) : result float :=
  if Leibniz.eqb x 1 then ok 1%float
  else if Leibniz.eqb y 2 then
    let r := (x * x)%float in
    if is_infinity r && negb (is_infinity x) then raise OverflowError else ok r
  else raise NotImplementedError.

(** The values the Student-t coefficient needs at [df = 10]. *)
Definition ref_lgamma : float -> result float :=
  tabulated [(5.5, 0x1.fa99a5e94985ap+1); (5, 0x1.96ca77c922cf7p+1)]%float.
Definition ref_log : float -> result float :=
  tabulated [(10, 0x1.26bb1bbb55516p+1); (math_pi, 0x1.250d048e7a1bdp+0)]%float.
Definition ref_exp : float -> result float :=
  tabulated [(-0x1.e346838489e5cp-1, 0x1.8e726d9eef1ecp-2)]%float.

Definition ref_math : PyMath := {|
  math_lgamma := ref_lgamma;
  math_log := ref_log;
  math_exp := ref_exp;
  float_pow := ref_pow;
  statistics_mean := ref_mean;
  statistics_variance := ref_variance;
|}.


(** [zlib.crc32]: the CRC-32 of PNG and zlib, bit by bit over a 32-bit
    register (reflected polynomial [0xEDB88320]). *)
Definition crc32_shift (c : Z) : Z :=
  if Z.testbit c 0 then Z.lxor (Z.shiftr c 1) 0xEDB88320 else Z.shiftr c 1.

Definition crc32_update (c : Z) (b : byte) : Z :=
  Nat.iter 8 crc32_shift (Z.lxor c (Z_of_byte b)).

Definition ref_crc32 (data : list byte) : Z :=
  Z.lxor (fold_left crc32_update data 0xFFFFFFFF) 0xFFFFFFFF mod 2 ^ 32.

(** The Adler-32 checksum that ends a zlib stream. *)
Definition adler32 (data : list byte) : Z :=
  let '(a, b) :=
    fold_left (fun '(a, b) x =>
                 let a' := (a + Z_of_byte x) mod 65521 in (a', (b + a') mod 65521))
              data (1, 0) in
  b * 65536 + a.

(** [v] as [n] bytes, least significant first. *)
Definition little_endian (n : nat) (v : Z) : list byte := rev (big_endian n v).

(** DEFLATE stored blocks of at most 65535 bytes each; [fuel] bounds the
    number of blocks. *)
Fixpoint stored_blocks (fuel : nat) (data : list byte) : list byte :=
  match fuel with
  | O => []
  | S fuel' =>
      let block := take (Z.to_nat 65535) data in
      let rest := drop (Z.to_nat 65535) data in
      let len := Z.of_nat (length block) in
      let final := match rest with [] => Byte.x01 | _ => Byte.x00 end in
      final :: little_endian 2 len ++ little_endian 2 (65535 - len) ++ block
        ++ match rest with [] => [] | _ => stored_blocks fuel' rest end
  end.

(** A DEFLATE-compatible [zlib.compress]: the zlib header for the highest
    level, the data in stored blocks, the Adler-32 trailer. (zlib itself
    picks a shorter encoding of the same data.) *)
Definition ref_compress (data : list byte) (level : Z) : result (list byte) :=
  ok ([Byte.x78; Byte.xda] ++ stored_blocks (S (length data)) data
        ++ big_endian 4 (adler32 data)).

Lemma ref_crc32_range data : 0 <= ref_crc32 data < 2 ^ 32.
Proof. unfold ref_crc32. apply Z.mod_pos_bound. lia. Qed.

Definition ref_zlib : Zlib := {|
  zlib_crc32 := ref_crc32;
  zlib_crc32_range := ref_crc32_range;
  zlib_compress := ref_compress;
|}.

(** A compressor that always fails, as when memory runs out. *)
Definition failing_zlib : Zlib := {|
  zlib_crc32 := ref_crc32;
  zlib_crc32_range := ref_crc32_range;
  zlib_compress := fun _ _ => raise ZlibError;
|}.

(** [ch.upper()] for the characters from U+0080 to U+00FF, as the Unicode
    tables give it: the sharp s becomes ["SS"], the micro sign the Greek
    capital mu (U+039C), the y with diaeresis U+0178, and the other small
    letters from U+00E0 to U+00FE (the division sign U+00F7 is none) move
    down by 32. The closed examples hold no character beyond U+00FF; the
    table leaves those as they are. *)
Definition ref_unicode_upper (ch : N) : pystr :=
  (if ch =? 223 then [83; 83]
   else if ch =? 181 then [924]
   else if ch =? 255 then [376]
   else if (224 <=? ch) && (ch <=? 254) && negb (ch =? 247) then [ch - 32]
   else [ch])%N.

Lemma ref_unicode_upper_idempotent (ch : N) :
  (128 <= ch)%N ->
  flat_map (fun u => if (u <? 128)%N then [ascii_upper u] else ref_unicode_upper u)
           (ref_unicode_upper ch)
  = ref_unicode_upper ch.
Proof.
  intros Hch. unfold ref_unicode_upper at 2 3.
  destruct (N.eqb_spec ch 223) as [->|H223]; [reflexivity|].
  destruct (N.eqb_spec ch 181) as [->|H181]; [reflexivity|].
  destruct (N.eqb_spec ch 255) as [->|H255]; [reflexivity|].
  destruct (N.leb_spec 224 ch) as [Hlo|Hlo]; cbn [andb];
    [destruct (N.leb_spec ch 254) as [Hhi|Hhi]; cbn [andb];
       [destruct (N.eqb_spec ch 247) as [->|H247]; cbn [negb]|]|];
    cbn [flat_map]; rewrite app_nil_r; unfold ref_unicode_upper;
    repeat match goal with
    | |- context [N.ltb ?a ?b] => destruct (N.ltb_spec a b); try lia
    | |- context [N.eqb ?a ?b] => destruct (N.eqb_spec a b); try lia
    | |- context [N.leb ?a ?b] => destruct (N.leb_spec a b); try lia
    end; cbn [andb negb]; try reflexivity; try lia.
Qed.

Definition ref_unicode : PyUnicode := {|
  unicode_upper := ref_unicode_upper;
  unicode_upper_idempotent := ref_unicode_upper_idempotent;
|}.

Definition red_2x2 : Canvas := _create_canvas 2 2 (255, 0, 0).

(** ** The PNG layout in the words of the specification

    These definitions restate the byte layout the specification prescribes;
    the theorems below compare the writer with them. *)

(** Four bytes, most significant first. *)
Definition spec_be32 (n : Z) : list byte :=
  [byte_of_Z (n / 2 ^ 24); byte_of_Z (n / 2 ^ 16); byte_of_Z (n / 2 ^ 8); byte_of_Z n].

(** A pixel grid with channels that are bytes by construction, and the
    nested list of ints the script holds for it. *)
Abbreviation pixel_grid := (list (list (byte * byte * byte))).

Definition canvas_of_grid (g : pixel_grid) : Canvas :=
  map (map (fun '(r, g, b) => [Z_of_byte r; Z_of_byte g; Z_of_byte b])) g.

(** Scanlines: per row a filter byte 0, then R, G, B of each pixel. *)
Definition spec_scanlines (g : pixel_grid) : list byte :=
  concat (map (fun row => Byte.x00 :: concat (map (fun '(r, g, b) => [r; g; b]) row)) g).

Definition spec_ihdr_data (width height : Z) : list byte :=
  spec_be32 width ++ spec_be32 height
    ++ [Byte.x08; Byte.x02; Byte.x00; Byte.x00; Byte.x00].

(** Length, type, data, CRC-32 over type and data. *)
Definition spec_chunk `{Zlib} (chunk_type data : list byte) : list byte :=
  spec_be32 (Z.of_nat (length data)) ++ chunk_type ++ data
    ++ spec_be32 (zlib_crc32 (chunk_type ++ data)).

(** The width the writer reads off the first row. *)
Definition grid_width (g : pixel_grid) : Z :=
  match g with
  | row0 :: _ => Z.of_nat (length row0)
  | [] => 0
  end.

(** ** Shapes of glyphs and canvases *)

(** The glyph [FONT[" "]], drawn for characters the font does not list. *)
Definition blank_glyph : glyph := ["   "; "   "; "   "; "   "; "   "]%string.

(** The width the glyphs of a character have in [FONT]: the two
    parentheses are two cells wide, every other glyph three. *)
Definition glyph_width (ch : ascii) : nat :=
  if Ascii.eqb ch "(" || Ascii.eqb ch ")" then 2 else 3.

Definition on_off (cell : ascii) : bool := Ascii.eqb cell "1" || Ascii.eqb cell " ".

(** A glyph of five rows, all [w] cells wide, every cell on or off. *)
Definition glyph_shape (w : nat) (g : glyph) : bool :=
  (length g =? 5)%nat &&
  forallb (fun row => (String.length row =? w)%nat
                      && forallb on_off (list_ascii_of_string row)) g.

(** A canvas of [height] rows of [width] pixels each. *)
Definition canvas_dims (width height : Z) (canvas : Canvas) : Prop :=
  Z.of_nat (length canvas) = height /\
  Forall (fun row => Z.of_nat (length row) = width) canvas.

(** The 2 by 2 canvas filled with (255, 0, 0). *)
Definition red_grid : pixel_grid :=
  replicate 2 (replicate 2 (Byte.xff, Byte.x00, Byte.x00)).

(** The sample [[0.0, 1e-90]]: two finite observations. *)
Definition tiny_spread : list float := [0; 0x1.04bd984990e6fp-299]%float.

(** The sample [[1e100, -1e100]]. *)
Definition huge_spread : list float :=
  [0x1.249ad2594c37dp+332; -0x1.249ad2594c37dp+332]%float.

(** ** Real values of floats *)

Definition pow2 (e : Z) : R := powerRZ 2 e.

(** The real number a finite float denotes; zeros, infinities and NaN are
    sent to 0. *)
Definition SF2R (x : spec_float) : R :=
  match x with
  | S754_finite s m e =>
      if s then (- (IZR (Z.pos m) * pow2 e))%R else (IZR (Z.pos m) * pow2 e)%R
  | _ => 0%R
  end.

Definition F2R (x : float) : R := SF2R (Prim2SF x).

(** [r] is an acceptable rounding of the real [v]: a finite [r] is within
    a relative [2 ^ -52] of [v], or an absolute [2 ^ -1074] for subnormals,
    and an infinite [r] stands for a [v] beyond the finite floats. *)
Definition rounds_to (v : R) (r : spec_float) : Prop :=
  match r with
  | S754_nan => False
  | S754_infinity s => if s then (v <= - pow2 1023)%R else (pow2 1023 <= v)%R
  | _ => (Rabs (SF2R r - v) <= pow2 (-52) * Rabs (SF2R r) + pow2 (-1074))%R
  end.

(** The exponent binary64 gives a number of magnitude below [2 ^ k]:
    [fexp] at precision 53 with least exponent -1074. *)
Definition fexp64 (k : Z) : Z := Z.max (k - 53) (-1074).

Definition signed (s : bool) (v : R) : R := if s then (- v)%R else v.

Definition finite_or_zero (x : spec_float) : bool :=
  match x with
  | S754_zero _ | S754_finite _ _ _ => true
  | _ => false
  end.

(** The clamp [max(0.0, min(1.0, cdf))] that ends [_student_t_cdf], and its
    counterpart on real numbers. *)
Definition clampF (cdf : float) : float := py_max 0 (py_min 1 cdf).

Definition clampR (v : R) : R := Rmax 0 (Rmin 1 v).

(** The expression [max(min(2 * min(cdf, 1 - cdf), 1.0), 0.0)] of
    [_two_tailed_p_value], and its counterpart on real numbers. *)
Definition tailsF (cdf : float) : float :=
  (py_max (py_min (2 * py_min cdf (1 - cdf)) 1) 0)%float.

Definition tailsR (c : R) : R := Rmax (Rmin (2 * Rmin c (1 - c)) 1) 0.

(** Two runs of the CDF, at [x] and at [-x], mirror each other within
    [tol]: both return finite floats whose values add up to 1 within
    [tol], or both raise the same exception. *)
Definition mirrored_within (tol : R) (at_x at_neg_x : result float) : Prop :=
  match at_x, at_neg_x with
  | inr a, inr b =>
      finite_or_zero (Prim2SF a) = true /\ finite_or_zero (Prim2SF b) = true /\
      (Rabs (F2R b - (1 - F2R a)) <= tol)%R
  | inl e1, inl e2 => e1 = e2
  | _, _ => False
  end.

(** Two runs agree within [tol]: both return finite floats at most [tol]
    apart, or both raise the same exception. *)
Definition agree_within (tol : R) (r1 r2 : result float) : Prop :=
  match r1, r2 with
  | inr a, inr b =>
      finite_or_zero (Prim2SF a) = true /\ finite_or_zero (Prim2SF b) = true /\
      (Rabs (F2R a - F2R b) <= tol)%R
  | inl e1, inl e2 => e1 = e2
  | _, _ => False
  end.

(** * The rest of the report pipeline

    The functions around the statistics, the renderer and the PNG writer:
    the simulation of user metrics, the analysis of the records, the
    fallback plot and the text summary.

    Conventions added here:
    - a row of [records] or of [summary] is a Python [dict] built with a
      fixed set of literal keys; it is a record with one field per key;
    - [random.Random] is an interface ([PyRandom]): a draw takes the state
      of the generator and hands back the value with the next state;
    - the builtin [sum] on floats and [format] on a float are an interface
      ([PyBuiltins]): CPython changed the summation algorithm of [sum]
      between versions, and float formatting is the C library's;
    - SciPy, when installed, is the function [stats.ttest_ind], an optional
      parameter of [run_analysis]. *)

(** ** Sequences *)

(** [range(a, b)] *)
Definition py_range (a b : Z) : list Z :=
  map (fun k => a + Z.of_nat k) (seq 0 (Z.to_nat (b - a))).

(** [l[i]]: a negative index counts from the end; [IndexError] outside
    the list. *)
Definition list_getitem {A} (l : list A) (i : Z) : result A :=
  let j := if i <? 0 then i + Z.of_nat (length l) else i in
  if j <? 0 then raise IndexError else
  match l !! Z.to_nat j with
  | Some a => ok a
  | None => raise IndexError
  end.

(** ** Simulated user metrics *)

(** One row of [records]. *)
Record user_record : Type := {
  user_id : Z;
  engagement_rate : float;
  conversion_rate : float;
  is_post_launch : bool;
}.

Class PyRandom := {
  rng_state : Type;
  (** [random.Random(seed)] *)
  Random : Z -> rng_state;
  (** [rng.betavariate(alpha, beta)] *)
  betavariate : float -> float -> rng_state -> float * rng_state;
  (** [rng.gauss(mu, sigma)] *)
  gauss : float -> float -> rng_state -> float * rng_state;
}.

Section Simulation.
Context `{PyRandom}.

(** The body of the first loop, [for idx in range(1, half + 1)]: the state
    is the list of records and the generator. *)
Definition simulate_pre_launch (st : list user_record * rng_state) (idx : Z)
  : list user_record * rng_state :=
  let '(records, rng) := st in
  let '(engagement, rng) := betavariate 2.5 5 rng in
  let '(conversion, rng) := betavariate 1.5 10 rng in
  (records ++ [{| user_id := idx;
                  engagement_rate := engagement;
                  conversion_rate := conversion;
                  is_post_launch := false |}], rng).

(** The body of the second loop, [for idx in range(half + 1, n_users + 1)]. *)
Definition simulate_post_launch (half : Z) (st : list user_record * rng_state)
    (idx : Z) : result (list user_record * rng_state) :=
  let '(records, rng) := st in
  let base_idx := idx - (half + 1) in
  base_e <- list_getitem records base_idx ;;
  let baseline_engagement := engagement_rate base_e in
  base_c <- list_getitem records base_idx ;;
  let baseline_conversion := conversion_rate base_c in
  let '(g, rng) := gauss 0x1.47ae147ae147bp-4 0x1.999999999999ap-5 rng in
  let engagement := py_max 0 (py_min 1 (baseline_engagement + g)) in
  let '(g, rng) := gauss 0x1.eb851eb851eb8p-6 0x1.eb851eb851eb8p-6 rng in
  let conversion := py_max 0 (py_min 1 (baseline_conversion + g)) in
  ok (records ++ [{| user_id := idx;
                     engagement_rate := engagement;
                     conversion_rate := conversion;
                     is_post_launch := true |}], rng).

Definition simulate_user_metrics (n_users seed : Z) : result (list user_record) :=
  let rng := Random seed in
  let half := n_users / 2 in
  let st := fold_left simulate_pre_launch (py_range 1 (half + 1)) ([], rng) in
  st <- foldM (simulate_post_launch half) st (py_range (half + 1) (n_users + 1)) ;;
  ok st.1.

End Simulation.

(** ** Analysis of the records *)

(** One row of the summary. *)
Record summary_row : Type := {
  metric : string;
  pre_mean : float;
  post_mean : float;
  mean_change : float;
  p_value : float;
}.

Class PyBuiltins := {
  (** [sum(values)] on a list of floats *)
  builtin_sum : list float -> float;
  (** [format(x, spec)] on a float, as in [f"{x:.3f}"] *)
  format_float : string -> float -> string;
}.

(** The two metrics [run_analysis] loops over, each with the lookup
    [row[metric]]. *)
Definition METRICS : list (string * (user_record -> float)) :=
  [("engagement_rate"%string, engagement_rate);
   ("conversion_rate"%string, conversion_rate)].

Section Analysis.
Context `{PyMath} `{PyBuiltins}.

(** [stats]: [None] when SciPy is not installed, else
    [stats.ttest_ind(a, b, equal_var=False)]. *)
Variable stats : option (list float -> list float -> result (float * float)).

(** [sum(values) / len(values)]: the division raises on an empty list,
    where [sum] is the integer 0. *)
Definition values_mean (values : list float) : result float :=
  float_div_int (builtin_sum values) (Z.of_nat (length values)).

(** The body of [for metric in ("engagement_rate", "conversion_rate")]. *)
Definition analyse_metric (pre_records post_records : list user_record)
    (summary_rows : list summary_row) (m : string * (user_record -> float))
  : result (list summary_row) :=
  let '(name, field) := m in
  let pre_values := map field pre_records in
  let post_values := map field post_records in
  pre <- values_mean pre_values ;;
  post <- values_mean post_values ;;
  let change := (post - pre)%float in
  p <- match stats with
       | Some ttest_ind => r <- ttest_ind post_values pre_values ;; ok r.2
       | None => r <- _manual_welchs_ttest post_values pre_values ;; ok r.2
       end ;;
  ok (summary_rows ++ [{| metric := name;
                          pre_mean := pre;
                          post_mean := post;
                          mean_change := change;
                          p_value := p |}]).

Definition run_analysis (records : list user_record) : result (list summary_row) :=
  let pre_records := List.filter (fun row => negb (is_post_launch row)) records in
  let post_records := List.filter (fun row => is_post_launch row) records in
  foldM (analyse_metric pre_records post_records) [] METRICS.

End Analysis.

(** ** Fallback plot *)

(** [int(x)] on a float: truncation towards zero; NaN and the infinities
    raise. *)
Definition int_of_float (x : float) : result Z :=
  match Prim2SF x with
  | S754_nan => raise (ValueError "cannot convert float NaN to integer")
  | S754_infinity _ => raise OverflowError
  | S754_zero _ => ok 0
  | S754_finite s m e =>
      let a := if 0 <=? e then Z.pos m * 2 ^ e else Z.pos m / 2 ^ (- e) in
      ok (if s then - a else a)
  end.

(** [s.replace(old, new)] for one-character [old] and [new]. *)
Definition str_replace_char (old new : ascii) (s : string) : string :=
  string_of_list_ascii
    (map (fun c => if Ascii.eqb c old then new else c) (list_ascii_of_string s)).

(** The dictionary [colors], in insertion order. *)
Definition COLORS : list (string * color) :=
  [("Pre-launch"%string, (70, 130, 180));
   ("Post-launch"%string, (46, 204, 113))].

(** [colors[key]] *)
Definition colors_getitem (key : string) : result color :=
  match List.find (fun item => String.eqb item.1 key) COLORS with
  | Some item => ok item.2
  | None => raise KeyError
  end.

Definition title : string := "Feature Rollout Impact".
Definition subtitle : string := "Fallback visualization (seaborn unavailable)".

Definition black : color := (0, 0, 0).
Definition white : color := (255, 255, 255).

Section FallbackPlot.
Context `{Zlib} `{PyBuiltins} `{PyUnicode}.

(** [width, height = 700, 420] *)
Definition width : Z := 700.
Definition height : Z := 420.

Definition bar_width : Z := 80.
Definition gap : Z := 60.
Definition base_x : Z := 80.
Definition base_y : Z := 340.
Definition scale : Z := 240.

(** The guarded assignment inside the rectangle loops:
    [if 0 <= x < width and 0 <= y < height: canvas[y][x] = pixel]; the
    expression [pixel] is evaluated only when the guard holds. *)
Definition fill_cell (pixel : result (list Z)) (y : Z) (canvas : Canvas) (x : Z)
  : result Canvas :=
  if (0 <=? x) && (x <? width) && ((0 <=? y) && (y <? height))
  then (v <- pixel ;; canvas_setitem canvas y x v)
  else ok canvas.

(** [for y in range(y0, y1): for x in range(x0, x1): ...] *)
Definition fill_rect (pixel : result (list Z)) (y0 y1 x0 x1 : Z) (canvas : Canvas)
  : result Canvas :=
  foldM (fun canvas y => foldM (fill_cell pixel y) canvas (py_range x0 x1))
        canvas (py_range y0 y1).

(** The body of [for label, color in colors.items()]: the state is the
    canvas and [legend_y]. *)
Definition draw_legend_entry (st : Canvas * Z) (item : string * color)
  : result (Canvas * Z) :=
  let '(canvas, legend_y) := st in
  let '(label, color) := item in
  canvas <- fill_rect (ok (color_list color)) legend_y (legend_y + 20) 520 540 canvas ;;
  drawn <- draw_text width height canvas (str_upper (pystr_of_string label))
             550 (legend_y + 5) black ;;
  ok (drawn.1, legend_y + 30).

(** The body of [for i, row in enumerate(summary)]. *)
Definition draw_metric (canvas : Canvas) (item : Z * summary_row) : result Canvas :=
  let '(i, row) := item in
  pre_height <- int_of_float (pre_mean row * float_of_int scale)%float ;;
  post_height <- int_of_float (post_mean row * float_of_int scale)%float ;;
  let x0 := base_x + i * (2 * bar_width + gap) in
  canvas <- fill_rect (c <- colors_getitem "Pre-launch" ;; ok (color_list c))
              (Z.max (base_y - pre_height) 0) base_y x0 (x0 + bar_width) canvas ;;
  let x1 := x0 + bar_width in
  canvas <- fill_rect (c <- colors_getitem "Post-launch" ;; ok (color_list c))
              (Z.max (base_y - post_height) 0) base_y x1 (x1 + bar_width) canvas ;;
  let label := str_upper (pystr_of_string (str_replace_char "_" " " (metric row))) in
  drawn <- draw_text width height canvas label x0 (base_y + 15) black ;;
  let change_text :=
    str_upper (pystr_of_string ("DELTA " +:+ format_float ".3f" (mean_change row))) in
  let p_text :=
    str_upper (pystr_of_string ("P=" +:+ format_float ".3g" (p_value row))) in
  drawn <- draw_text width height drawn.1 change_text x0
             (Z.max (base_y - post_height - 50) 20) black ;;
  drawn <- draw_text width height drawn.1 p_text x0
             (Z.max (base_y - post_height - 30) 40) black ;;
  ok drawn.1.

(** The canvas [_fallback_plot] has drawn when it calls [_write_png]. *)
Definition fallback_canvas (summary : list summary_row) : result Canvas :=
  let canvas := _create_canvas width height white in
  drawn <- draw_text width height canvas (pystr_of_string title) 40 30 black ;;
  drawn <- draw_text width height drawn.1 (pystr_of_string subtitle) 40 60 black ;;
  drawn <- draw_text width height drawn.1 (pystr_of_string "Legend:") 520 260 black ;;
  st <- foldM draw_legend_entry (drawn.1, 280) COLORS ;;
  foldM draw_metric st.1 (enumerate summary).

(** The file behind [output_path] and the outcome of the call. *)
Definition _fallback_plot (summary : list summary_row) : file * result unit :=
  match fallback_canvas summary with
  | inl e => (None, inl e)
  | inr canvas => _write_png canvas
  end.

End FallbackPlot.

(** ** Text summary *)

(** [" " * n] *)
Definition spaces (n : nat) : string := string_of_list_ascii (replicate n " "%char).

(** [format(s, "<w")] and [format(s, ">w")]: padding to width [w], never a
    truncation. *)
Definition ljust (w : nat) (s : string) : string := s +:+ spaces (w - String.length s).
Definition rjust (w : nat) (s : string) : string := spaces (w - String.length s) +:+ s.

(** [sep.join(items)] *)
Definition str_join (sep : string) (items : list string) : string :=
  match items with
  | [] => ""
  | s :: rest => fold_left (fun acc t => acc +:+ sep +:+ t) rest s
  end.

Definition newline : string := String "010" "".

Section FormatSummary.
Context `{PyBuiltins}.

Definition summary_header : string :=
  ljust 18 "metric" +:+ rjust 12 "pre_mean" +:+ rjust 12 "post_mean"
    +:+ rjust 14 "mean_change" +:+ rjust 12 "p_value".

(** The line of one row: [f"{metric:<18}{pre_mean:>12.4f}..."]. *)
Definition summary_line (row : summary_row) : string :=
  ljust 18 (metric row)
    +:+ rjust 12 (format_float ".4f" (pre_mean row))
    +:+ rjust 12 (format_float ".4f" (post_mean row))
    +:+ rjust 14 (format_float ".4f" (mean_change row))
    +:+ rjust 12 (format_float ".4g" (p_value row)).

Definition _format_summary (summary : list summary_row) : string :=
  let header := summary_header in
  let lines :=
    [header; string_of_list_ascii (replicate (String.length header) "-"%char)] in
  let lines := fold_left (fun lines row => lines ++ [summary_line row]) summary lines in
  str_join newline lines.

End FormatSummary.

(** ** Shapes of results *)

(** [0.0 <= c <= 1.0]: a float that is a number between 0 and 1. *)
Definition in_unit_interval (c : float) : Prop :=
  (0 <=? c)%float = true /\ (c <=? 1)%float = true.

(** ** Reference implementations for the closed examples *)

(** A scripted generator: every draw hands out the next value of a tape,
    and 0.5 once the tape is used up. The seed is ignored. *)
Definition scripted_draw (tape : list float) : float * list float :=
  match tape with
  | v :: rest => (v, rest)
  | [] => (0.5%float, [])
  end.

Definition scripted_random (tape : list float) : PyRandom := {|
  rng_state := list float;
  Random := fun _ => tape;
  betavariate := fun _ _ => scripted_draw;
  gauss := fun _ _ => scripted_draw;
|}.

(** [sum] as CPython computes it up to version 3.11: the floats are added
    from left to right, starting from 0. [format] is given by a table of the
    values 0.0, 1.0 and 0.5 under the specifications [.3f], [.4f], [.3g]
    and [.4g], the only ones the examples format; the mark [?] stands for
    every other value. *)
Definition ref_sum (values : list float) : float :=
  fold_left (fun acc v => (acc + v)%float) values 0%float.

Definition ref_format (spec : string) (x : float) : string :=
  if Leibniz.eqb x 0 then
    (if String.eqb spec ".3f" then "0.000"
     else if String.eqb spec ".4f" then "0.0000" else "0")%string
  else if Leibniz.eqb x 1 then
    (if String.eqb spec ".3f" then "1.000"
     else if String.eqb spec ".4f" then "1.0000" else "1")%string
  else if Leibniz.eqb x 0.5 then
    (if String.eqb spec ".3f" then "0.500"
     else if String.eqb spec ".4f" then "0.5000" else "0.5")%string
  else "?"%string.

Definition ref_builtins : PyBuiltins := {|
  builtin_sum := ref_sum;
  format_float := ref_format;
|}.

(** A post-launch row whose two rates lie in [[0, 1]]. *)
Definition clamped_post_row (row : user_record) : Prop :=
  is_post_launch row = true /\
  in_unit_interval (engagement_rate row) /\
  in_unit_interval (conversion_rate row).

(** The tape of the example run: four draws for the two pre-launch users,
    then four for the two post-launch users, the last one NaN. *)
Definition example_tape : list float :=
  [0.25; 0.125; 0.875; 0.0625; 0.5; -0.5; 0.25; nan]%float.

(** The rows of [records] before and after the launch, as [run_analysis]
    selects them. *)
Definition pre_launch_rows (records : list user_record) : list user_record :=
  List.filter (fun row => negb (is_post_launch row)) records.

Definition post_launch_rows (records : list user_record) : list user_record :=
  List.filter (fun row => is_post_launch row) records.

(** Two pre-launch and two post-launch rows, every rate 0.5. *)
Definition flat_records : list user_record :=
  [{| user_id := 1; engagement_rate := 0.5; conversion_rate := 0.5; is_post_launch := false |};
   {| user_id := 2; engagement_rate := 0.5; conversion_rate := 0.5; is_post_launch := false |};
   {| user_id := 3; engagement_rate := 0.5; conversion_rate := 0.5; is_post_launch := true |};
   {| user_id := 4; engagement_rate := 0.5; conversion_rate := 0.5; is_post_launch := true |}].

(** ** Geometry of drawn text *)

(** The width of the glyph drawn for a character: the glyph of the font
    for an ASCII character, the blank glyph, three cells wide, for any
    other. *)
Definition char_width (ch : N) : nat :=
  if (ch <? 128)%N then glyph_width (ascii_of_N ch) else 3%nat.

(** The horizontal advance of a run of characters: for each one the width
    of its glyph plus one cell of spacing. *)
Definition chars_advance (chars : pystr) : Z :=
  foldr (fun ch acc => Z.of_nat (char_width ch) + 1 + acc) 0 chars.

(** The advance of a text: that of the characters of [text.upper()]. *)
Definition text_advance `{PyUnicode} (text : pystr) : Z :=
  chars_advance (str_upper text).

(** The pixel at row [py] and column [px]; [None] outside the canvas. *)
Definition pixel_at (canvas : Canvas) (py px : Z) : option (list Z) :=
  if (0 <=? py) && (0 <=? px)
  then row ← canvas !! Z.to_nat py; row !! Z.to_nat px
  else None.

(** The cells a text drawn at [(x, y)] may touch: five rows from [y],
    the columns from [x] up to the final cursor [x']. *)
Definition text_box (x x' y : Z) (py px : Z) : Prop :=
  y <= py < y + 5 /\ x <= px < x'.

(** ** Canvases the PNG writer accepts *)

(** A channel value that [bytes(pixel)] accepts. *)
Definition channel_ok (v : Z) : Prop := 0 <= v < 256.

(** The scanlines of a canvas of ints, of any shape: per row a filter
    byte 0, then the channels of each pixel as bytes. *)
Definition canvas_scanlines (canvas : Canvas) : list byte :=
  concat (map (fun row => Byte.x00 :: concat (map (map byte_of_Z) row)) canvas).

(** [len(rgb_matrix[0]) if height else 0] *)
Definition canvas_width (canvas : Canvas) : Z :=
  match canvas with
  | row0 :: _ => Z.of_nat (length row0)
  | [] => 0
  end.

(** A canvas of the size of the plot whose pixels are triples of bytes. *)
Definition plot_canvas (canvas : Canvas) : Prop :=
  canvas_dims width height canvas /\
  Forall (Forall (fun pixel => length pixel = 3%nat /\ Forall channel_ok pixel)) canvas.

(** A row the fallback plot can draw: both means, scaled to pixels, are
    finite floats. *)
Definition drawable_row (row : summary_row) : Prop :=
  is_finite (pre_mean row * float_of_int scale) = true /\
  is_finite (post_mean row * float_of_int scale) = true.

(** A ragged canvas: a first row of two pixels, a second row of one pixel
    with four channels. *)
Definition ragged_canvas : Canvas := [[[1; 2; 3]; [4; 5; 6]]; [[7; 8; 9; 10]]].

(** The reference library with [**] extended to a NaN base, where the C
    library returns NaN (the exponent is not zero). *)
Definition nan_pow (x y : float) : result float :=
  if is_nan x then ok nan else ref_pow x y.

Definition nan_math : PyMath := {|
  math_lgamma := ref_lgamma;
  math_log := ref_log;
  math_exp := ref_exp;
  float_pow := nan_pow;
  statistics_mean := ref_mean;
  statistics_variance := ref_variance;
|}.

(** A summary of two rows, as [run_analysis] returns it. *)
Definition example_summary : list summary_row :=
  [{| metric := "engagement_rate"; pre_mean := 0.25; post_mean := 0.75;
      mean_change := 0.5; p_value := 0 |};
   {| metric := "conversion_rate"; pre_mean := 0.5; post_mean := 0.5;
      mean_change := 0; p_value := 1 |}].

(** A row whose pre-launch mean is NaN. *)
Definition nan_row : summary_row :=
  {| metric := "engagement_rate"; pre_mean := nan; post_mean := 0.5;
     mean_change := nan; p_value := 1 |}.

(** A row of the summary fits the columns of the table: its name has at
    most 18 characters and its formatted numbers are no wider than their
    columns. *)
Definition fits_columns `{PyBuiltins} (row : summary_row) : Prop :=
  (String.length (metric row) <= 18)%nat /\
  (String.length (format_float ".4f" (pre_mean row)) <= 12)%nat /\
  (String.length (format_float ".4f" (post_mean row)) <= 12)%nat /\
  (String.length (format_float ".4f" (mean_change row)) <= 14)%nat /\
  (String.length (format_float ".4g" (p_value row)) <= 12)%nat.
(** * Properties *)

(** ** Facts about binary64 operations *)

Lemma Prim2SF_zero : Prim2SF 0 = S754_zero false.
Proof. reflexivity. Qed.

Lemma float_is_finite_cases (x : float) :
  is_finite x = true ->
  (exists s, Prim2SF x = S754_zero s) \/ (exists s m e, Prim2SF x = S754_finite s m e).
Proof.
  unfold is_finite, is_nan, is_infinity.
  rewrite !FloatAxioms.eqb_spec, abs_spec.
  destruct (Prim2SF x) as [s|s| |s m e]; cbn; try discriminate; eauto.
  destruct s; discriminate.
Qed.

(** A finite float minus itself is [+0.0]. *)
Lemma float_sub_diag (x : float) : is_finite x = true -> (x - x)%float = 0%float.
Proof.
  intros Hfin. apply Prim2SF_inj. rewrite sub_spec, Prim2SF_zero.
  destruct (float_is_finite_cases x Hfin) as [[s ->]|(s & m & e & ->)].
  - now destruct s.
  - unfold SF64sub, SFsub. rewrite Z.sub_diag. reflexivity.
Qed.

(** [+0.0] divided by a positive float (finite or infinite) is [+0.0]. *)
Lemma float_div_zero_pos (y : float) : (0 <? y)%float = true -> (0 / y)%float = 0%float.
Proof.
  intros Hpos. apply Prim2SF_inj. rewrite div_spec, Prim2SF_zero.
  rewrite ltb_spec, Prim2SF_zero in Hpos.
  destruct (Prim2SF y) as [s|s| |s m e]; try discriminate; destruct s; try discriminate;
    reflexivity.
Qed.

Lemma float_pos_not_zero (y : float) : (0 <? y)%float = true -> (y =? 0)%float = false.
Proof.
  rewrite ltb_spec, FloatAxioms.eqb_spec, Prim2SF_zero.
  destruct (Prim2SF y) as [s|s| |s m e]; try discriminate; destruct s; try discriminate;
    reflexivity.
Qed.

(** ** Loops in the exception monad *)

Lemma foldM_app {A B} (f : A -> B -> result A) acc l1 l2 :
  foldM f acc (l1 ++ l2) = (acc' <- foldM f acc l1 ;; foldM f acc' l2).
Proof.
  revert acc. induction l1 as [|b l1 IH]; intros acc; cbn; [reflexivity|].
  destruct (f acc b) as [e|acc']; cbn; [reflexivity|apply IH].
Qed.

(** ** The Student-t CDF and the p-value at zero *)

Section StudentTFacts.
Context `{PyMath}.

Lemma student_t_cdf_zero (x df : float) :
  (x =? 0)%float = true -> _student_t_cdf x df = ok 0.5%float.
Proof. intros Hx. unfold _student_t_cdf. now rewrite Hx. Qed.

Lemma two_tailed_p_value_zero (t df : float) :
  (t =? 0)%float = true -> _two_tailed_p_value t df = ok 1%float.
Proof.
  intros Ht. unfold _two_tailed_p_value.
  destruct (df <=? 0)%float; [reflexivity|].
  rewrite student_t_cdf_zero by assumption. reflexivity.
Qed.


(** C3. Whenever one of the samples has fewer than two observations the
    test raises the insufficient-samples error (the [ValueError] of the
    script) and so returns no result pair. *)
Theorem welch_insufficient_samples (sample_a sample_b : list float) :
  (length sample_a < 2)%nat \/ (length sample_b < 2)%nat ->
  _manual_welchs_ttest sample_a sample_b = raise InsufficientSamples /\
  is_ok (_manual_welchs_ttest sample_a sample_b) = false.
Proof.
  intros Hshort. unfold _manual_welchs_ttest.
  replace ((Z.of_nat (length sample_a) <? 2) || (Z.of_nat (length sample_b) <? 2))
    with true; [split; reflexivity|].
  symmetry. apply orb_true_iff. rewrite !Z.ltb_lt. lia.
Qed.

(** C5. With two samples of at least two observations each, once the
    means and variances are computed and the standard error
    [sqrt(var_a/n_a + var_b/n_b)] compares equal to zero, the test returns
    [(0.0, 1.0)]: no exception is raised and nothing is divided by the
    standard error. *)
Theorem welch_zero_standard_error (sample_a sample_b : list float)
    (mean1 mean2 var1 var2 se : float) :
  let n1 := Z.of_nat (length sample_a) in
  let n2 := Z.of_nat (length sample_b) in
  (2 <= length sample_a)%nat ->
  (2 <= length sample_b)%nat ->
  statistics_mean sample_a = ok mean1 ->
  statistics_mean sample_b = ok mean2 ->
  statistics_variance sample_a = ok var1 ->
  statistics_variance sample_b = ok var2 ->
  math_sqrt (var1 / float_of_int n1 + var2 / float_of_int n2)%float = ok se ->
  (se =? 0)%float = true ->
  _manual_welchs_ttest sample_a sample_b = ok (0%float, 1%float).
Proof.
  intros n1 n2 Ha Hb Hm1 Hm2 Hv1 Hv2 Hse Hzero. unfold _manual_welchs_ttest.
  fold n1 n2.
  replace ((n1 <? 2) || (n2 <? 2)) with false
    by (symmetry; apply orb_false_iff; rewrite !Z.ltb_ge; lia).
  rewrite Hm1, Hm2, Hv1, Hv2. cbn [rbind ok].
  unfold float_div_int.
  replace (n1 =? 0) with false by (symmetry; apply Z.eqb_neq; lia).
  replace (n2 =? 0) with false by (symmetry; apply Z.eqb_neq; lia).
  cbn [rbind ok]. rewrite Hse. cbn [rbind ok]. now rewrite Hzero.
Qed.

End StudentTFacts.

(** The example of the specification: [A = [1.0]], [B = [1, 2]]. *)
Lemma welch_insufficient_samples_witness :
  @_manual_welchs_ttest ref_math [1]%float [1; 2]%float = raise InsufficientSamples /\
  is_ok (@_manual_welchs_ttest ref_math [1]%float [1; 2]%float) = false.
Proof.
  apply (@welch_insufficient_samples ref_math). left. cbn. lia.
Defined.

(** The example of the specification: [A = B = [5, 5, 5, 5]]. *)
Lemma welch_zero_standard_error_witness :
  @_manual_welchs_ttest ref_math [5; 5; 5; 5]%float [5; 5; 5; 5]%float
  = ok (0%float, 1%float).
Proof.
  apply (@welch_zero_standard_error ref_math [5; 5; 5; 5]%float [5; 5; 5; 5]%float
           5%float 5%float 0%float 0%float 0%float).
  - cbn. lia.
  - cbn. lia.
  - vm_compute. reflexivity.
  - vm_compute. reflexivity.
  - vm_compute. reflexivity.
  - vm_compute. reflexivity.
  - vm_compute. reflexivity.
  - vm_compute. reflexivity.
Defined.

(** ** Identical samples *)

Section IdenticalSamples.
Context `{PyMath}.

(** C4 (amended). Running the test on a sample against itself returns the
    statistic 0.0 and the p-value 1.0 in both cases of the claim,
    provided the intermediate floats stay in range: the mean is finite, the
    standard error is either zero (fallback) or positive, and in the
    positive case the degrees of freedom can be computed (the squares do
    not overflow and the denominator is not zero). *)
Theorem welch_identical_samples (sample : list float) (m v se : float) :
  let n := Z.of_nat (length sample) in
  (2 <= length sample)%nat ->
  statistics_mean sample = ok m ->
  is_finite m = true ->
  statistics_variance sample = ok v ->
  math_sqrt (v / float_of_int n + v / float_of_int n)%float = ok se ->
  (se =? 0)%float = true \/
    ((0 <? se)%float = true /\ is_ok (welch_df v v n n) = true) ->
  _manual_welchs_ttest sample sample = ok (0%float, 1%float).
Proof.
  intros n Hlen Hm Hfin Hv Hse Hcases. unfold _manual_welchs_ttest. fold n.
  replace ((n <? 2) || (n <? 2)) with false
    by (symmetry; apply orb_false_iff; rewrite !Z.ltb_ge; lia).
  rewrite Hm, Hv. cbn [rbind ok].
  unfold float_div_int at 1 2.
  replace (n =? 0) with false by (symmetry; apply Z.eqb_neq; lia).
  cbn [rbind ok]. rewrite Hse. cbn [rbind ok].
  destruct Hcases as [Hzero|[Hpos Hdf]].
  - now rewrite Hzero.
  - rewrite (float_pos_not_zero _ Hpos).
    rewrite (float_sub_diag _ Hfin). unfold float_div.
    rewrite (float_pos_not_zero _ Hpos), (float_div_zero_pos _ Hpos).
    cbn [rbind ok].
    destruct (welch_df v v n n) as [e|df]; [discriminate|]. cbn [rbind ok].
    now rewrite two_tailed_p_value_zero by reflexivity.
Qed.

End IdenticalSamples.

(** C4, counterexample. On the identical samples [[0.0, 1e-90]] the
    variance 5e-181 is positive, so the fallback is not taken; its square
    underflows to zero in both terms of the denominator and the division
    [numerator / denominator] raises [ZeroDivisionError]: no statistic and
    no p-value are returned. *)
Lemma welch_identical_tiny_spread_raises :
  (2 <= length tiny_spread)%nat /\
  forallb is_finite tiny_spread = true /\
  @_manual_welchs_ttest ref_math tiny_spread tiny_spread = raise ZeroDivisionError.
Proof. repeat split; vm_compute; reflexivity. Qed.

(** On [[1e100, -1e100]] the square of [var/n + var/n] overflows and
    [**] raises [OverflowError]. *)
Lemma welch_identical_huge_spread_raises :
  (2 <= length huge_spread)%nat /\
  forallb is_finite huge_spread = true /\
  @_manual_welchs_ttest ref_math huge_spread huge_spread = raise OverflowError.
Proof. repeat split; vm_compute; reflexivity. Qed.

(** The amended statement applies to the sample [[1.0, 2.0, 3.0]] (positive
    variance) under the reference library. *)
Lemma welch_identical_samples_witness :
  @_manual_welchs_ttest ref_math [1; 2; 3]%float [1; 2; 3]%float = ok (0%float, 1%float).
Proof.
  apply (@welch_identical_samples ref_math [1; 2; 3]%float 2%float 1%float
           0x1.a20bd700c2c3ep-1%float).
  - cbn. lia.
  - vm_compute. reflexivity.
  - vm_compute. reflexivity.
  - vm_compute. reflexivity.
  - vm_compute. reflexivity.
  - right. split; vm_compute; reflexivity.
Defined.

(** ** Rounding to binary64: the integer part

    [binary_round_aux] shifts a mantissa to the exponent [fexp] prescribes
    and rounds it to nearest-even. The lemmas below bound the result on
    integers; the real-valued error bounds follow from them. *)

Lemma fexp64_eq (k : Z) : fexp prec emax k = fexp64 k.
Proof. reflexivity. Qed.

(** A mantissa of [d] binary digits lies in [[2 ^ (d - 1), 2 ^ d)]. *)
Lemma digits2_pos_bounds (m : positive) :
  2 ^ (Z.pos (digits2_pos m) - 1) <= Z.pos m < 2 ^ Z.pos (digits2_pos m).
Proof.
  induction m as [m IH|m IH|]; cbn [digits2_pos].
  - rewrite Pos2Z.inj_succ, Z.pow_succ_r by lia.
    replace (Z.succ (Z.pos (digits2_pos m)) - 1) with (Z.succ (Z.pos (digits2_pos m) - 1)) by lia.
    rewrite Z.pow_succ_r by lia. lia.
  - rewrite Pos2Z.inj_succ, Z.pow_succ_r by lia.
    replace (Z.succ (Z.pos (digits2_pos m)) - 1) with (Z.succ (Z.pos (digits2_pos m) - 1)) by lia.
    rewrite Z.pow_succ_r by lia. lia.
  - cbn. lia.
Qed.

Lemma Zdigits2_bounds (m : Z) :
  0 < m -> 2 ^ (Zdigits2 m - 1) <= m < 2 ^ Zdigits2 m.
Proof.
  destruct m as [|p|p]; try lia. intros _. apply digits2_pos_bounds.
Qed.

Lemma Zdigits2_nonneg (m : Z) : 0 <= Zdigits2 m.
Proof. destruct m; cbn; lia. Qed.

(** One step of the right shift halves the mantissa, rounding down. *)
Lemma shr_1_m (mrs : shr_record) :
  0 <= shr_m mrs -> shr_m (shr_1 mrs) = shr_m mrs / 2.
Proof.
  destruct mrs as [m r s]. cbn [shr_m]. intros Hm. unfold shr_1.
  destruct m as [|p|p]; [reflexivity| |lia].
  destruct p as [p|p|]; cbn [shr_m].
  - apply Z.div_unique with (r := 1); lia.
  - apply Z.div_unique with (r := 0); lia.
  - reflexivity.
Qed.

Lemma Zpow2_xO (n : positive) : 2 ^ Z.pos n~0 = 2 ^ Z.pos n * 2 ^ Z.pos n.
Proof.
  replace (Z.pos n~0) with (Z.pos n + Z.pos n) by lia.
  apply Z.pow_add_r; lia.
Qed.

Lemma Zpow2_xI (n : positive) : 2 ^ Z.pos n~1 = 2 * (2 ^ Z.pos n * 2 ^ Z.pos n).
Proof.
  replace (Z.pos n~1) with (Z.succ (Z.pos n + Z.pos n)) by lia.
  rewrite Z.pow_succ_r, Z.pow_add_r by lia. reflexivity.
Qed.

(** [n] steps divide it by [2 ^ n]. *)
Lemma iter_shr_1_m (n : positive) (mrs : shr_record) :
  0 <= shr_m mrs ->
  shr_m (SpecFloat.iter_pos shr_1 n mrs) = shr_m mrs / 2 ^ Z.pos n.
Proof.
  revert mrs. induction n as [n IH|n IH|]; intros mrs Hm; cbn [SpecFloat.iter_pos].
  - assert (0 <= shr_m (shr_1 mrs)) as H1
      by (rewrite shr_1_m by assumption; apply Z.div_pos; lia).
    assert (0 <= shr_m (SpecFloat.iter_pos shr_1 n (shr_1 mrs))) as H2
      by (rewrite IH by assumption; apply Z.div_pos; lia).
    rewrite IH, IH, shr_1_m by assumption.
    rewrite !Z.div_div by lia. f_equal. rewrite Zpow2_xI. lia.
  - assert (0 <= shr_m (SpecFloat.iter_pos shr_1 n mrs)) as H2
      by (rewrite IH by assumption; apply Z.div_pos; lia).
    rewrite IH, IH by assumption.
    rewrite Z.div_div by lia. f_equal. now rewrite Zpow2_xO.
  - rewrite shr_1_m by assumption. reflexivity.
Qed.

(** Rounding to nearest-even keeps the mantissa or adds one. *)
Lemma round_nearest_even_bounds (m : Z) (l : location) :
  m <= round_nearest_even m l <= m + 1.
Proof.
  unfold round_nearest_even.
  destruct l as [|[| |]]; try lia. destruct (Z.even m); lia.
Qed.

(** The shift of [shr_fexp] on an exact mantissa: the exponent moves up to
    [fexp] of the magnitude, the mantissa is divided, rounding down. *)
Lemma shr_fexp_exact (m e : Z) :
  0 <= m ->
  let '(mrs, e') := shr_fexp prec emax m e loc_Exact in
  e' = Z.max e (fexp64 (Zdigits2 m + e)) /\
  shr_m mrs = m / 2 ^ (e' - e).
Proof.
  intros Hm. unfold shr_fexp, shr. rewrite fexp64_eq. cbn [shr_record_of_loc].
  destruct (fexp64 (Zdigits2 m + e) - e) as [|n|n] eqn:Hn.
  - split; [lia|]. cbn [shr_m]. now rewrite Z.sub_diag, Z.pow_0_r, Z.div_1_r.
  - split; [lia|]. rewrite iter_shr_1_m by assumption. cbn [shr_m].
    f_equal. f_equal. lia.
  - split; [lia|]. cbn [shr_m]. now rewrite Z.sub_diag, Z.pow_0_r, Z.div_1_r.
Qed.

Lemma Zdiv_pow2_bounds (m k : Z) :
  0 <= k -> m / 2 ^ k * 2 ^ k <= m < (m / 2 ^ k + 1) * 2 ^ k.
Proof.
  intros Hk. assert (0 < 2 ^ k) as Hp by (apply Z.pow_pos_nonneg; lia).
  pose proof (Z.div_mod m (2 ^ k) ltac:(lia)) as Hdm.
  pose proof (Z.mod_pos_bound m (2 ^ k) Hp). nia.
Qed.

(** Dividing a [d]-digit number by [2 ^ (d - 53)] leaves at least 53 digits. *)
Lemma Zdiv_keeps_53_digits (m : Z) :
  0 < m -> 53 <= Zdigits2 m -> 2 ^ 52 <= m / 2 ^ (Zdigits2 m - 53).
Proof.
  intros Hm Hd. pose proof (Zdigits2_bounds m Hm) as [Hlo _].
  apply Z.div_le_lower_bound; [apply Z.pow_pos_nonneg; lia|].
  rewrite <- Z.pow_add_r by lia.
  replace (Zdigits2 m - 53 + 52) with (Zdigits2 m - 1) by lia. assumption.
Qed.

(** The result of [binary_round_aux] on an exact positive mantissa [mx] at an
    exponent [ex] not above the one [fexp] prescribes: never NaN, signed as
    asked, and
    - zero only below the least subnormal;
    - finite [m * 2 ^ e] within one unit [2 ^ e] of [mx * 2 ^ ex], normal
      ([2 ^ 52 <= m]) above the least exponent;
    - infinite only for a normal mantissa at an exponent above 971. *)
Lemma binary_round_aux_int (s : bool) (mx : positive) (ex : Z) :
  ex <= fexp64 (Z.pos (digits2_pos mx) + ex) ->
  match binary_round_aux prec emax s (Z.pos mx) ex loc_Exact with
  | S754_nan => False
  | S754_zero s' => s' = s /\ ex <= -1074 /\ Z.pos mx < 2 ^ (-1074 - ex)
  | S754_finite s' m e =>
      s' = s /\ ex <= e /\ -1074 <= e <= 971 /\
      (Z.pos m - 1) * 2 ^ (e - ex) <= Z.pos mx < (Z.pos m + 1) * 2 ^ (e - ex) /\
      (-1074 < e -> 2 ^ 52 <= Z.pos m)
  | S754_infinity s' =>
      s' = s /\ exists m e, 971 < e /\ ex <= e /\ 2 ^ 52 <= m /\
                            (m - 1) * 2 ^ (e - ex) <= Z.pos mx
  end.
Proof.
  intros Hex. unfold binary_round_aux.
  pose proof (shr_fexp_exact (Z.pos mx) ex ltac:(lia)) as H1.
  destruct (shr_fexp prec emax (Z.pos mx) ex loc_Exact) as [mrs' e'].
  destruct H1 as [He' Hm']. cbn [Zdigits2] in He'.
  set (m' := shr_m mrs') in *.
  set (m'' := round_nearest_even m' (loc_of_shr_record mrs')).
  pose proof (round_nearest_even_bounds m' (loc_of_shr_record mrs')) as Hrne.
  fold m'' in Hrne.
  set (d := Z.pos (digits2_pos mx)) in *.
  pose proof (digits2_pos_bounds mx) as Hdig. fold d in Hdig.
  assert (0 < d) as Hdpos by (unfold d; lia).
  set (E := fexp64 (d + ex)) in *.
  assert (e' = E) as -> by lia. clear He'.
  assert (0 <= E - ex) as Hk1 by lia.
  pose proof (Zdiv_pow2_bounds (Z.pos mx) (E - ex) Hk1) as Hdiv1.
  rewrite <- Hm' in Hdiv1.
  assert (0 < 2 ^ (E - ex)) as HP1 by (apply Z.pow_pos_nonneg; lia).
  assert (0 <= m') as Hm'0 by (rewrite Hm'; apply Z.div_pos; lia).
  assert (-1074 <= E) as HEmin by (unfold E, fexp64; lia).
  assert (-1074 < E -> 2 ^ 52 <= m') as Hnorm1.
  { intros HE. assert (E - ex = d - 53) as Hk by (unfold E, fexp64 in *; lia).
    rewrite Hm', Hk. apply (Zdiv_keeps_53_digits (Z.pos mx)); [lia|].
    cbn [Zdigits2]. fold d. lia. }
  pose proof (shr_fexp_exact m'' E ltac:(lia)) as H2.
  destruct (shr_fexp prec emax m'' E loc_Exact) as [mrs'' e''].
  destruct H2 as [He'' Hm''']. set (m''' := shr_m mrs'') in *.
  assert (0 <= e'' - E) as Hk2 by lia.
  pose proof (Zdiv_pow2_bounds m'' (e'' - E) Hk2) as Hdiv2.
  rewrite <- Hm''' in Hdiv2.
  assert (0 < 2 ^ (e'' - E)) as HP2 by (apply Z.pow_pos_nonneg; lia).
  assert (0 <= m''') as Hm'''0 by (rewrite Hm'''; apply Z.div_pos; lia).
  assert (2 ^ (e'' - ex) = 2 ^ (e'' - E) * 2 ^ (E - ex)) as Hpow.
  { rewrite <- Z.pow_add_r by lia. f_equal. lia. }
  assert (E < e'' -> 2 ^ 52 <= m''') as Hnorm2.
  { intros Hlt. assert (0 < m'') as Hm''pos.
    { destruct (Z.eq_dec m'' 0) as [H0|H0]; [|lia].
      rewrite H0 in He''. cbn [Zdigits2] in He''. unfold fexp64 in He''. lia. }
    pose proof (Zdigits2_nonneg m'').
    assert (e'' - E = Zdigits2 m'' - 53) as Hk by (unfold fexp64 in He''; lia).
    rewrite Hm''', Hk. apply Zdiv_keeps_53_digits; lia. }
  assert (-1074 < e'' -> 2 ^ 52 <= m''') as Hnorm.
  { intros He. destruct (Z.eq_dec e'' E) as [Heq|Hne]; [|apply Hnorm2; lia].
    rewrite Heq, Z.sub_diag, Z.pow_0_r, Z.div_1_r in Hm'''.
    rewrite Hm'''. assert (2 ^ 52 <= m') by (apply Hnorm1; lia). lia. }
  assert ((m''' - 1) * 2 ^ (e'' - ex) <= Z.pos mx < (m''' + 1) * 2 ^ (e'' - ex)) as Hval.
  { rewrite Hpow. split.
    - assert (m''' * 2 ^ (e'' - E) <= m' + 1) by lia.
      assert (m''' * 2 ^ (e'' - E) * 2 ^ (E - ex) <= (m' + 1) * 2 ^ (E - ex))
        by (apply Z.mul_le_mono_nonneg_r; lia).
      assert (2 ^ (E - ex) <= 2 ^ (e'' - E) * 2 ^ (E - ex)) by nia.
      nia.
    - assert (m' + 1 <= (m''' + 1) * 2 ^ (e'' - E)) by lia.
      assert ((m' + 1) * 2 ^ (E - ex) <= (m''' + 1) * 2 ^ (e'' - E) * 2 ^ (E - ex))
        by (apply Z.mul_le_mono_nonneg_r; lia).
      nia. }
  destruct m''' as [|p|p] eqn:Hm3; [| |lia].
  - split; [reflexivity|].
    assert (e'' = E) as HeE.
    { destruct (Z.eq_dec e'' E); [assumption|]. assert (2 ^ 52 <= 0) by (apply Hnorm2; lia). lia. }
    assert (E = -1074) as HE.
    { destruct (Z.eq_dec E (-1074)); [assumption|].
      assert (2 ^ 52 <= 0) by (apply Hnorm; lia). lia. }
    rewrite HeE, HE in Hval. split; [lia|]. lia.
  - destruct (e'' <=? emax - prec) eqn:Hle.
    + apply Z.leb_le in Hle. change (emax - prec) with 971 in Hle.
      split; [reflexivity|]. split; [lia|]. split; [lia|]. split; [exact Hval|exact Hnorm].
    + apply Z.leb_gt in Hle. change (emax - prec) with 971 in Hle.
      split; [reflexivity|]. exists (Z.pos p), e''.
      split; [lia|]. split; [lia|]. split; [apply Hnorm; lia|lia].
Qed.

(** ** Rounding to binary64: real values *)

Lemma pow2_pos (e : Z) : (0 < pow2 e)%R.
Proof. apply powerRZ_lt. lra. Qed.

Lemma pow2_add (a b : Z) : pow2 (a + b) = (pow2 a * pow2 b)%R.
Proof. apply powerRZ_add. lra. Qed.

Lemma IZR_pow2 (k : Z) : 0 <= k -> IZR (2 ^ k) = pow2 k.
Proof.
  intros Hk. destruct k as [|p|p]; [reflexivity| |lia].
  exact (Zpower_pos_powerRZ 2 p).
Qed.

Lemma pow2_le (a b : Z) : a <= b -> (pow2 a <= pow2 b)%R.
Proof.
  intros Hab. replace b with (a + (b - a)) by lia. rewrite pow2_add.
  rewrite <- (IZR_pow2 (b - a)) by lia.
  assert (0 < 2 ^ (b - a)) as Hpos by (apply Z.pow_pos_nonneg; lia).
  assert (1 <= 2 ^ (b - a)) as Hone by lia.
  apply IZR_le in Hone. pose proof (pow2_pos a). nra.
Qed.

(** An integer inequality on mantissas, scaled to the common exponent. *)
Lemma scaled_le (a b ex e : Z) :
  ex <= e -> a * 2 ^ (e - ex) <= b ->
  (IZR a * pow2 e <= IZR b * pow2 ex)%R.
Proof.
  intros He Hab. apply IZR_le in Hab. rewrite mult_IZR, IZR_pow2 in Hab by lia.
  replace e with ((e - ex) + ex) at 1 by lia. rewrite pow2_add.
  pose proof (pow2_pos ex). nra.
Qed.

Lemma scaled_lt (a b ex e : Z) :
  ex <= e -> b < a * 2 ^ (e - ex) ->
  (IZR b * pow2 ex < IZR a * pow2 e)%R.
Proof.
  intros He Hab. apply IZR_lt in Hab. rewrite mult_IZR, IZR_pow2 in Hab by lia.
  replace e with ((e - ex) + ex) at 1 by lia. rewrite pow2_add.
  pose proof (pow2_pos ex). nra.
Qed.

(** The same bounds on real values: the result rounds [mx * 2 ^ ex]. *)
Lemma binary_round_aux_rounds (s : bool) (mx : positive) (ex : Z) :
  ex <= fexp64 (Z.pos (digits2_pos mx) + ex) ->
  rounds_to (signed s (IZR (Z.pos mx) * pow2 ex))
            (binary_round_aux prec emax s (Z.pos mx) ex loc_Exact).
Proof.
  intros Hex. pose proof (binary_round_aux_int s mx ex Hex) as Hint.
  set (v := (IZR (Z.pos mx) * pow2 ex)%R).
  assert (0 < v)%R as Hv.
  { unfold v. pose proof (pow2_pos ex). assert (0 < IZR (Z.pos mx))%R by (apply IZR_lt; lia). nra. }
  destruct (binary_round_aux prec emax s (Z.pos mx) ex loc_Exact) as [s'|s'| |s' m e];
    [| | contradiction |].
  - destruct Hint as (-> & Hle & Hlt). cbn [rounds_to SF2R].
    assert (v < pow2 (-1074))%R as Hsmall.
    { unfold v. replace (pow2 (-1074)) with (IZR 1 * pow2 (-1074))%R by (simpl; lra).
      apply scaled_lt; lia. }
    pose proof (pow2_pos (-52)). pose proof (pow2_pos (-1074)).
    destruct s; cbn [signed]; rewrite Rabs_R0;
      (apply Rabs_le; lra).
  - destruct Hint as (-> & m & e & He & Hee & Hm & Hval). cbn [rounds_to].
    assert (pow2 1023 <= v)%R as Hbig.
    { assert (IZR (m - 1) * pow2 e <= v)%R as H1 by (apply scaled_le; assumption).
      assert (pow2 1023 <= pow2 (e + 51))%R as H2 by (apply pow2_le; lia).
      rewrite pow2_add in H2. rewrite <- (IZR_pow2 51) in H2 by lia.
      assert (IZR (2 ^ 51) <= IZR (m - 1))%R by (apply IZR_le; lia).
      pose proof (pow2_pos e). nra. }
    destruct s; cbn [signed]; lra.
  - destruct Hint as (-> & Hee & Hrange & [Hlo Hhi] & Hnorm). cbn [rounds_to SF2R].
    set (r := (IZR (Z.pos m) * pow2 e)%R).
    assert (r - pow2 e <= v)%R as H1.
    { unfold r, v. replace (IZR (Z.pos m) * pow2 e - pow2 e)%R with (IZR (Z.pos m - 1) * pow2 e)%R
        by (rewrite minus_IZR; lra).
      apply scaled_le; assumption. }
    assert (v < r + pow2 e)%R as H2.
    { unfold r, v. replace (IZR (Z.pos m) * pow2 e + pow2 e)%R with (IZR (Z.pos m + 1) * pow2 e)%R
        by (rewrite plus_IZR; lra).
      apply scaled_lt; assumption. }
    assert (0 < r)%R as Hr.
    { unfold r. pose proof (pow2_pos e). assert (0 < IZR (Z.pos m))%R by (apply IZR_lt; lia). nra. }
    assert (pow2 e <= pow2 (-52) * r + pow2 (-1074))%R as Hulp.
    { destruct (Z.eq_dec e (-1074)) as [->|Hne].
      - pose proof (pow2_pos (-52)). nra.
      - assert (2 ^ 52 <= Z.pos m) as Hm by (apply Hnorm; lia).
        apply IZR_le in Hm. rewrite IZR_pow2 in Hm by lia.
        unfold r. pose proof (pow2_pos e). pose proof (pow2_pos (-1074)).
        assert (pow2 (-52) * pow2 52 = 1)%R as Hone
          by (rewrite <- pow2_add; reflexivity).
        pose proof (pow2_pos (-52)).
        assert (1 <= pow2 (-52) * IZR (Z.pos m))%R by nra.
        replace (pow2 (-52) * (IZR (Z.pos m) * pow2 e))%R
          with (pow2 (-52) * IZR (Z.pos m) * pow2 e)%R by lra.
        nra. }
    destruct s; cbn [signed].
    + replace (- r - - v)%R with (- (r - v))%R by lra.
      rewrite !Rabs_Ropp, (Rabs_pos_eq r) by lra. apply Rabs_le. lra.
    + rewrite (Rabs_pos_eq r) by lra. apply Rabs_le. lra.
Qed.

Lemma pow2_split (e ez : Z) : pow2 e = (pow2 (e - ez) * pow2 ez)%R.
Proof. rewrite <- pow2_add. f_equal. lia. Qed.

(** Shifting a mantissa left by [d] bits multiplies it by [2 ^ d] and adds
    [d] digits. *)
Lemma iter_xO_value (m d : positive) :
  Z.pos (Pos.iter xO m d) = Z.pos m * 2 ^ Z.pos d /\
  Z.pos (digits2_pos (Pos.iter xO m d)) = Z.pos (digits2_pos m) + Z.pos d.
Proof.
  induction d as [|d IH] using Pos.peano_ind.
  - cbn. split; lia.
  - rewrite Pos.iter_succ. destruct IH as [IHv IHd]. cbn [digits2_pos].
    rewrite Pos2Z.inj_succ. split.
    + rewrite Z.pow_succ_r by lia. lia.
    + lia.
Qed.

(** [shl_align] towards a lower exponent keeps the value. *)
Lemma shl_align_value (m : positive) (e e' : Z) :
  let '(mz, ez) := shl_align m e e' in
  ez = Z.min e e' /\
  Z.pos mz = Z.pos m * 2 ^ (e - ez) /\
  Z.pos (digits2_pos mz) + ez = Z.pos (digits2_pos m) + e.
Proof.
  unfold shl_align. destruct (e' - e) as [|d|d] eqn:Hd.
  - split; [lia|]. rewrite Z.sub_diag. split; lia.
  - split; [lia|]. rewrite Z.sub_diag. split; lia.
  - destruct (iter_xO_value m d) as [Hv Hdig]. split; [lia|].
    replace (e - e') with (Z.pos d) by lia. split; [assumption|lia].
Qed.

Lemma shl_align_R (m : positive) (e e' : Z) :
  e' <= e ->
  (IZR (Z.pos (fst (shl_align m e e'))) * pow2 e' = IZR (Z.pos m) * pow2 e)%R.
Proof.
  intros Hle. pose proof (shl_align_value m e e') as Hs.
  destruct (shl_align m e e') as [mz ez]. destruct Hs as (Hez & Hv & _). cbn [fst].
  assert (ez = e') as -> by lia.
  rewrite Hv, mult_IZR, IZR_pow2 by lia.
  rewrite (pow2_split e e'). lra.
Qed.

Lemma binary_round_rounds (s : bool) (m : positive) (e : Z) :
  rounds_to (signed s (IZR (Z.pos m) * pow2 e)) (binary_round prec emax s m e).
Proof.
  unfold binary_round. rewrite fexp64_eq.
  pose proof (shl_align_value m e (fexp64 (Z.pos (digits2_pos m) + e))) as Hs.
  destruct (shl_align m e (fexp64 (Z.pos (digits2_pos m) + e))) as [mz ez].
  destruct Hs as (Hez & Hv & Hdig).
  replace (IZR (Z.pos m) * pow2 e)%R with (IZR (Z.pos mz) * pow2 ez)%R.
  - apply binary_round_aux_rounds. rewrite Hdig. lia.
  - rewrite Hv, mult_IZR, IZR_pow2 by lia.
    rewrite (pow2_split e ez). lra.
Qed.

Lemma binary_normalize_rounds (m e : Z) :
  rounds_to (IZR m * pow2 e) (binary_normalize prec emax m e false).
Proof.
  destruct m as [|p|p]; cbn [binary_normalize].
  - cbn [rounds_to SF2R]. rewrite Rmult_0_l, Rminus_0_r, Rabs_R0.
    pose proof (pow2_pos (-1074)). lra.
  - exact (binary_round_rounds false p e).
  - replace (IZR (Z.neg p) * pow2 e)%R with (signed true (IZR (Z.pos p) * pow2 e)).
    + exact (binary_round_rounds true p e).
    + cbn [signed]. change (Z.neg p) with (- Z.pos p). rewrite opp_IZR. lra.
Qed.

(** A finite float rounds its own value. *)
Lemma exact_rounds_to (x : spec_float) :
  finite_or_zero x = true -> rounds_to (SF2R x) x.
Proof.
  pose proof (pow2_pos (-52)). pose proof (pow2_pos (-1074)).
  destruct x as [s|s| |s m e]; try discriminate; intros _; cbn [rounds_to];
    rewrite Rminus_diag, Rabs_R0.
  - pose proof (Rabs_pos (SF2R (S754_zero s))). nra.
  - pose proof (Rabs_pos (SF2R (S754_finite s m e))). nra.
Qed.

Lemma aligned_mantissa_R (s : bool) (m : positive) (e ez : Z) :
  ez <= e ->
  (IZR (cond_Zopp s (Z.pos (fst (shl_align m e ez)))) * pow2 ez)%R
  = SF2R (S754_finite s m e).
Proof.
  intros Hle. pose proof (shl_align_R m e ez Hle) as Hv. cbn [SF2R].
  destruct s; cbn [cond_Zopp]; [rewrite opp_IZR|]; lra.
Qed.

(** Addition and subtraction of finite floats round the exact result. *)
Lemma SFadd_rounds (x y : spec_float) :
  finite_or_zero x = true -> finite_or_zero y = true ->
  rounds_to (SF2R x + SF2R y) (SFadd prec emax x y).
Proof.
  destruct x as [sx|sx| |sx mx ex]; try discriminate;
    destruct y as [sy|sy| |sy my ey]; try discriminate; intros _ _.
  - replace (SF2R (S754_zero sx) + SF2R (S754_zero sy))%R with 0%R by (cbn; lra).
    destruct sx, sy; cbn [SFadd]; exact (exact_rounds_to (S754_zero _) eq_refl).
  - cbn [SFadd]. replace (SF2R (S754_zero sx) + SF2R (S754_finite sy my ey))%R
      with (SF2R (S754_finite sy my ey)) by (cbn [SF2R]; lra).
    now apply exact_rounds_to.
  - cbn [SFadd]. replace (SF2R (S754_finite sx mx ex) + SF2R (S754_zero sy))%R
      with (SF2R (S754_finite sx mx ex)) by (cbn [SF2R]; lra).
    now apply exact_rounds_to.
  - cbn [SFadd].
    rewrite <- (aligned_mantissa_R sx mx ex (Z.min ex ey)) by lia.
    rewrite <- (aligned_mantissa_R sy my ey (Z.min ex ey)) by lia.
    rewrite <- Rmult_plus_distr_r, <- plus_IZR.
    apply binary_normalize_rounds.
Qed.

Lemma SFsub_rounds (x y : spec_float) :
  finite_or_zero x = true -> finite_or_zero y = true ->
  rounds_to (SF2R x - SF2R y) (SFsub prec emax x y).
Proof.
  destruct x as [sx|sx| |sx mx ex]; try discriminate;
    destruct y as [sy|sy| |sy my ey]; try discriminate; intros _ _.
  - replace (SF2R (S754_zero sx) - SF2R (S754_zero sy))%R with 0%R by (cbn; lra).
    destruct sx, sy; cbn [SFsub]; exact (exact_rounds_to (S754_zero _) eq_refl).
  - cbn [SFsub]. replace (SF2R (S754_zero sx) - SF2R (S754_finite sy my ey))%R
      with (SF2R (S754_finite (negb sy) my ey)) by (destruct sy; cbn [SF2R negb]; lra).
    now apply exact_rounds_to.
  - cbn [SFsub]. replace (SF2R (S754_finite sx mx ex) - SF2R (S754_zero sy))%R
      with (SF2R (S754_finite sx mx ex)) by (cbn [SF2R]; lra).
    now apply exact_rounds_to.
  - cbn [SFsub].
    rewrite <- (aligned_mantissa_R sx mx ex (Z.min ex ey)) by lia.
    rewrite <- (aligned_mantissa_R sy my ey (Z.min ex ey)) by lia.
    rewrite <- Rmult_minus_distr_r, <- minus_IZR.
    apply binary_normalize_rounds.
Qed.

(** ** Canonical floats and comparisons *)

(** Every float has a canonical mantissa; [Prim2SF_valid] gives it for the
    primitive floats. *)
Lemma valid_finite_canonical (s : bool) (m : positive) (e : Z) :
  valid_binary (S754_finite s m e) = true ->
  fexp64 (Z.pos (digits2_pos m) + e) = e /\ e <= 971.
Proof.
  cbn [SpecFloat.valid_binary]. unfold bounded, canonical_mantissa.
  intros Hb. apply andb_true_iff in Hb as [Hc He].
  apply Z.eqb_eq in Hc. apply Z.leb_le in He. change (emax - prec) with 971 in He.
  split; [exact Hc|assumption].
Qed.

Lemma valid_finite_bounds (s : bool) (m : positive) (e : Z) :
  valid_binary (S754_finite s m e) = true ->
  -1074 <= e <= 971 /\ Z.pos m < 2 ^ 53 /\ (-1074 < e -> 2 ^ 52 <= Z.pos m).
Proof.
  intros Hv. destruct (valid_finite_canonical s m e Hv) as [Hc He].
  pose proof (digits2_pos_bounds m) as [Hlo Hhi].
  set (d := Z.pos (digits2_pos m)) in *. unfold fexp64 in Hc.
  split; [lia|]. split.
  - assert (d <= 53) by lia.
    assert (2 ^ d <= 2 ^ 53) by (apply Z.pow_le_mono_r; lia). lia.
  - intros Hgt. assert (d = 53) as Hd by lia. rewrite Hd in Hlo. exact Hlo.
Qed.

(** Among canonical positive floats the exponent decides the order. *)
Lemma canonical_exponent_lt (s1 s2 : bool) (m1 m2 : positive) (e1 e2 : Z) :
  valid_binary (S754_finite s1 m1 e1) = true ->
  valid_binary (S754_finite s2 m2 e2) = true ->
  e1 < e2 ->
  (IZR (Z.pos m1) * pow2 e1 < IZR (Z.pos m2) * pow2 e2)%R.
Proof.
  intros H1 H2 Hlt.
  destruct (valid_finite_bounds _ _ _ H1) as (Hr1 & Hhi1 & _).
  destruct (valid_finite_bounds _ _ _ H2) as (Hr2 & _ & Hlo2).
  assert (2 ^ 52 <= Z.pos m2) as Hm2 by (apply Hlo2; lia).
  apply IZR_lt in Hhi1. apply IZR_le in Hm2. rewrite IZR_pow2 in Hhi1, Hm2 by lia.
  assert (pow2 (e1 + 1) <= pow2 e2)%R as Hp by (apply pow2_le; lia).
  rewrite pow2_add in Hp.
  assert (pow2 53 = pow2 52 * pow2 1)%R as H53 by (rewrite <- pow2_add; reflexivity).
  pose proof (pow2_pos e1). pose proof (pow2_pos e2). pose proof (pow2_pos 52).
  pose proof (pow2_pos 1).
  assert (IZR (Z.pos m1) * pow2 e1 < pow2 52 * (pow2 e1 * pow2 1))%R by nra.
  assert (pow2 52 * (pow2 e1 * pow2 1) <= pow2 52 * pow2 e2)%R by nra.
  nra.
Qed.

Lemma mantissa_compare_R (m1 m2 : positive) (e : Z) :
  match Pos.compare_cont Eq m1 m2 with
  | Lt => (IZR (Z.pos m1) * pow2 e < IZR (Z.pos m2) * pow2 e)%R
  | Eq => (IZR (Z.pos m1) * pow2 e = IZR (Z.pos m2) * pow2 e)%R
  | Gt => (IZR (Z.pos m2) * pow2 e < IZR (Z.pos m1) * pow2 e)%R
  end.
Proof.
  change (Pos.compare_cont Eq m1 m2) with (Pos.compare m1 m2).
  pose proof (pow2_pos e).
  destruct (Pos.compare_spec m1 m2) as [->|Hlt|Hlt].
  - reflexivity.
  - assert (IZR (Z.pos m1) < IZR (Z.pos m2))%R by (apply IZR_lt; lia). nra.
  - assert (IZR (Z.pos m2) < IZR (Z.pos m1))%R by (apply IZR_lt; lia). nra.
Qed.

Lemma positive_value (m : positive) (e : Z) : (0 < IZR (Z.pos m) * pow2 e)%R.
Proof.
  pose proof (pow2_pos e). assert (0 < IZR (Z.pos m))%R by (apply IZR_lt; lia). nra.
Qed.

(** The comparison of the floats is the comparison of their values. *)
Lemma SFcompare_R (x y : spec_float) :
  valid_binary x = true -> valid_binary y = true ->
  finite_or_zero x = true -> finite_or_zero y = true ->
  match SFcompare x y with
  | Some Lt => (SF2R x < SF2R y)%R
  | Some Eq => SF2R x = SF2R y
  | Some Gt => (SF2R y < SF2R x)%R
  | None => False
  end.
Proof.
  destruct x as [sx|sx| |sx mx ex]; try discriminate;
    destruct y as [sy|sy| |sy my ey]; try discriminate; intros Hvx Hvy _ _;
    cbn [SFcompare SF2R].
  - reflexivity.
  - pose proof (positive_value my ey). destruct sy; lra.
  - pose proof (positive_value mx ex). destruct sx; lra.
  - pose proof (positive_value mx ex). pose proof (positive_value my ey).
    destruct sx, sy; try lra.
    + destruct (Z.compare_spec ex ey) as [->|Hlt|Hlt].
      * pose proof (mantissa_compare_R mx my ey) as Hc.
        destruct (Pos.compare_cont Eq mx my); cbn [CompOpp]; lra.
      * pose proof (canonical_exponent_lt _ _ _ _ _ _ Hvx Hvy Hlt). lra.
      * pose proof (canonical_exponent_lt _ _ _ _ _ _ Hvy Hvx Hlt). lra.
    + destruct (Z.compare_spec ex ey) as [->|Hlt|Hlt].
      * pose proof (mantissa_compare_R mx my ey) as Hc.
        destruct (Pos.compare_cont Eq mx my); lra.
      * pose proof (canonical_exponent_lt _ _ _ _ _ _ Hvx Hvy Hlt). lra.
      * pose proof (canonical_exponent_lt _ _ _ _ _ _ Hvy Hvx Hlt). lra.
Qed.

Lemma float_ltb_R (x y : float) :
  finite_or_zero (Prim2SF x) = true -> finite_or_zero (Prim2SF y) = true ->
  if (x <? y)%float then (F2R x < F2R y)%R else (F2R y <= F2R x)%R.
Proof.
  intros Hx Hy. rewrite ltb_spec. unfold SFltb, F2R.
  pose proof (SFcompare_R _ _ (Prim2SF_valid x) (Prim2SF_valid y) Hx Hy) as Hc.
  destruct (SFcompare (Prim2SF x) (Prim2SF y)) as [[| |]|]; lra.
Qed.

(** Multiplication of finite floats rounds the exact product. *)
Lemma SFmul_rounds (x y : spec_float) :
  valid_binary x = true -> valid_binary y = true ->
  finite_or_zero x = true -> finite_or_zero y = true ->
  rounds_to (SF2R x * SF2R y) (SFmul prec emax x y).
Proof.
  destruct x as [sx|sx| |sx mx ex]; try discriminate;
    destruct y as [sy|sy| |sy my ey]; try discriminate; intros Hvx Hvy _ _.
  - replace (SF2R (S754_zero sx) * SF2R (S754_zero sy))%R with (SF2R (S754_zero (xorb sx sy)))
      by (cbn [SF2R]; lra).
    now apply exact_rounds_to.
  - replace (SF2R (S754_zero sx) * SF2R (S754_finite sy my ey))%R
      with (SF2R (S754_zero (xorb sx sy))) by (cbn [SF2R]; lra).
    now apply exact_rounds_to.
  - replace (SF2R (S754_finite sx mx ex) * SF2R (S754_zero sy))%R
      with (SF2R (S754_zero (xorb sx sy))) by (cbn [SF2R]; lra).
    now apply exact_rounds_to.
  - cbn [SFmul].
    replace (SF2R (S754_finite sx mx ex) * SF2R (S754_finite sy my ey))%R
      with (signed (xorb sx sy) (IZR (Z.pos (mx * my)) * pow2 (ex + ey))).
    + apply binary_round_aux_rounds.
      destruct (valid_finite_canonical _ _ _ Hvx) as [Hcx _].
      destruct (valid_finite_canonical _ _ _ Hvy) as [Hcy _].
      pose proof (digits2_pos_bounds mx) as [Hlx Hhx].
      pose proof (digits2_pos_bounds my) as [Hly Hhy].
      pose proof (digits2_pos_bounds (mx * my)) as [_ Hhp].
      set (dx := Z.pos (digits2_pos mx)) in *. set (dy := Z.pos (digits2_pos my)) in *.
      set (dp := Z.pos (digits2_pos (mx * my))) in *.
      assert (0 < dx) by (unfold dx; lia). assert (0 < dy) by (unfold dy; lia).
      assert (0 < dp) by (unfold dp; lia).
      assert (dx + dy - 2 < dp) as Hdp.
      { apply (Z.pow_lt_mono_r_iff 2); [lia|lia|].
        replace (dx + dy - 2) with ((dx - 1) + (dy - 1)) by lia.
        rewrite Z.pow_add_r by lia. rewrite Pos2Z.inj_mul in Hhp.
        assert (2 ^ (dx - 1) * 2 ^ (dy - 1) <= Z.pos mx * Z.pos my)
          by (apply Z.mul_le_mono_nonneg; try apply Z.pow_nonneg; lia).
        lia. }
      unfold fexp64 in *. lia.
    + rewrite Pos2Z.inj_mul, mult_IZR, pow2_add. cbn [SF2R].
      destruct sx, sy; cbn [xorb signed]; lra.
Qed.

(** ** The clamps of the CDF on real values *)

Lemma pow2_inv (p : positive) : (pow2 (Z.neg p) * IZR (2 ^ Z.pos p) = 1)%R.
Proof.
  rewrite IZR_pow2, <- pow2_add by lia.
  replace (Z.neg p + Z.pos p) with 0 by lia. reflexivity.
Qed.

Lemma F2R_zero : F2R 0 = 0%R.
Proof. reflexivity. Qed.

Lemma F2R_one : F2R 1 = 1%R.
Proof.
  unfold F2R. change (Prim2SF 1) with (S754_finite false 4503599627370496 (-52)).
  cbn [SF2R]. pose proof (pow2_inv 52) as H.
  change (2 ^ 52) with 4503599627370496 in H. lra.
Qed.

Lemma F2R_half : F2R 0.5 = (/ 2)%R.
Proof.
  unfold F2R. change (Prim2SF 0.5) with (S754_finite false 4503599627370496 (-53)).
  cbn [SF2R]. pose proof (pow2_inv 53) as H.
  change (2 ^ 53) with 9007199254740992 in H. lra.
Qed.

Lemma F2R_two : F2R 2 = 2%R.
Proof.
  unfold F2R. change (Prim2SF 2) with (S754_finite false 4503599627370496 (-51)).
  cbn [SF2R]. pose proof (pow2_inv 51) as H.
  change (2 ^ 51) with 2251799813685248 in H. lra.
Qed.

(** [min] and [max] on finite floats are [Rmin] and [Rmax] on their values. *)
Lemma py_min_R (a b : float) :
  finite_or_zero (Prim2SF a) = true -> finite_or_zero (Prim2SF b) = true ->
  finite_or_zero (Prim2SF (py_min a b)) = true /\
  F2R (py_min a b) = Rmin (F2R a) (F2R b).
Proof.
  intros Ha Hb. unfold py_min. pose proof (float_ltb_R b a Hb Ha) as Hc.
  destruct (b <? a)%float.
  - split; [assumption|]. rewrite Rmin_right; lra.
  - split; [assumption|]. rewrite Rmin_left; lra.
Qed.

Lemma py_max_R (a b : float) :
  finite_or_zero (Prim2SF a) = true -> finite_or_zero (Prim2SF b) = true ->
  finite_or_zero (Prim2SF (py_max a b)) = true /\
  F2R (py_max a b) = Rmax (F2R a) (F2R b).
Proof.
  intros Ha Hb. unfold py_max. pose proof (float_ltb_R a b Ha Hb) as Hc.
  destruct (a <? b)%float.
  - split; [assumption|]. rewrite Rmax_right; lra.
  - split; [assumption|]. rewrite Rmax_left; lra.
Qed.

Lemma clampF_R (a : float) :
  finite_or_zero (Prim2SF a) = true ->
  finite_or_zero (Prim2SF (clampF a)) = true /\ F2R (clampF a) = clampR (F2R a).
Proof.
  intros Ha. unfold clampF, clampR.
  destruct (py_min_R 1 a eq_refl Ha) as [Hf Hv].
  destruct (py_max_R 0 (py_min 1 a) eq_refl Hf) as [Hf' Hv'].
  split; [assumption|]. now rewrite Hv', Hv, F2R_zero, F2R_one.
Qed.

(** The clamp sends [+inf] to 1.0 and [-inf] to 0.0. *)
Lemma clampF_infinity (a : float) (s : bool) :
  Prim2SF a = S754_infinity s -> clampF a = if s then 0%float else 1%float.
Proof.
  intros Ha. unfold clampF, py_min. rewrite ltb_spec, Ha.
  destruct s.
  - change (SFltb (S754_infinity true) (Prim2SF 1)) with true. cbv iota.
    unfold py_max. rewrite ltb_spec, Ha. reflexivity.
  - reflexivity.
Qed.

Lemma clampR_range (v : R) : (0 <= clampR v <= 1)%R.
Proof.
  unfold clampR, Rmax, Rmin.
  destruct (Rle_dec 1 v); destruct (Rle_dec 0 _); lra.
Qed.

Lemma clampR_lipschitz (u v : R) : (Rabs (clampR u - clampR v) <= Rabs (u - v))%R.
Proof.
  unfold clampR, Rmax, Rmin.
  destruct (Rle_dec 1 u); destruct (Rle_dec 1 v);
    repeat match goal with |- context [Rle_dec ?a ?b] => destruct (Rle_dec a b) end;
    unfold Rabs; repeat match goal with |- context [Rcase_abs ?a] => destruct (Rcase_abs a) end;
    lra.
Qed.

Lemma clampR_mirror (j : R) : clampR (/ 2 - j) = (1 - clampR (/ 2 + j))%R.
Proof.
  unfold clampR, Rmax, Rmin.
  destruct (Rle_dec 1 (/ 2 - j)); destruct (Rle_dec 1 (/ 2 + j));
    repeat match goal with |- context [Rle_dec ?a ?b] => destruct (Rle_dec a b) end; lra.
Qed.

Lemma pow2_small (p : positive) (n : Z) :
  0 < n -> n <= 2 ^ Z.pos p -> (pow2 (Z.neg p) <= / IZR n)%R.
Proof.
  intros Hn Hle. pose proof (pow2_inv p) as Hinv.
  assert (0 < IZR n)%R as Hn' by (apply IZR_lt; lia).
  apply IZR_le in Hle. pose proof (pow2_pos (Z.neg p)).
  apply (Rmult_le_reg_r (IZR n)); [assumption|].
  rewrite Rinv_l by lra. nra.
Qed.

(** A float that rounds [v], clamped, is within [2 ^ -50] of the clamp of
    [v]. *)
Lemma clampF_rounds (v : R) (a : float) :
  rounds_to v (Prim2SF a) ->
  finite_or_zero (Prim2SF (clampF a)) = true /\
  (Rabs (F2R (clampF a) - clampR v) <= pow2 (-50))%R.
Proof.
  intros Hr. pose proof (pow2_pos (-50)) as H50.
  assert (pow2 (-52) * 4 = pow2 (-50))%R as H52.
  { replace 4%R with (pow2 2) by (unfold pow2; simpl; lra).
    rewrite <- pow2_add. reflexivity. }
  assert (pow2 (-1074) <= pow2 (-52))%R as Htiny by (apply pow2_le; lia).
  pose proof (pow2_pos (-1074)) as H1074.
  assert (pow2 1023 >= 2)%R as Hbig.
  { apply Rle_ge. replace 2%R with (pow2 1) by (unfold pow2; simpl; lra).
    apply pow2_le. lia. }
  assert (pow2 (-52) <= / 4)%R as Hq by (apply (pow2_small 52 4); lia).
  destruct (Prim2SF a) as [s|s| |s m e] eqn:Ha; cbn [rounds_to] in Hr;
    [| |contradiction|].
  - assert (finite_or_zero (Prim2SF a) = true) as Hf by now rewrite Ha.
    destruct (clampF_R a Hf) as [Hf' Hv]. split; [assumption|]. rewrite Hv.
    unfold F2R. rewrite Ha. cbn [SF2R] in *.
    eapply Rle_trans; [apply clampR_lipschitz|].
    rewrite Rabs_R0 in Hr. lra.
  - rewrite (clampF_infinity a s Ha). destruct s.
    + split; [reflexivity|]. rewrite F2R_zero.
      unfold clampR. rewrite Rmin_right, Rmax_left by lra.
      rewrite Rminus_diag, Rabs_R0. lra.
    + split; [reflexivity|]. rewrite F2R_one.
      unfold clampR. rewrite Rmin_left, Rmax_right by lra.
      rewrite Rminus_diag, Rabs_R0. lra.
  - assert (finite_or_zero (Prim2SF a) = true) as Hf by now rewrite Ha.
    destruct (clampF_R a Hf) as [Hf' Hv]. split; [assumption|]. rewrite Hv.
    unfold F2R. rewrite Ha. set (r := SF2R (S754_finite s m e)) in *.
    destruct (Rle_dec (Rabs r) 2) as [Hsmall|Hlarge].
    + eapply Rle_trans; [apply clampR_lipschitz|]. nra.
    + assert (Rabs (r - v) <= Rabs r / 2)%R as Hhalf by nra.
      unfold clampR, Rmax, Rmin.
      destruct (Rle_dec 1 r); destruct (Rle_dec 1 v);
      repeat match goal with |- context [Rle_dec ?a ?b] => destruct (Rle_dec a b) end;
        revert Hlarge Hhalf; unfold Rabs;
        repeat match goal with |- context [Rcase_abs ?a] => destruct (Rcase_abs a) end;
        intros; lra.
Qed.

(** ** Sign symmetry of the float operations *)

Lemma float_abs_opp (x : float) : PrimFloat.abs (- x) = PrimFloat.abs x.
Proof.
  apply Prim2SF_inj. rewrite !abs_spec, opp_spec.
  now destruct (Prim2SF x).
Qed.

Lemma is_nan_spec (x : float) :
  is_nan x = match Prim2SF x with S754_nan => true | _ => false end.
Proof.
  unfold is_nan. rewrite FloatAxioms.eqb_spec. unfold SFeqb.
  destruct (Prim2SF x) as [s|s| |s m e]; try reflexivity.
  - now destruct s.
  - cbn [SFcompare]. rewrite Z.compare_refl.
    change (Pos.compare_cont Eq m m) with (Pos.compare m m).
    rewrite Pos.compare_refl. now destruct s.
Qed.

Lemma float_eqb_zero_opp (x : float) : (- x =? 0)%float = (x =? 0)%float.
Proof.
  rewrite !FloatAxioms.eqb_spec, opp_spec.
  destruct (Prim2SF x) as [s|s| |s m e]; try reflexivity; now destruct s.
Qed.

Lemma float_pos_opp (x : float) :
  is_nan x = false -> (x =? 0)%float = false ->
  (0 <? - x)%float = negb (0 <? x)%float.
Proof.
  rewrite is_nan_spec, FloatAxioms.eqb_spec, !ltb_spec, opp_spec.
  destruct (Prim2SF x) as [s|s| |s m e]; try discriminate; intros _ Hz;
    try discriminate; now destruct s.
Qed.

(** Rounding commutes with the sign. *)
Lemma binary_round_aux_opp (s : bool) (m e : Z) (l : location) :
  binary_round_aux prec emax (negb s) m e l
  = SFopp (binary_round_aux prec emax s m e l).
Proof.
  unfold binary_round_aux.
  destruct (shr_fexp prec emax m e l) as [mrs' e'].
  destruct (shr_fexp prec emax _ e' loc_Exact) as [mrs'' e''].
  destruct (shr_m mrs''); [reflexivity| |reflexivity].
  now destruct (e'' <=? emax - prec).
Qed.

Lemma float_of_int_one : float_of_int 1 = 1%float.
Proof. reflexivity. Qed.

Lemma float_of_int_minus_one : float_of_int (-1) = (-1)%float.
Proof. reflexivity. Qed.

(** [-1.0 * x] is the opposite of [1.0 * x]. *)
Lemma float_mul_minus_one (x : float) : (-1 * x)%float = (- (1 * x))%float.
Proof.
  apply Prim2SF_inj. rewrite opp_spec, !mul_spec.
  change (Prim2SF (-1)) with (S754_finite true 4503599627370496 (-52)).
  change (Prim2SF 1) with (S754_finite false 4503599627370496 (-52)).
  destruct (Prim2SF x) as [s|s| |s m e]; try reflexivity.
  unfold SF64mul, SFmul. change (xorb true s) with (negb (xorb false s)).
  apply binary_round_aux_opp.
Qed.

Lemma float_mul_one_not_nan (x : float) : is_nan x = false -> is_nan (1 * x) = false.
Proof.
  rewrite !is_nan_spec, mul_spec.
  destruct (Prim2SF x) as [s|s| |s m e] eqn:Hx; try discriminate; intros _;
    try reflexivity.
  pose proof (SFmul_rounds (Prim2SF 1) (Prim2SF x) (Prim2SF_valid 1) (Prim2SF_valid x)
                eq_refl) as Hr.
  rewrite Hx in Hr. specialize (Hr eq_refl).
  change (SF64mul (Prim2SF 1) (S754_finite s m e))
    with (SFmul prec emax (Prim2SF 1) (S754_finite s m e)).
  now destruct (SFmul prec emax (Prim2SF 1) (S754_finite s m e)).
Qed.

Lemma SF2R_opp (x : spec_float) : SF2R (SFopp x) = (- SF2R x)%R.
Proof. destruct x as [s|s| |s m e]; cbn [SFopp SF2R]; try lra. destruct s; cbn; lra. Qed.

(** ** The CDF at [x] and at [-x] *)

(** A clamped value lies in [[0, 1]] unless the clamp was given NaN. *)
Lemma clampF_range (a : float) :
  is_nan a = false ->
  finite_or_zero (Prim2SF (clampF a)) = true /\ (0 <= F2R (clampF a) <= 1)%R.
Proof.
  rewrite is_nan_spec. intros Hnan.
  destruct (Prim2SF a) as [s|s| |s m e] eqn:Ha; try discriminate.
  - destruct (clampF_R a) as [Hf Hv]; [now rewrite Ha|].
    split; [assumption|]. rewrite Hv. apply clampR_range.
  - rewrite (clampF_infinity a s Ha).
    destruct s; rewrite ?F2R_zero, ?F2R_one; split; try reflexivity; lra.
  - destruct (clampF_R a) as [Hf Hv]; [now rewrite Ha|].
    split; [assumption|]. rewrite Hv. apply clampR_range.
Qed.

Lemma rounds_to_not_nan (v : R) (a : float) :
  rounds_to v (Prim2SF a) -> is_nan a = false.
Proof. rewrite is_nan_spec. now destruct (Prim2SF a). Qed.

(** The clamped sums [0.5 + J] and [0.5 - J] for a finite [J]. *)
Lemma clamped_half_mirror_finite (J : float) :
  finite_or_zero (Prim2SF J) = true ->
  is_nan (0.5 + J) = false /\ is_nan (0.5 + - J) = false /\
  (Rabs (F2R (clampF (0.5 + - J)) - (1 - F2R (clampF (0.5 + J)))) <= pow2 (-49))%R.
Proof.
  intros HfJ.
  assert (pow2 (-50) + pow2 (-50) = pow2 (-49))%R as Hsum.
  { replace (pow2 (-49)) with (pow2 (-50) * pow2 1)%R by (rewrite <- pow2_add; reflexivity).
    replace (pow2 1) with 2%R by (unfold pow2; simpl; lra). lra. }
  assert (rounds_to (/ 2 + F2R J) (Prim2SF (0.5 + J))) as Hra.
  { rewrite add_spec, <- F2R_half. apply SFadd_rounds; [reflexivity|assumption]. }
  assert (rounds_to (/ 2 - F2R J) (Prim2SF (0.5 + - J))) as Hrb.
  { replace (/ 2 - F2R J)%R with (SF2R (Prim2SF 0.5) + SF2R (Prim2SF (- J)))%R
      by (rewrite opp_spec, SF2R_opp; fold (F2R 0.5); rewrite F2R_half; unfold F2R; lra).
    rewrite add_spec. apply SFadd_rounds; [reflexivity|].
    rewrite opp_spec. now destruct (Prim2SF J). }
  split; [exact (rounds_to_not_nan _ _ Hra)|].
  split; [exact (rounds_to_not_nan _ _ Hrb)|].
  destruct (clampF_rounds _ _ Hra) as [_ Hea].
  destruct (clampF_rounds _ _ Hrb) as [_ Heb].
  rewrite clampR_mirror in Heb.
  replace (F2R (clampF (0.5 + - J)) - (1 - F2R (clampF (0.5 + J))))%R
    with ((F2R (clampF (0.5 + - J)) - (1 - clampR (/ 2 + F2R J)))
          + (F2R (clampF (0.5 + J)) - clampR (/ 2 + F2R J)))%R by lra.
  eapply Rle_trans; [apply Rabs_triang|]. lra.
Qed.

(** The clamped sums [0.5 + J] and [0.5 - J] add up to 1 within
    [2 ^ -49], and both lie in [[0, 1]]. *)
Lemma clamped_half_mirror (J : float) :
  is_nan J = false ->
  let a := clampF (0.5 + J) in
  let b := clampF (0.5 + - J) in
  finite_or_zero (Prim2SF a) = true /\ finite_or_zero (Prim2SF b) = true /\
  (0 <= F2R a <= 1)%R /\ (0 <= F2R b <= 1)%R /\
  (Rabs (F2R b - (1 - F2R a)) <= pow2 (-49))%R.
Proof.
  intros Hnan a b. pose proof (pow2_pos (-49)) as H49.
  assert (is_nan (0.5 + J) = false /\ is_nan (0.5 + - J) = false /\
          (Rabs (F2R b - (1 - F2R a)) <= pow2 (-49))%R) as (Hna & Hnb & Hmirror).
  { rewrite is_nan_spec in Hnan.
    destruct (Prim2SF J) as [s|s| |s m e] eqn:HJ; try discriminate.
    - apply clamped_half_mirror_finite. now rewrite HJ.
    - assert (Prim2SF (0.5 + J) = S754_infinity s) as Ha
        by (rewrite add_spec, HJ; reflexivity).
      assert (Prim2SF (0.5 + - J) = S754_infinity (negb s)) as Hb
        by (rewrite add_spec, opp_spec, HJ; reflexivity).
      rewrite !is_nan_spec, Ha, Hb. split; [reflexivity|]. split; [reflexivity|].
      unfold a, b. rewrite (clampF_infinity _ _ Ha), (clampF_infinity _ _ Hb).
      destruct s; cbn [negb]; rewrite ?F2R_zero, ?F2R_one.
      + replace (1 - (1 - 0))%R with 0%R by lra. rewrite Rabs_R0. lra.
      + replace (0 - (1 - 1))%R with 0%R by lra. rewrite Rabs_R0. lra.
    - apply clamped_half_mirror_finite. now rewrite HJ. }
  destruct (clampF_range _ Hna) as [Hfa Hra].
  destruct (clampF_range _ Hnb) as [Hfb Hrb].
  subst a b. repeat split; try assumption; lra.
Qed.

Section CdfSymmetry.
Context `{PyMath}.

(** What [_student_t_cdf] returns away from zero, in terms of the integral
    over [[0, abs x]]. *)
Lemma student_t_cdf_nonzero (x df : float) :
  (x =? 0)%float = false ->
  _student_t_cdf x df =
    (integral <- simpson_integral (PrimFloat.abs x) df ;;
     ok (clampF (0.5 + float_of_int (if (0 <? x)%float then 1 else -1) * integral))).
Proof. intros Hx. unfold _student_t_cdf. now rewrite Hx. Qed.

(** C6. For every [x] that is a number and every [df], when the integral
    of the density over [[0, abs x]] is a number, the CDF at [-x] and one
    minus the CDF at [x] differ by at most 1e-6 (in fact by at most
    [2 ^ -49]: both are computed from the same integral, and only the
    roundings of [0.5 + I] and [0.5 - I] differ); when the integration
    raises, it raises the same exception for [x] and [-x]. At zero the CDF
    is exactly 0.5. *)
Theorem student_t_cdf_symmetry (x df : float) :
  is_nan x = false ->
  (forall I, simpson_integral (PrimFloat.abs x) df = ok I -> is_nan I = false) ->
  mirrored_within (/ 1000000) (_student_t_cdf x df) (_student_t_cdf (- x) df) /\
  ((x =? 0)%float = true ->
   _student_t_cdf x df = ok 0.5%float /\ F2R 0.5 = (/ 2)%R).
Proof.
  intros Hnan Hint. split.
  2:{ intros Hx. split; [now apply student_t_cdf_zero|apply F2R_half]. }
  assert (pow2 (-49) <= / 1000000)%R as Htol by (apply (pow2_small 49 1000000); lia).
  destruct (x =? 0)%float eqn:Hx.
  - rewrite !student_t_cdf_zero by (rewrite ?float_eqb_zero_opp; assumption).
    cbn [mirrored_within ok]. rewrite F2R_half.
    split; [reflexivity|]. split; [reflexivity|].
    replace (/ 2 - (1 - / 2))%R with 0%R by lra. rewrite Rabs_R0. lra.
  - rewrite !student_t_cdf_nonzero by (rewrite ?float_eqb_zero_opp; assumption).
    rewrite float_abs_opp, (float_pos_opp x Hnan Hx).
    destruct (simpson_integral (PrimFloat.abs x) df) as [e|I] eqn:HI; [reflexivity|].
    cbn [rbind ok mirrored_within].
    specialize (Hint I eq_refl).
    pose proof (clamped_half_mirror (1 * I) (float_mul_one_not_nan I Hint))
      as (Hfa & Hfb & _ & _ & Hmirror).
    cbv zeta in Hfa, Hfb, Hmirror.
    destruct (0 <? x)%float; cbn [negb];
      rewrite float_of_int_one, float_of_int_minus_one, float_mul_minus_one;
      (split; [assumption|]); (split; [assumption|]).
    + lra.
    + replace (F2R (clampF (0.5 + 1 * I)) - (1 - F2R (clampF (0.5 + - (1 * I)))))%R
        with (F2R (clampF (0.5 + - (1 * I))) - (1 - F2R (clampF (0.5 + 1 * I))))%R by lra.
      lra.
Qed.

End CdfSymmetry.

(** The symmetry of the CDF at [x = 1e-16] and [df = 10]. *)
Lemma student_t_cdf_symmetry_witness :
  mirrored_within (/ 1000000)
    (@_student_t_cdf ref_math 0x1.cd2b297d889bcp-54 10)
    (@_student_t_cdf ref_math (- 0x1.cd2b297d889bcp-54) 10) /\
  ((0x1.cd2b297d889bcp-54 =? 0)%float = true ->
   @_student_t_cdf ref_math 0x1.cd2b297d889bcp-54 10 = ok 0.5%float /\ F2R 0.5 = (/ 2)%R).
Proof.
  apply (@student_t_cdf_symmetry ref_math).
  - vm_compute. reflexivity.
  - intros I HI. vm_compute in HI. injection HI as <-. vm_compute. reflexivity.
Defined.

(** ** The two-tailed p-value on real values *)

Ltac split_min_max :=
  unfold Rmin, Rmax, Rabs in *;
  repeat match goal with
         | |- context [Rle_dec ?a ?b] => destruct (Rle_dec a b)
         | |- context [Rcase_abs ?a] => destruct (Rcase_abs a)
         | H : context [Rle_dec ?a ?b] |- _ => destruct (Rle_dec a b)
         | H : context [Rcase_abs ?a] |- _ => destruct (Rcase_abs a)
         end.

Lemma Rmin_lipschitz (a b b' : R) : (Rabs (Rmin a b - Rmin a b') <= Rabs (b - b'))%R.
Proof. split_min_max; lra. Qed.

Lemma Rmin_lipschitz_l (a a' b : R) : (Rabs (Rmin a b - Rmin a' b) <= Rabs (a - a'))%R.
Proof. split_min_max; lra. Qed.

Lemma Rmax_lipschitz_l (a a' b : R) : (Rabs (Rmax a b - Rmax a' b) <= Rabs (a - a'))%R.
Proof. split_min_max; lra. Qed.

Lemma tailsR_mirror (c : R) : tailsR (1 - c) = tailsR c.
Proof.
  unfold tailsR. replace (1 - (1 - c))%R with c by lra.
  now rewrite (Rmin_comm (1 - c) c).
Qed.

Lemma tailsR_lipschitz (c c' : R) :
  (Rabs (tailsR c - tailsR c') <= 2 * Rabs (c - c'))%R.
Proof.
  unfold tailsR.
  eapply Rle_trans; [apply Rmax_lipschitz_l|].
  eapply Rle_trans; [apply Rmin_lipschitz_l|].
  replace (2 * Rmin c (1 - c) - 2 * Rmin c' (1 - c'))%R
    with (2 * (Rmin c (1 - c) - Rmin c' (1 - c')))%R by lra.
  rewrite Rabs_mult, (Rabs_pos_eq 2) by lra.
  apply Rmult_le_compat_l; [lra|].
  unfold Rmin. destruct (Rle_dec c (1 - c)); destruct (Rle_dec c' (1 - c'));
    unfold Rabs; repeat match goal with |- context [Rcase_abs ?a] => destruct (Rcase_abs a) end;
    lra.
Qed.

(** A float that rounds a real of magnitude at most 2 is finite and within
    [2 ^ -49] of it. *)
Lemma rounds_small (v : R) (r : spec_float) :
  rounds_to v r -> (Rabs v <= 2)%R ->
  finite_or_zero r = true /\ (Rabs (SF2R r - v) <= pow2 (-49))%R.
Proof.
  intros Hr Hv.
  assert (pow2 (-52) * 4 = pow2 (-50))%R as H52.
  { replace 4%R with (pow2 2) by (unfold pow2; simpl; lra).
    rewrite <- pow2_add. reflexivity. }
  assert (pow2 (-50) * 2 = pow2 (-49))%R as H50.
  { replace 2%R with (pow2 1) by (unfold pow2; simpl; lra).
    rewrite <- pow2_add. reflexivity. }
  assert (pow2 (-1074) <= pow2 (-50))%R as Htiny by (apply pow2_le; lia).
  pose proof (pow2_pos (-1074)) as H1074. pose proof (pow2_pos (-50)) as Hp50.
  assert (4 <= pow2 1023)%R as Hbig.
  { replace 4%R with (pow2 2) by (unfold pow2; simpl; lra). apply pow2_le. lia. }
  assert (pow2 (-52) <= / 4)%R as Hq by (apply (pow2_small 52 4); lia).
  assert (pow2 (-1074) <= 1)%R as Hone.
  { replace 1%R with (pow2 0) by reflexivity. apply pow2_le. lia. }
  destruct r as [s|s| |s m e]; cbn [rounds_to] in Hr.
  - split; [reflexivity|]. cbn [SF2R] in *. rewrite Rabs_R0 in Hr. lra.
  - exfalso. destruct s; revert Hv; unfold Rabs; destruct (Rcase_abs v); lra.
  - contradiction.
  - split; [reflexivity|]. set (r := SF2R (S754_finite s m e)) in *.
    assert (Rabs r <= 4)%R as Hr4.
    { revert Hr Hv. unfold Rabs.
      destruct (Rcase_abs (r - v)); destruct (Rcase_abs r); destruct (Rcase_abs v);
        intros; nra. }
    nra.
Qed.

(** On a CDF value in [[0, 1]] the float expression of the p-value is
    within [2 ^ -47] of the real one. *)
Lemma tailsF_R (c : float) :
  finite_or_zero (Prim2SF c) = true -> (0 <= F2R c <= 1)%R ->
  finite_or_zero (Prim2SF (tailsF c)) = true /\
  (Rabs (F2R (tailsF c) - tailsR (F2R c)) <= pow2 (-47))%R.
Proof.
  intros Hc Hrange. unfold tailsF.
  assert (pow2 (-49) * 4 = pow2 (-47))%R as H47.
  { replace 4%R with (pow2 2) by (unfold pow2; simpl; lra).
    rewrite <- pow2_add. reflexivity. }
  pose proof (pow2_pos (-49)) as H49.
  assert (pow2 (-49) <= / 4)%R as Hq by (apply (pow2_small 49 4); lia).
  (* d = 1 - c *)
  assert (rounds_to (1 - F2R c) (Prim2SF (1 - c))) as Hd.
  { rewrite sub_spec, <- F2R_one. apply SFsub_rounds; [reflexivity|assumption]. }
  apply rounds_small in Hd as [Hfd Hed];
    [|revert Hrange; unfold Rabs; destruct (Rcase_abs (1 - F2R c)); lra].
  fold (F2R (1 - c)) in Hed.
  (* m1 = min(c, d) *)
  destruct (py_min_R c (1 - c) Hc Hfd) as [Hf1 Hv1].
  assert (Rabs (F2R (py_min c (1 - c)) - Rmin (F2R c) (1 - F2R c)) <= pow2 (-49))%R as He1.
  { rewrite Hv1. eapply Rle_trans; [apply Rmin_lipschitz|assumption]. }
  assert (Rabs (F2R (py_min c (1 - c))) <= 1)%R as Hb1.
  { revert He1 Hrange. generalize (F2R (py_min c (1 - c))). intros m1.
    unfold Rmin. destruct (Rle_dec (F2R c) (1 - F2R c)); unfold Rabs;
      repeat match goal with |- context [Rcase_abs ?a] => destruct (Rcase_abs a) end;
      intros; lra. }
  (* m2 = 2 * m1 *)
  assert (rounds_to (2 * F2R (py_min c (1 - c))) (Prim2SF (2 * py_min c (1 - c)))) as H2.
  { rewrite mul_spec, <- F2R_two.
    apply SFmul_rounds; try apply Prim2SF_valid; [reflexivity|assumption]. }
  apply rounds_small in H2 as [Hf2 He2];
    [|rewrite Rabs_mult, (Rabs_pos_eq 2) by lra; lra].
  fold (F2R (2 * py_min c (1 - c))) in He2.
  (* m3 = min(m2, 1), p = max(m3, 0) *)
  destruct (py_min_R (2 * py_min c (1 - c)) 1 Hf2 eq_refl) as [Hf3 Hv3].
  destruct (py_max_R (py_min (2 * py_min c (1 - c)) 1) 0 Hf3 eq_refl) as [Hf4 Hv4].
  split; [assumption|].
  rewrite Hv4, Hv3, F2R_one, F2R_zero. unfold tailsR.
  eapply Rle_trans; [apply Rmax_lipschitz_l|].
  eapply Rle_trans; [apply Rmin_lipschitz_l|].
  replace (F2R (2 * py_min c (1 - c)) - 2 * Rmin (F2R c) (1 - F2R c))%R
    with ((F2R (2 * py_min c (1 - c)) - 2 * F2R (py_min c (1 - c)))
          + 2 * (F2R (py_min c (1 - c)) - Rmin (F2R c) (1 - F2R c)))%R by lra.
  eapply Rle_trans; [apply Rabs_triang|].
  rewrite Rabs_mult, (Rabs_pos_eq 2) by lra. lra.
Qed.

Section PValueSymmetry.
Context `{PyMath}.

(** C9 (amended). For every [t_stat] that is a number and every [df], when
    the integral of the density over [[0, abs t_stat]] is a number, the
    two-tailed p-values of [t_stat] and [-t_stat] agree within 1e-12: both
    come from the same integral, one through [c = 0.5 + I] and the other
    through [c = 0.5 - I], each rounded, and [2 * min(c, 1 - c)] is rounded
    again. When the integration raises, it raises the same exception for
    both signs; for [df <= 0] and for [t_stat == 0] the two are equal. *)
Theorem two_tailed_p_value_sign (t_stat df : float) :
  is_nan t_stat = false ->
  (forall I, simpson_integral (PrimFloat.abs t_stat) df = ok I -> is_nan I = false) ->
  agree_within (/ 1000000000000)
    (_two_tailed_p_value t_stat df) (_two_tailed_p_value (- t_stat) df) /\
  ((df <=? 0)%float = true \/ (t_stat =? 0)%float = true ->
   _two_tailed_p_value t_stat df = _two_tailed_p_value (- t_stat) df).
Proof.
  intros Hnan Hint.
  assert (pow2 (-45) <= / 1000000000000)%R as Htol
    by (apply (pow2_small 45 1000000000000); lia).
  assert (pow2 (-47) + 2 * pow2 (-49) + pow2 (-47) <= pow2 (-45))%R as Hsum.
  { assert (pow2 (-45) = pow2 (-47) * 4)%R as ->.
    { replace 4%R with (pow2 2) by (unfold pow2; simpl; lra).
      rewrite <- pow2_add. reflexivity. }
    assert (pow2 (-49) <= pow2 (-47))%R by (apply pow2_le; lia).
    pose proof (pow2_pos (-47)). lra. }
  unfold _two_tailed_p_value. split.
  2:{ intros [Hdf|Ht]; [now rewrite Hdf|].
      destruct (df <=? 0)%float; [reflexivity|].
      now rewrite !student_t_cdf_zero by (rewrite ?float_eqb_zero_opp; assumption). }
  destruct (df <=? 0)%float.
  { cbn [agree_within ok]. split; [reflexivity|]. split; [reflexivity|].
    rewrite Rminus_diag, Rabs_R0. pose proof (pow2_pos (-45)). lra. }
  destruct (t_stat =? 0)%float eqn:Ht.
  { rewrite !student_t_cdf_zero by (rewrite ?float_eqb_zero_opp; assumption).
    cbn [rbind agree_within ok]. split; [reflexivity|]. split; [reflexivity|].
    rewrite Rminus_diag, Rabs_R0. pose proof (pow2_pos (-45)). lra. }
  rewrite !student_t_cdf_nonzero by (rewrite ?float_eqb_zero_opp; assumption).
  rewrite float_abs_opp, (float_pos_opp t_stat Hnan Ht).
  destruct (simpson_integral (PrimFloat.abs t_stat) df) as [e|I] eqn:HI; [reflexivity|].
  cbn [rbind ok agree_within]. specialize (Hint I eq_refl).
  pose proof (clamped_half_mirror (1 * I) (float_mul_one_not_nan I Hint))
    as (Hfa & Hfb & Hra & Hrb & Hmirror).
  cbv zeta in Hfa, Hfb, Hra, Hrb, Hmirror.
  set (a := clampF (0.5 + 1 * I)) in *. set (b := clampF (0.5 + - (1 * I))) in *.
  fold (tailsF a) (tailsF b).
  pose proof (tailsF_R a Hfa Hra) as [Hpa Hta].
  pose proof (tailsF_R b Hfb Hrb) as [Hpb Htb].
  pose proof (tailsR_lipschitz (F2R b) (1 - F2R a)) as Hlip.
  rewrite tailsR_mirror in Hlip.
  assert (Rabs (F2R (tailsF a) - F2R (tailsF b)) <= pow2 (-45))%R as Hgoal.
  { replace (F2R (tailsF a) - F2R (tailsF b))%R
      with ((F2R (tailsF a) - tailsR (F2R a)) + (- (tailsR (F2R b) - tailsR (F2R a))
            + - (F2R (tailsF b) - tailsR (F2R b))))%R by lra.
    eapply Rle_trans; [apply Rabs_triang|].
    eapply Rle_trans; [apply Rplus_le_compat_l, Rabs_triang|].
    rewrite !Rabs_Ropp. lra. }
  destruct (0 <? t_stat)%float; cbn [negb];
    rewrite float_of_int_one, float_of_int_minus_one, float_mul_minus_one;
    fold a b; fold (tailsF a) (tailsF b);
    (split; [assumption|]); (split; [assumption|]).
  - lra.
  - rewrite Rabs_minus_sym. lra.
Qed.

End PValueSymmetry.

(** C9, counterexample. At [t_stat = 1e-16] and [df = 10] the integral is
    about 3.9e-17: [0.5 + I] rounds to 0.5, while [0.5 - I] rounds to the
    float below 0.5. The p-value of [t_stat] is 1.0 and the p-value of
    [-t_stat] is 0.9999999999999999: they are not equal. *)
Lemma two_tailed_p_value_sign_differs :
  (0 <? 10)%float = true /\
  @_two_tailed_p_value ref_math 0x1.cd2b297d889bcp-54 10 = ok 1%float /\
  @_two_tailed_p_value ref_math (- 0x1.cd2b297d889bcp-54) 10 = ok 0x1.fffffffffffffp-1%float /\
  (1 =? 0x1.fffffffffffffp-1)%float = false.
Proof. repeat split; vm_compute; reflexivity. Qed.

(** The amended statement at [t_stat = 1e-16] and [df = 10]. *)
Lemma two_tailed_p_value_sign_witness :
  agree_within (/ 1000000000000)
    (@_two_tailed_p_value ref_math 0x1.cd2b297d889bcp-54 10)
    (@_two_tailed_p_value ref_math (- 0x1.cd2b297d889bcp-54) 10) /\
  ((10 <=? 0)%float = true \/ (0x1.cd2b297d889bcp-54 =? 0)%float = true ->
   @_two_tailed_p_value ref_math 0x1.cd2b297d889bcp-54 10
   = @_two_tailed_p_value ref_math (- 0x1.cd2b297d889bcp-54) 10).
Proof.
  apply (@two_tailed_p_value_sign ref_math).
  - vm_compute. reflexivity.
  - intros I HI. vm_compute in HI. injection HI as <-. vm_compute. reflexivity.
Defined.

(** ** PNG writer *)

Lemma byte_of_Z_of_byte (b : byte) : byte_of_Z (Z_of_byte b) = b.
Proof. destruct b; reflexivity. Qed.

Lemma Z_of_byte_range (b : byte) : 0 <= Z_of_byte b < 256.
Proof. destruct b; vm_compute; split; congruence. Qed.

Lemma big_endian_4 (v : Z) : big_endian 4 v = spec_be32 v.
Proof.
  unfold spec_be32. cbn [big_endian app].
  rewrite !Z.div_div by lia. reflexivity.
Qed.

Lemma int_to_bytes_4 (v : Z) :
  0 <= v < 2 ^ 32 -> int_to_bytes v 4 = ok (spec_be32 v).
Proof.
  intros Hv. unfold int_to_bytes.
  replace ((0 <=? v) && (v <? 256 ^ Z.of_nat 4)) with true.
  - now rewrite big_endian_4.
  - symmetry. apply andb_true_iff. rewrite Z.leb_le, Z.ltb_lt.
    change (256 ^ Z.of_nat 4) with (2 ^ 32). lia.
Qed.

Lemma pack_field_4 (v : Z) :
  0 <= v < 2 ^ 32 -> pack_field 4 v = ok (spec_be32 v).
Proof.
  intros Hv. unfold pack_field.
  replace ((0 <=? v) && (v <? 256 ^ Z.of_nat 4)) with true.
  - now rewrite big_endian_4.
  - symmetry. apply andb_true_iff. rewrite Z.leb_le, Z.ltb_lt.
    change (256 ^ Z.of_nat 4) with (2 ^ 32). lia.
Qed.

Lemma struct_pack_ihdr (width height : Z) :
  0 <= width < 2 ^ 32 -> 0 <= height < 2 ^ 32 ->
  struct_pack_IIBBBBB width height 8 2 0 0 0 = ok (spec_ihdr_data width height).
Proof.
  intros Hw Hh. unfold struct_pack_IIBBBBB.
  rewrite !pack_field_4 by assumption. reflexivity.
Qed.

Lemma length_spec_ihdr_data (width height : Z) :
  length (spec_ihdr_data width height) = 13%nat.
Proof. reflexivity. Qed.

Lemma bytes_of_pixel (r g b : byte) :
  bytes_of_ints [Z_of_byte r; Z_of_byte g; Z_of_byte b] = ok [r; g; b].
Proof.
  cbn [bytes_of_ints].
  pose proof (Z_of_byte_range r). pose proof (Z_of_byte_range g).
  pose proof (Z_of_byte_range b).
  repeat match goal with
  | |- context [(0 <=? ?v) && (?v <? 256)] =>
      replace ((0 <=? v) && (v <? 256)) with true
        by (symmetry; apply andb_true_iff; rewrite Z.leb_le, Z.ltb_lt; lia)
  end.
  cbn. now rewrite !byte_of_Z_of_byte.
Qed.

Section WritePngFacts.
Context `{Zlib}.

Lemma chunk_spec (chunk_type data : list byte) :
  Z.of_nat (length data) < 2 ^ 32 ->
  chunk chunk_type data = ok (spec_chunk chunk_type data).
Proof.
  intros Hlen. unfold chunk, spec_chunk.
  rewrite int_to_bytes_4 by lia. cbn [rbind ok].
  pose proof (zlib_crc32_range (chunk_type ++ data)) as Hcrc.
  change 0xFFFFFFFF with (Z.ones 32).
  rewrite Z.land_ones, Z.mod_small by lia.
  rewrite int_to_bytes_4 by lia. reflexivity.
Qed.

Lemma raw_pixels_spec (row : list (byte * byte * byte)) (raw : list byte) :
  foldM (fun raw pixel => bs <- bytes_of_ints pixel ;; ok (raw ++ bs)) raw
        (map (fun '(r, g, b) => [Z_of_byte r; Z_of_byte g; Z_of_byte b]) row)
  = ok (raw ++ concat (map (fun '(r, g, b) => [r; g; b]) row)).
Proof.
  revert raw. induction row as [|[[r g] b] row IH]; intros raw; cbn [map foldM concat].
  - now rewrite app_nil_r.
  - rewrite bytes_of_pixel. cbn [rbind ok]. rewrite IH.
    now rewrite <- app_assoc.
Qed.

Lemma raw_rows_spec (g : pixel_grid) (raw : list byte) :
  foldM raw_row raw (canvas_of_grid g) = ok (raw ++ spec_scanlines g).
Proof.
  revert raw. induction g as [|row g IH]; intros raw; cbn [canvas_of_grid map foldM].
  - unfold spec_scanlines. cbn. now rewrite app_nil_r.
  - unfold raw_row at 1. rewrite raw_pixels_spec. cbn [rbind ok].
    fold (canvas_of_grid g). rewrite IH. unfold spec_scanlines. cbn [map concat].
    now rewrite <- !app_assoc.
Qed.

Lemma canvas_of_grid_width (g : pixel_grid) :
  match canvas_of_grid g with
  | row0 :: _ => Z.of_nat (length row0)
  | [] => 0
  end = grid_width g.
Proof. destruct g; cbn; [reflexivity|now rewrite length_map]. Qed.

(** What [_write_png] does on any grid whose dimensions fit the header:
    the outcome follows the compressor. *)
Lemma write_png_run (g : pixel_grid) :
  grid_width g < 2 ^ 32 ->
  Z.of_nat (length g) < 2 ^ 32 ->
  _write_png (canvas_of_grid g) =
    let header :=
      PNG_SIGNATURE ++ spec_chunk IHDR (spec_ihdr_data (grid_width g) (Z.of_nat (length g))) in
    match zlib_compress (spec_scanlines g) 9 with
    | inl e => (Some header, raise e)
    | inr z =>
        match chunk IDAT z with
        | inl e => (Some header, raise e)
        | inr idat => (Some (header ++ idat ++ spec_chunk IEND []), ok tt)
        end
    end.
Proof.
  intros Hw Hh. unfold _write_png.
  rewrite raw_rows_spec, canvas_of_grid_width. cbn [app].
  unfold canvas_of_grid at 1. rewrite length_map.
  assert (0 <= grid_width g) by (destruct g; cbn; lia).
  unfold write_png_body, io_bind, file_write, io_lift.
  rewrite struct_pack_ihdr by lia. cbn [rbind ok].
  rewrite chunk_spec by (rewrite length_spec_ihdr_data; lia). cbn [app].
  destruct (zlib_compress (spec_scanlines g) 9) as [e|z]; cbn [rbind ok]; [reflexivity|].
  destruct (chunk IDAT z) as [e|idat]; [reflexivity|].
  rewrite chunk_spec by (cbn; lia). cbn [app]. rewrite <- !app_assoc. reflexivity.
Qed.

(** C1. For a canvas of positive width and height (a grid of byte
    triples, its dimensions fitting the 4-byte header fields) on which the
    compressor returns [z], the file consists of the 8-byte signature and
    exactly the three chunks IHDR, IDAT, IEND in this order; each chunk is
    the big-endian length of its data, its type, its data and the
    big-endian CRC-32 of type and data; the IHDR data are width, height,
    8, 2, 0, 0, 0; the IDAT data are the compressed scanlines (filter byte
    0, then R, G, B per pixel, row by row); the IEND data are empty. *)
Theorem write_png_layout (g : pixel_grid) (width height : Z) (z : list byte) :
  0 < width < 2 ^ 32 ->
  0 < height < 2 ^ 32 ->
  Z.of_nat (length g) = height ->
  Forall (fun row => Z.of_nat (length row) = width) g ->
  zlib_compress (spec_scanlines g) 9 = ok z ->
  Z.of_nat (length z) < 2 ^ 32 ->
  _write_png (canvas_of_grid g) =
    (Some (PNG_SIGNATURE
             ++ spec_chunk IHDR (spec_ihdr_data width height)
             ++ spec_chunk IDAT z
             ++ spec_chunk IEND []),
     ok tt).
Proof.
  intros Hw Hh Hlen Hrows Hz Hzlen.
  assert (grid_width g = width) as Hgw.
  { destruct g as [|row0 g]; [cbn in Hlen; lia|].
    now apply Forall_cons in Hrows as [? _]. }
  rewrite write_png_run by lia. rewrite Hz, Hgw, Hlen. cbn [ok].
  rewrite chunk_spec by assumption. cbn [ok]. now rewrite <- !app_assoc.
Qed.

(** C2 (amended). The writer has no error of its own for an empty canvas:
    with height 0 it takes the width to be 0 and, when the compressor
    accepts the empty buffer, returns normally after writing a complete
    stream whose IHDR declares 0 by 0. When the compressor fails on a
    canvas, its exception reaches the caller, and the file then holds the
    signature and the IHDR chunk that were written before the failure. *)
Theorem write_png_degenerate_cases :
  (forall z, zlib_compress [] 9 = ok z -> Z.of_nat (length z) < 2 ^ 32 ->
     _write_png [] =
       (Some (PNG_SIGNATURE ++ spec_chunk IHDR (spec_ihdr_data 0 0)
                ++ spec_chunk IDAT z ++ spec_chunk IEND []), ok tt)) /\
  (forall (g : pixel_grid) e,
     grid_width g < 2 ^ 32 -> Z.of_nat (length g) < 2 ^ 32 ->
     zlib_compress (spec_scanlines g) 9 = raise e ->
     _write_png (canvas_of_grid g) =
       (Some (PNG_SIGNATURE
                ++ spec_chunk IHDR (spec_ihdr_data (grid_width g) (Z.of_nat (length g)))),
        raise e)).
Proof.
  split.
  - intros z Hz Hzlen. change (@nil (list (list Z))) with (canvas_of_grid []).
    rewrite write_png_run by (cbn; lia).
    change (spec_scanlines []) with (@nil byte). rewrite Hz. cbn [ok].
    rewrite chunk_spec by assumption. cbn [ok grid_width length Z.of_nat].
    now rewrite <- !app_assoc.
  - intros g e Hw Hh Hz. rewrite write_png_run by assumption. now rewrite Hz.
Qed.

End WritePngFacts.

(** The theorem on the 2 by 2 red canvas under the reference compressor. *)
Lemma write_png_layout_witness :
  exists z,
    @_write_png ref_zlib (canvas_of_grid red_grid) =
      (Some (PNG_SIGNATURE
               ++ @spec_chunk ref_zlib IHDR (spec_ihdr_data 2 2)
               ++ @spec_chunk ref_zlib IDAT z
               ++ @spec_chunk ref_zlib IEND []),
       ok tt).
Proof.
  eexists. apply (@write_png_layout ref_zlib red_grid 2 2).
  - lia.
  - lia.
  - reflexivity.
  - repeat constructor.
  - vm_compute. reflexivity.
  - vm_compute. reflexivity.
Defined.

(** C2, counterexample. Given the canvas of height 0, the writer raises
    nothing: it returns normally, and the file it leaves is the signature
    followed by IHDR for a 0 by 0 image, an IDAT chunk and IEND. *)
Lemma write_png_empty_canvas_no_error :
  length (@nil (list (list Z))) = 0%nat /\
  snd (@_write_png ref_zlib []) = ok tt /\
  exists idat_and_iend,
    fst (@_write_png ref_zlib []) =
      Some (PNG_SIGNATURE ++ @spec_chunk ref_zlib IHDR (spec_ihdr_data 0 0) ++ idat_and_iend).
Proof.
  split; [reflexivity|]. split; [vm_compute; reflexivity|].
  eexists. vm_compute. reflexivity.
Qed.

(** With a failing compressor the exception is raised after the signature
    and IHDR reached the file: the stream is cut short before IDAT. *)
Lemma write_png_compress_failure_truncates :
  @_write_png failing_zlib red_2x2 =
    (Some (PNG_SIGNATURE ++ @spec_chunk failing_zlib IHDR (spec_ihdr_data 2 2)),
     raise ZlibError).
Proof. vm_compute. reflexivity. Qed.

(** Both degenerate cases on closed inputs: the empty canvas under the
    reference compressor, the red canvas under a compressor that fails. *)
Lemma write_png_degenerate_cases_witness :
  (exists z,
     @_write_png ref_zlib [] =
       (Some (PNG_SIGNATURE ++ @spec_chunk ref_zlib IHDR (spec_ihdr_data 0 0)
                ++ @spec_chunk ref_zlib IDAT z ++ @spec_chunk ref_zlib IEND []), ok tt)) /\
  @_write_png failing_zlib (canvas_of_grid red_grid) =
    (Some (PNG_SIGNATURE
             ++ @spec_chunk failing_zlib IHDR
                  (spec_ihdr_data (grid_width red_grid) (Z.of_nat (length red_grid)))),
     raise ZlibError).
Proof.
  split.
  - eexists. apply (proj1 (@write_png_degenerate_cases ref_zlib)).
    + vm_compute. reflexivity.
    + vm_compute. reflexivity.
  - apply (proj2 (@write_png_degenerate_cases failing_zlib)).
    + vm_compute. reflexivity.
    + vm_compute. reflexivity.
    + reflexivity.
Defined.

(** ** Bitmap font *)

Lemma FONT_all_shaped :
  map_Forall (fun ch g => glyph_shape (glyph_width ch) g = true) FONT.
Proof. apply map_Forall_to_list. vm_compute. repeat constructor. Qed.

Lemma FONT_blank : FONT !! " "%char = Some blank_glyph.
Proof. vm_compute. reflexivity. Qed.

(** C7 (amended). Every glyph of the font has five rows of equal width
    whose cells are all on (['1']) or off ([' ']); the width is three
    cells, except for the two parentheses, whose glyphs are two cells
    wide. The font is a constant mapping; the glyph of the space character
    is all off, and it is the glyph taken for a character the mapping does
    not list. *)
Theorem font_glyph_shapes (ch : ascii) (g : glyph) :
  FONT !! ch = Some g ->
  length g = 5%nat /\
  Forall (fun row => String.length row = glyph_width ch /\
                     Forall (fun cell => cell = "1"%char \/ cell = " "%char)
                            (list_ascii_of_string row)) g /\
  (ch <> "("%char -> ch <> ")"%char -> glyph_width ch = 3%nat) /\
  FONT !! " "%char = Some blank_glyph /\
  (forall ch', FONT !! ch' = None -> default blank_glyph (FONT !! ch') = blank_glyph).
Proof.
  intros Hg. pose proof (FONT_all_shaped ch g Hg) as Hshape.
  unfold glyph_shape in Hshape. apply andb_true_iff in Hshape as [Hlen Hrows].
  apply Nat.eqb_eq in Hlen. split; [assumption|]. split; [|split; [|split]].
  - apply Forall_forall. intros row Hrow.
    rewrite forallb_forall in Hrows. apply list_elem_of_In in Hrow.
    specialize (Hrows row Hrow). apply andb_true_iff in Hrows as [Hw Hcells].
    apply Nat.eqb_eq in Hw. split; [assumption|].
    apply Forall_forall. intros cell Hcell. apply list_elem_of_In in Hcell.
    rewrite forallb_forall in Hcells. specialize (Hcells cell Hcell).
    unfold on_off in Hcells. apply orb_true_iff in Hcells as [Hc|Hc];
      apply Ascii.eqb_eq in Hc; auto.
  - intros Hl Hr. unfold glyph_width.
    apply Ascii.eqb_neq in Hl, Hr. now rewrite Hl, Hr.
  - exact FONT_blank.
  - intros ch' ->. reflexivity.
Qed.

Lemma font_glyph_shapes_witness :
  length [" 1 "; "1 1"; "111"; "1 1"; "1 1"]%string = 5%nat /\
  Forall (fun row => String.length row = glyph_width "A" /\
                     Forall (fun cell => cell = "1"%char \/ cell = " "%char)
                            (list_ascii_of_string row))
         [" 1 "; "1 1"; "111"; "1 1"; "1 1"]%string /\
  ("A"%char <> "("%char -> "A"%char <> ")"%char -> glyph_width "A" = 3%nat) /\
  FONT !! " "%char = Some blank_glyph /\
  (forall ch', FONT !! ch' = None -> default blank_glyph (FONT !! ch') = blank_glyph).
Proof.
  apply (font_glyph_shapes "A"%char). vm_compute. reflexivity.
Defined.

(** C7, counterexample. The glyph of the opening parenthesis is two cells
    wide in each of its five rows, not three. *)
Lemma font_paren_glyph_two_wide :
  exists g, FONT !! "("%char = Some g /\
            Forall (fun row => String.length row = 2%nat) g /\
            ~ Forall (fun row => String.length row = 3%nat) g.
Proof.
  exists [" 1"; "1 "; "1 "; "1 "; " 1"]%string. split; [vm_compute; reflexivity|].
  split; [repeat constructor|].
  intros Hall. apply Forall_cons in Hall as [Hrow _]. discriminate Hrow.
Qed.
(** ** Text rendering *)

(** A loop whose body never raises and keeps an invariant returns a state
    that satisfies the invariant. *)
Lemma foldM_invariant {A B} (P : A -> Prop) (f : A -> B -> result A) (items : list B) :
  (forall a b, P a -> exists a', f a b = ok a' /\ P a') ->
  forall acc, P acc -> exists r, foldM f acc items = ok r /\ P r.
Proof.
  intros Hstep. induction items as [|b items IH]; intros acc Hacc; cbn [foldM].
  - eauto.
  - destruct (Hstep acc b Hacc) as (acc' & -> & Hacc'). cbn [rbind ok]. eauto.
Qed.

Lemma str_upper_app `{PyUnicode} (s1 s2 : pystr) :
  str_upper (s1 ++ s2) = str_upper s1 ++ str_upper s2.
Proof. unfold str_upper. apply flat_map_app. Qed.

(** A glyph the font hands out for a character is a glyph of the font. *)
Lemma font_get_FONT (ch : N) (g : glyph) :
  font_get ch = Some g -> FONT !! ascii_of_N ch = Some g.
Proof. unfold font_get. destruct (ch <? 128)%N; [trivial|discriminate]. Qed.

Lemma font_get_space : font_get 32 = Some blank_glyph.
Proof. exact FONT_blank. Qed.

Lemma FONT_glyph_nonempty (ch : N) :
  exists row0 rest, default blank_glyph (font_get ch) = row0 :: rest.
Proof.
  destruct (font_get ch) as [g|] eqn:Hg; cbn [default].
  - pose proof (FONT_all_shaped _ g (font_get_FONT ch g Hg)) as Hshape.
    destruct g; [discriminate|eauto].
  - unfold blank_glyph. eauto.
Qed.

Section DrawTextFacts.
Context `{PyUnicode}.
Variables width height : Z.

Lemma canvas_setitem_dims (canvas : Canvas) (py px : Z) (v : list Z) :
  canvas_dims width height canvas ->
  0 <= py < height -> 0 <= px < width ->
  exists canvas', canvas_setitem canvas py px v = ok canvas' /\
                  canvas_dims width height canvas'.
Proof.
  intros [Hrows Hcols] Hpy Hpx. unfold canvas_setitem.
  destruct (canvas !! Z.to_nat py) as [row|] eqn:Hrow.
  - assert (Z.of_nat (length row) = width) as Hlen.
    { rewrite Forall_lookup in Hcols. eauto. }
    replace (px <? Z.of_nat (length row)) with true
      by (symmetry; apply Z.ltb_lt; lia).
    eexists. split; [reflexivity|]. split.
    + now rewrite length_insert.
    + apply Forall_insert; [assumption|]. now rewrite length_insert.
  - apply lookup_ge_None in Hrow. lia.
Qed.

Lemma draw_cell_dims (c : color) (x y gy : Z) (canvas : Canvas) (cell : Z * ascii) :
  canvas_dims width height canvas ->
  exists canvas', draw_cell width height c x y gy canvas cell = ok canvas' /\
                  canvas_dims width height canvas'.
Proof.
  intros Hdims. destruct cell as [gx val]. unfold draw_cell.
  destruct (Ascii.eqb val "1"); [|eauto].
  destruct ((0 <=? x + gx) && (x + gx <? width) &&
            ((0 <=? y + gy) && (y + gy <? height))) eqn:Hin; [|eauto].
  apply andb_true_iff in Hin as [Hx Hy].
  apply andb_true_iff in Hx as [Hx1 Hx2]. apply andb_true_iff in Hy as [Hy1 Hy2].
  apply Z.leb_le in Hx1, Hy1. apply Z.ltb_lt in Hx2, Hy2.
  apply canvas_setitem_dims; [assumption|lia|lia].
Qed.

Lemma draw_row_dims (c : color) (x y : Z) (canvas : Canvas) (line : Z * string) :
  canvas_dims width height canvas ->
  exists canvas', draw_row width height c x y canvas line = ok canvas' /\
                  canvas_dims width height canvas'.
Proof.
  intros Hdims. destruct line as [gy row]. unfold draw_row.
  apply (foldM_invariant (canvas_dims width height)); [|assumption].
  intros a b Ha. now apply draw_cell_dims.
Qed.

Lemma draw_char_dims (c : color) (y : Z) (st : Canvas * Z) (ch : N) :
  canvas_dims width height st.1 ->
  exists st', draw_char width height c y st ch = ok st' /\
              canvas_dims width height st'.1.
Proof.
  destruct st as [canvas x]. cbn [fst]. intros Hdims. unfold draw_char.
  unfold dict_getitem. rewrite FONT_blank. cbn [rbind ok].
  destruct (foldM_invariant (canvas_dims width height)
              (draw_row width height c x y)
              (enumerate (default blank_glyph (font_get ch)))
              (fun a b Ha => draw_row_dims c x y a b Ha) canvas Hdims)
    as (canvas' & -> & Hdims').
  cbn [rbind ok].
  destruct (FONT_glyph_nonempty ch) as (row0 & rest & ->). cbn [list_first rbind ok].
  eexists. split; [reflexivity|assumption].
Qed.

(** A character the font does not list is drawn like the space character. *)
Lemma draw_char_unsupported (c : color) (y : Z) (st : Canvas * Z) (ch : N) :
  font_get ch = None ->
  draw_char width height c y st ch = draw_char width height c y st 32.
Proof.
  intros Hch. destruct st as [canvas x]. unfold draw_char.
  now rewrite Hch, font_get_space.
Qed.

(** The blank glyph sets no pixel and moves the cursor by its width, three
    cells, plus one cell of spacing. *)
Lemma draw_char_blank (c : color) (y : Z) (canvas : Canvas) (x : Z) :
  draw_char width height c y (canvas, x) 32 = ok (canvas, x + 4).
Proof.
  unfold draw_char. unfold dict_getitem. rewrite FONT_blank, font_get_space. cbn.
  f_equal. f_equal. lia.
Qed.

(** C8 (amended). Drawing a text never raises, whatever characters it
    holds. The text is drawn through its upper-case form, and every
    character of that form which the font does not list is drawn as the
    blank glyph: it sets no pixel and advances the cursor by the same four
    cells as a space. So a character [ch] whose upper-case form is one
    character [u] outside the font (every ASCII character outside the
    font, such as ["@"]) draws as a space does: the text draws exactly as
    it does with a space in place of that character, pixel for pixel and
    with the same final cursor (hence the same position for every later
    character). *)
Theorem draw_text_unsupported_char (canvas : Canvas) (pre post : pystr)
    (ch u : N) (x y : Z) (c : color) :
  canvas_dims width height canvas ->
  char_upper ch = [u] ->
  font_get u = None ->
  (forall text, exists canvas' x',
     draw_text width height canvas text x y c = ok (canvas', x')) /\
  (forall v canvas0 x0,
     font_get v = None ->
     draw_char width height c y (canvas0, x0) v = ok (canvas0, x0 + 4) /\
     draw_char width height c y (canvas0, x0) 32 = ok (canvas0, x0 + 4)) /\
  char_upper 32 = [32%N] /\
  draw_text width height canvas (pre ++ ch :: post) x y c =
  draw_text width height canvas (pre ++ 32%N :: post) x y c.
Proof.
  intros Hdims Hu Hfont. split; [|split; [|split]].
  - intros text. unfold draw_text.
    destruct (foldM_invariant (fun st => canvas_dims width height st.1)
                (draw_char width height c y) (str_upper text)
                (fun a b Ha => draw_char_dims c y a b Ha) (canvas, x) Hdims)
      as ([canvas' x'] & Hrun & _).
    eauto.
  - intros v canvas0 x0 Hv. rewrite draw_char_unsupported by assumption.
    split; apply draw_char_blank.
  - reflexivity.
  - unfold draw_text. rewrite !str_upper_app, !foldM_app.
    destruct (foldM (draw_char width height c y) (canvas, x) (str_upper pre))
      as [e|st]; [reflexivity|].
    cbn [rbind ok]. unfold str_upper. cbn [flat_map]. rewrite Hu.
    change (char_upper 32) with [32%N]. cbn [app foldM].
    now rewrite draw_char_unsupported by assumption.
Qed.

End DrawTextFacts.

(** The text ["P@0"] on a fresh 20 by 10 canvas: ["@"] is not in the font. *)
Lemma draw_text_unsupported_char_witness :
  (forall text, exists canvas' x',
     @draw_text ref_unicode 20 10 (_create_canvas 20 10 (255, 255, 255)) text 1 1 (0, 0, 0)
       = ok (canvas', x')) /\
  (forall v canvas0 x0,
     font_get v = None ->
     draw_char 20 10 (0, 0, 0) 1 (canvas0, x0) v = ok (canvas0, x0 + 4) /\
     draw_char 20 10 (0, 0, 0) 1 (canvas0, x0) 32 = ok (canvas0, x0 + 4)) /\
  @char_upper ref_unicode 32 = [32%N] /\
  @draw_text ref_unicode 20 10 (_create_canvas 20 10 (255, 255, 255))
    (pystr_of_string "P" ++ 64%N :: pystr_of_string "0") 1 1 (0, 0, 0) =
  @draw_text ref_unicode 20 10 (_create_canvas 20 10 (255, 255, 255))
    (pystr_of_string "P" ++ 32%N :: pystr_of_string "0") 1 1 (0, 0, 0).
Proof.
  apply (@draw_text_unsupported_char ref_unicode 20 10 _ _ _ 64%N 64%N).
  - split; [reflexivity|]. vm_compute. repeat constructor.
  - reflexivity.
  - reflexivity.
Defined.

(** C8, counterexample. The sharp s, U+00DF, is not in the font, and it is
    not drawn as the blank glyph: its upper-case form is ["SS"], so the
    text of this one character draws the glyph of S twice and moves the
    cursor by eight cells, from 1 to 9, where a space sets no pixel and
    moves it by four, from 1 to 5. *)
Lemma draw_text_sharp_s_not_blank :
  font_get 223 = None /\
  @char_upper ref_unicode 223 = [83; 83]%N /\
  (exists canvas',
     @draw_text ref_unicode 20 10 (_create_canvas 20 10 (255, 255, 255))
       [223%N] 1 1 (0, 0, 0) = ok (canvas', 9) /\
     exists row, canvas' !! 1%nat = Some row /\ row !! 2%nat = Some [0; 0; 0]) /\
  @draw_text ref_unicode 20 10 (_create_canvas 20 10 (255, 255, 255))
    [32%N] 1 1 (0, 0, 0) = ok (_create_canvas 20 10 (255, 255, 255), 5).
Proof.
  split; [reflexivity|]. split; [reflexivity|]. split.
  - eexists. split; [vm_compute; reflexivity|].
    eexists. split; reflexivity.
  - vm_compute. reflexivity.
Qed.
(** ** Ranges of the CDF and of the p-value *)

Lemma float_leb_R (x y : float) :
  finite_or_zero (Prim2SF x) = true -> finite_or_zero (Prim2SF y) = true ->
  if (x <=? y)%float then (F2R x <= F2R y)%R else (F2R y < F2R x)%R.
Proof.
  intros Hx Hy. rewrite leb_spec. unfold SFleb, F2R.
  pose proof (SFcompare_R _ _ (Prim2SF_valid x) (Prim2SF_valid y) Hx Hy) as Hc.
  destruct (SFcompare (Prim2SF x) (Prim2SF y)) as [[| |]|]; lra.
Qed.

(** A finite float with a value in [[0, 1]] passes [0.0 <= c <= 1.0], and
    conversely. *)
Lemma unit_interval_R (c : float) :
  finite_or_zero (Prim2SF c) = true -> (0 <= F2R c <= 1)%R -> in_unit_interval c.
Proof.
  intros Hc Hr. split.
  - pose proof (float_leb_R 0 c eq_refl Hc) as H0. rewrite F2R_zero in H0.
    destruct (0 <=? c)%float; [reflexivity|lra].
  - pose proof (float_leb_R c 1 Hc eq_refl) as H1. rewrite F2R_one in H1.
    destruct (c <=? 1)%float; [reflexivity|lra].
Qed.

Lemma unit_interval_inv (c : float) :
  in_unit_interval c ->
  finite_or_zero (Prim2SF c) = true /\ (0 <= F2R c <= 1)%R.
Proof.
  intros [H0 H1].
  assert (finite_or_zero (Prim2SF c) = true) as Hc.
  { rewrite leb_spec in H0, H1. unfold SFleb in H0, H1.
    change (Prim2SF 0) with (S754_zero false) in H0.
    change (Prim2SF 1) with (S754_finite false 4503599627370496 (-52)) in H1.
    destruct (Prim2SF c) as [s|[|]| |s m e]; try reflexivity; discriminate. }
  split; [assumption|].
  pose proof (float_leb_R 0 c eq_refl Hc) as Hl. rewrite H0, F2R_zero in Hl.
  pose proof (float_leb_R c 1 Hc eq_refl) as Hu. rewrite H1, F2R_one in Hu.
  lra.
Qed.

Lemma float_nan_eq (a : float) : is_nan a = true -> a = nan.
Proof.
  rewrite is_nan_spec. intros Ha. apply Prim2SF_inj.
  destruct (Prim2SF a); try discriminate. reflexivity.
Qed.

(** The clamp [max(0.0, min(1.0, a))] always lands in [[0, 1]]: given NaN
    it returns 1.0, because [min] keeps its first argument when the
    comparison fails. *)
Lemma clampF_unit (a : float) : in_unit_interval (clampF a).
Proof.
  destruct (is_nan a) eqn:Ha.
  - rewrite (float_nan_eq a Ha). split; reflexivity.
  - destruct (clampF_range a Ha) as [Hf Hr]. now apply unit_interval_R.
Qed.

(** On a CDF value in [[0, 1]] the expression
    [max(min(2 * min(cdf, 1 - cdf), 1.0), 0.0)] lands in [[0, 1]]. *)
Lemma tailsF_unit (c : float) : in_unit_interval c -> in_unit_interval (tailsF c).
Proof.
  intros Hc. apply unit_interval_inv in Hc as [Hf Hr].
  destruct (tailsF_R c Hf Hr) as [Hfp _]. revert Hfp.
  unfold tailsF, py_max. set (m := py_min _ 1).
  destruct (m <? 0)%float eqn:Hm0; [intros _; split; reflexivity|].
  intros Hfm. apply unit_interval_R; [assumption|].
  pose proof (float_ltb_R m 0 Hfm eq_refl) as Hlow.
  rewrite Hm0, F2R_zero in Hlow. split; [assumption|].
  revert Hfm. unfold m. set (v := (2 * _)%float). unfold py_min.
  destruct (1 <? v)%float eqn:Hv1; [rewrite F2R_one; lra|].
  intros Hfv. pose proof (float_ltb_R 1 v eq_refl Hfv) as Hup.
  rewrite Hv1, F2R_one in Hup. assumption.
Qed.

Section Ranges.
Context `{PyMath}.

Lemma student_t_cdf_unit (x df c : float) :
  _student_t_cdf x df = ok c -> in_unit_interval c.
Proof.
  unfold _student_t_cdf. destruct (x =? 0)%float.
  - intros [= <-]. split; reflexivity.
  - destruct (simpson_integral (PrimFloat.abs x) df) as [e|I]; [discriminate|].
    cbn [rbind ok]. intros [= <-]. apply clampF_unit.
Qed.

Lemma two_tailed_p_value_unit (t_stat df p : float) :
  _two_tailed_p_value t_stat df = ok p -> in_unit_interval p.
Proof.
  unfold _two_tailed_p_value. destruct (df <=? 0)%float.
  - intros [= <-]. split; reflexivity.
  - destruct (_student_t_cdf t_stat df) as [e|c] eqn:Hc; [discriminate|].
    cbn [rbind ok]. intros [= <-]. apply tailsF_unit.
    exact (student_t_cdf_unit _ _ _ Hc).
Qed.

(** X1. Whatever the arguments and whatever the C library returns,
    [_student_t_cdf] returns a number between 0.0 and 1.0, never NaN: the
    final [max(0.0, min(1.0, cdf))] sends even a NaN to 1.0. It raises only
    what the integration of the density raises. *)
Theorem student_t_cdf_range (x df : float) :
  match _student_t_cdf x df with
  | inr c => in_unit_interval c
  | inl e => (x =? 0)%float = false /\
             simpson_integral (PrimFloat.abs x) df = raise e
  end.
Proof.
  destruct (_student_t_cdf x df) as [e|c] eqn:Hrun.
  - revert Hrun. unfold _student_t_cdf.
    destruct (x =? 0)%float; [discriminate|].
    destruct (simpson_integral (PrimFloat.abs x) df) as [e'|I]; [|discriminate].
    cbn [rbind]. intros [= <-]. split; reflexivity.
  - exact (student_t_cdf_unit _ _ _ Hrun).
Qed.

(** X2. Whatever the arguments, [_two_tailed_p_value] returns a number
    between 0.0 and 1.0, never NaN; it raises only what the CDF raises, and
    only for [df] not [<= 0]. *)
Theorem two_tailed_p_value_range (t_stat df : float) :
  match _two_tailed_p_value t_stat df with
  | inr p => in_unit_interval p
  | inl e => (df <=? 0)%float = false /\ _student_t_cdf t_stat df = raise e
  end.
Proof.
  destruct (_two_tailed_p_value t_stat df) as [e|p] eqn:Hrun.
  - revert Hrun. unfold _two_tailed_p_value.
    destruct (df <=? 0)%float; [discriminate|].
    destruct (_student_t_cdf t_stat df) as [e'|c]; [|discriminate].
    cbn [rbind]. intros [= <-]. split; reflexivity.
  - exact (two_tailed_p_value_unit _ _ _ Hrun).
Qed.

Lemma welch_p_value_unit (sample_a sample_b : list float) (t p : float) :
  _manual_welchs_ttest sample_a sample_b = ok (t, p) -> in_unit_interval p.
Proof.
  unfold _manual_welchs_ttest.
  destruct (_ || _); [discriminate|].
  destruct (statistics_mean sample_a) as [?|mean1]; [discriminate|].
  destruct (statistics_mean sample_b) as [?|mean2]; [discriminate|].
  destruct (statistics_variance sample_a) as [?|var1]; [discriminate|].
  destruct (statistics_variance sample_b) as [?|var2]; [discriminate|].
  cbn [rbind ok].
  destruct (float_div_int var1 _) as [?|q1]; [discriminate|].
  destruct (float_div_int var2 _) as [?|q2]; [discriminate|].
  cbn [rbind ok].
  destruct (math_sqrt _) as [?|se]; [discriminate|]. cbn [rbind ok].
  destruct (se =? 0)%float.
  - intros [= <- <-]. split; reflexivity.
  - destruct (float_div _ se) as [?|t_stat]; [discriminate|]. cbn [rbind ok].
    destruct (welch_df _ _ _ _) as [?|df]; [discriminate|]. cbn [rbind ok].
    destruct (_two_tailed_p_value t_stat df) as [?|p'] eqn:Hp; [discriminate|].
    cbn [rbind ok]. intros [= <- <-]. exact (two_tailed_p_value_unit _ _ _ Hp).
Qed.

(** X3. Whenever the Welch test returns, its p-value is a number between
    0.0 and 1.0, whatever the samples and whatever the statistic came out
    as (even NaN or infinite). *)
Theorem welch_p_value_range (sample_a sample_b : list float) (t p : float) :
  _manual_welchs_ttest sample_a sample_b = ok (t, p) ->
  (0 <=? p)%float = true /\ (p <=? 1)%float = true.
Proof. apply welch_p_value_unit. Qed.

End Ranges.

(** The samples [[1, 2, 3]] and [[1, 2, 3]]. *)
Lemma welch_p_value_range_witness :
  @_manual_welchs_ttest ref_math [1; 2; 3]%float [1; 2; 3]%float = ok (0%float, 1%float) /\
  (0 <=? 1)%float = true /\ (1 <=? 1)%float = true.
Proof.
  split; [vm_compute; reflexivity|].
  apply (@welch_p_value_range ref_math [1; 2; 3]%float [1; 2; 3]%float 0%float 1%float).
  vm_compute. reflexivity.
Defined.

(** ** The density *)

Lemma float_mul_opp_opp (x : float) : (- x * - x)%float = (x * x)%float.
Proof.
  apply Prim2SF_inj. rewrite !mul_spec, opp_spec. unfold SF64mul, SFmul.
  destruct (Prim2SF x) as [s|s| |s m e]; cbn [SFopp]; try reflexivity; now destruct s.
Qed.

Section Density.
Context `{PyMath}.

(** X4. The density is even, exactly: [_student_t_pdf(-x, df)] makes
    the same calls as [_student_t_pdf(x, df)], since [x * x] has no sign,
    and so returns the same float or raises the same exception. *)
Theorem student_t_pdf_even (x df : float) :
  _student_t_pdf (- x) df = _student_t_pdf x df.
Proof. unfold _student_t_pdf. now rewrite float_mul_opp_opp. Qed.

End Density.
(** ** The Welch test with its samples swapped *)

Lemma float_add_comm (x y : float) : (x + y)%float = (y + x)%float.
Proof.
  apply Prim2SF_inj. rewrite !add_spec. unfold SF64add, SFadd.
  destruct (Prim2SF x) as [sx|sx| |sx mx ex], (Prim2SF y) as [sy|sy| |sy my ey];
    try reflexivity; try (now destruct sx, sy).
  now rewrite Z.min_comm, Z.add_comm.
Qed.

Lemma binary_normalize_opp (m e : Z) :
  m <> 0 ->
  binary_normalize prec emax (- m) e false = SFopp (binary_normalize prec emax m e false).
Proof.
  intros Hm. destruct m as [|m|m]; [contradiction| |].
  - change (binary_round prec emax true m e = SFopp (binary_round prec emax false m e)).
    unfold binary_round.
    destruct (shl_align m e (fexp prec emax (Z.pos (digits2_pos m) + e))) as [mz ez].
    exact (binary_round_aux_opp false (Z.pos mz) ez loc_Exact).
  - change (binary_round prec emax false m e = SFopp (binary_round prec emax true m e)).
    unfold binary_round.
    destruct (shl_align m e (fexp prec emax (Z.pos (digits2_pos m) + e))) as [mz ez].
    exact (binary_round_aux_opp true (Z.pos mz) ez loc_Exact).
Qed.

(** [y - x] is the opposite of [x - y], except that both are [+0.0] when
    [x] and [y] are equal numbers. *)
Lemma float_sub_swap (x y : float) :
  (y - x)%float = (- (x - y))%float \/
  ((x - y)%float = 0%float /\ (y - x)%float = 0%float).
Proof.
  assert (Prim2SF (y - x) = SFopp (Prim2SF (x - y)) \/
          (Prim2SF (x - y) = S754_zero false /\ Prim2SF (y - x) = S754_zero false))
    as [Hopp|[H1 H2]].
  { rewrite !sub_spec. unfold SF64sub, SFsub.
    destruct (Prim2SF x) as [sx|sx| |sx mx ex], (Prim2SF y) as [sy|sy| |sy my ey];
      try (left; reflexivity); try (destruct sx, sy; auto; fail).
    rewrite (Z.min_comm ey ex).
    set (a := cond_Zopp sx _). set (b := cond_Zopp sy _).
    destruct (Z.eq_dec (a - b) 0) as [Hz|Hnz].
    - right. replace (b - a) with 0 by lia. rewrite Hz. now split.
    - left. replace (b - a) with (- (a - b)) by lia. now apply binary_normalize_opp. }
  - left. apply Prim2SF_inj. now rewrite opp_spec.
  - right. split; apply Prim2SF_inj; assumption.
Qed.

Lemma float_div_opp (x y : float) : (- x / y)%float = (- (x / y))%float.
Proof.
  apply Prim2SF_inj. rewrite opp_spec, !div_spec, opp_spec. unfold SF64div, SFdiv.
  destruct (Prim2SF x) as [sx|sx| |sx mx ex], (Prim2SF y) as [sy|sy| |sy my ey];
    cbn [SFopp]; try reflexivity; try (now destruct sx, sy).
  destruct (SFdiv_core_binary prec emax (Z.pos mx) ex (Z.pos my) ey) as [[mz ez] lz].
  rewrite <- binary_round_aux_opp. now destruct sx, sy.
Qed.

Section WelchSwap.
Context `{PyMath}.

Lemma welch_df_swap (var1 var2 : float) (n1 n2 : Z) (df : float) :
  welch_df var1 var2 n1 n2 = ok df -> welch_df var2 var1 n2 n1 = ok df.
Proof.
  unfold welch_df.
  destruct (float_div_int var1 n1) as [?|a1]; [discriminate|].
  destruct (float_div_int var2 n2) as [?|a2]; [discriminate|]. cbn [rbind ok].
  rewrite (float_add_comm a2 a1).
  destruct (float_pow (a1 + a2) 2) as [?|numerator]; [discriminate|]. cbn [rbind ok].
  destruct (float_pow a1 2) as [?|s1]; [discriminate|]. cbn [rbind ok].
  destruct (float_div_int s1 (n1 - 1)) as [?|d1]; [discriminate|]. cbn [rbind ok].
  destruct (float_pow a2 2) as [?|s2]; [discriminate|]. cbn [rbind ok].
  destruct (float_div_int s2 (n2 - 1)) as [?|d2]; [discriminate|]. cbn [rbind ok].
  now rewrite (float_add_comm d2 d1).
Qed.

Lemma student_t_cdf_opp_returns (x df c : float) :
  _student_t_cdf x df = ok c -> exists c', _student_t_cdf (- x) df = ok c'.
Proof.
  unfold _student_t_cdf. rewrite float_eqb_zero_opp, float_abs_opp.
  destruct (x =? 0)%float; [eauto|].
  destruct (simpson_integral (PrimFloat.abs x) df) as [?|I]; [discriminate|].
  cbn [rbind ok]. eauto.
Qed.

Lemma two_tailed_p_value_opp_returns (t df p : float) :
  _two_tailed_p_value t df = ok p -> exists p', _two_tailed_p_value (- t) df = ok p'.
Proof.
  unfold _two_tailed_p_value. destruct (df <=? 0)%float; [eauto|].
  destruct (_student_t_cdf t df) as [?|c] eqn:Hc; [discriminate|]. intros _.
  destruct (student_t_cdf_opp_returns _ _ _ Hc) as [c' ->]. cbn [rbind ok]. eauto.
Qed.

(** X6. When the Welch test returns on [(a, b)], it returns on [(b, a)]
    too. Either both runs return the very same pair (the fallback for a
    zero standard error, or two means whose difference is zero), or the
    statistic changes its sign and the two p-values are the two-tailed
    p-values of [t] and of [-t] at the same degrees of freedom: the
    standard error and the degrees of freedom do not depend on the order
    of the samples. *)
Theorem welch_swap_samples (sample_a sample_b : list float) (t p : float) :
  _manual_welchs_ttest sample_a sample_b = ok (t, p) ->
  exists t' p',
    _manual_welchs_ttest sample_b sample_a = ok (t', p') /\
    ((t' = t /\ p' = p) \/
     (t' = (- t)%float /\
      exists df, _two_tailed_p_value t df = ok p /\
                 _two_tailed_p_value (- t) df = ok p')).
Proof.
  unfold _manual_welchs_ttest.
  rewrite (orb_comm (Z.of_nat (length sample_b) <? 2)).
  destruct (_ || _); [discriminate|].
  destruct (statistics_mean sample_a) as [?|mean1]; [discriminate|].
  destruct (statistics_mean sample_b) as [?|mean2]; [discriminate|].
  destruct (statistics_variance sample_a) as [?|var1]; [discriminate|].
  destruct (statistics_variance sample_b) as [?|var2]; [discriminate|].
  cbn [rbind ok].
  destruct (float_div_int var1 _) as [?|q1]; [discriminate|].
  destruct (float_div_int var2 _) as [?|q2]; [discriminate|].
  cbn [rbind ok]. rewrite (float_add_comm q2 q1).
  destruct (math_sqrt (q1 + q2)) as [?|se]; [discriminate|]. cbn [rbind ok].
  destruct (se =? 0)%float eqn:Hse.
  { intros [= <- <-]. exists 0%float, 1%float. split; [reflexivity|]. now left. }
  unfold float_div. rewrite Hse. cbn [rbind ok].
  destruct (welch_df var1 var2 _ _) as [?|df] eqn:Hdf; [discriminate|].
  rewrite (welch_df_swap _ _ _ _ _ Hdf). cbn [rbind ok].
  destruct (_two_tailed_p_value ((mean1 - mean2) / se) df) as [?|p0] eqn:Hp;
    [discriminate|].
  cbn [rbind ok]. intros [= <- <-].
  destruct (float_sub_swap mean1 mean2) as [Hopp|[H1 H2]].
  - rewrite Hopp, float_div_opp.
    destruct (two_tailed_p_value_opp_returns _ _ _ Hp) as [p' Hp'].
    rewrite Hp'. cbn [rbind ok]. exists (- ((mean1 - mean2) / se))%float, p'.
    split; [reflexivity|]. right. split; [reflexivity|]. eauto.
  - rewrite H2, <- H1, Hp. cbn [rbind ok]. eexists _, _. split; [reflexivity|]. now left.
Qed.

End WelchSwap.

(** The samples [[1, 2, 3]] and [[0, 2, 4]]: equal means, a positive
    standard error. *)
Lemma welch_swap_samples_witness :
  @_manual_welchs_ttest ref_math [1; 2; 3]%float [0; 2; 4]%float = ok (0%float, 1%float) /\
  exists t' p',
    @_manual_welchs_ttest ref_math [0; 2; 4]%float [1; 2; 3]%float = ok (t', p') /\
    ((t' = 0%float /\ p' = 1%float) \/
     (t' = (- 0)%float /\
      exists df, @_two_tailed_p_value ref_math 0 df = ok 1%float /\
                 @_two_tailed_p_value ref_math (- 0) df = ok p')).
Proof.
  split; [vm_compute; reflexivity|].
  apply (@welch_swap_samples ref_math [1; 2; 3]%float [0; 2; 4]%float 0%float 1%float).
  vm_compute. reflexivity.
Defined.
(** ** Simulated user metrics and their analysis *)

Lemma py_range_nil (a b : Z) : b <= a -> py_range a b = [].
Proof. intros Hab. unfold py_range. now replace (Z.to_nat (b - a)) with 0%nat by lia. Qed.

Lemma py_range_cons (a b : Z) : a < b -> py_range a b = a :: py_range (a + 1) b.
Proof.
  intros Hab. unfold py_range.
  replace (Z.to_nat (b - a)) with (S (Z.to_nat (b - (a + 1)))) by lia.
  cbn [seq map]. f_equal; [lia|].
  rewrite <- seq_shift, map_map. apply map_ext. intros k. lia.
Qed.

Lemma length_py_range (a b : Z) : length (py_range a b) = Z.to_nat (b - a).
Proof. unfold py_range. now rewrite length_map, length_seq. Qed.

Lemma py_range_app (a b c : Z) :
  a <= b -> b <= c -> py_range a c = py_range a b ++ py_range b c.
Proof.
  intros Hab Hbc. remember (Z.to_nat (b - a)) as k eqn:Hk.
  revert a Hab Hk. induction k as [|k IH]; intros a Hab Hk.
  - replace a with b by lia. now rewrite (py_range_nil b b) by lia.
  - rewrite (py_range_cons a c), (py_range_cons a b) by lia.
    cbn [app]. f_equal. apply IH; lia.
Qed.

Lemma list_getitem_lookup {A} (l : list A) (i : Z) (a : A) :
  0 <= i -> l !! Z.to_nat i = Some a -> list_getitem l i = ok a.
Proof.
  intros Hi Hl. unfold list_getitem.
  replace (i <? 0) with false by (symmetry; apply Z.ltb_ge; lia).
  cbv zeta. replace (i <? 0) with false by (symmetry; apply Z.ltb_ge; lia).
  now rewrite Hl.
Qed.

Section SimulationFacts.
Context `{PyRandom}.

(** The first loop appends one pre-launch row per index. *)
Lemma simulate_pre_launch_run (b a : Z) (records : list user_record) (rng : rng_state) :
  exists tail rng',
    fold_left simulate_pre_launch (py_range a b) (records, rng) = (records ++ tail, rng') /\
    map user_id tail = py_range a b /\
    Forall (fun row => is_post_launch row = false) tail.
Proof.
  remember (Z.to_nat (b - a)) as k eqn:Hk.
  revert a records rng Hk. induction k as [|k IH]; intros a records rng Hk.
  - rewrite py_range_nil by lia. exists [], rng. now rewrite app_nil_r.
  - rewrite py_range_cons by lia. cbn [fold_left]. unfold simulate_pre_launch at 2.
    destruct (betavariate 2.5 5 rng) as [engagement rng1].
    destruct (betavariate 1.5 10 rng1) as [conversion rng2].
    destruct (IH (a + 1) (records ++ [{| user_id := a; engagement_rate := engagement;
                                          conversion_rate := conversion;
                                          is_post_launch := false |}]) rng2)
      as (tail & rng' & -> & Hids & Hflags); [lia|].
    eexists (_ :: tail), rng'. rewrite <- app_assoc. cbn [app map].
    split; [reflexivity|]. split; [now rewrite Hids|]. now constructor.
Qed.

(** The second loop appends one post-launch row per index, as long as the
    baseline row [records[idx - (half + 1)]] exists. *)
Lemma simulate_post_launch_run (half b a : Z) (records : list user_record)
    (rng : rng_state) :
  Z.of_nat (length records) = a - 1 -> half + 1 <= a -> 0 < half ->
  exists tail rng',
    foldM (simulate_post_launch half) (records, rng) (py_range a b)
      = ok (records ++ tail, rng') /\
    map user_id tail = py_range a b /\
    Forall clamped_post_row tail.
Proof.
  remember (Z.to_nat (b - a)) as k eqn:Hk.
  revert a records rng Hk. induction k as [|k IH]; intros a records rng Hk Hlen Ha Hhalf.
  - rewrite py_range_nil by lia. exists [], rng. now rewrite app_nil_r.
  - rewrite py_range_cons by lia. cbn [foldM]. unfold simulate_post_launch at 1.
    destruct (lookup_lt_is_Some_2 records (Z.to_nat (a - (half + 1)))) as [base Hbase];
      [lia|].
    rewrite (list_getitem_lookup records _ base) by (assumption || lia).
    cbn [rbind ok].
    destruct (gauss _ _ rng) as [g1 rng1]. destruct (gauss _ _ rng1) as [g2 rng2].
    cbn [rbind ok].
    match goal with
    | |- context [foldM _ (records ++ [?row], rng2)] =>
        destruct (IH (a + 1) (records ++ [row]) rng2)
          as (tail & rng' & -> & Hids & Hrows);
          [lia|rewrite length_app; cbn [length]; lia|lia|lia|];
        exists (row :: tail), rng'
    end.
    rewrite <- app_assoc. cbn [app map user_id].
    split; [reflexivity|]. split; [now rewrite Hids|].
    constructor; [|assumption].
    split; [reflexivity|]. split; apply clampF_unit.
Qed.

(** With a single user there is no pre-launch row to take the baseline
    from. *)
Lemma simulate_single_user (seed : Z) :
  simulate_user_metrics 1 seed = raise IndexError.
Proof. reflexivity. Qed.

(** What the simulation returns for every number of users but 1. *)
Lemma simulate_user_metrics_run (n_users seed : Z) :
  n_users <> 1 ->
  exists pre post,
    simulate_user_metrics n_users seed = ok (pre ++ post) /\
    map user_id pre = py_range 1 (n_users / 2 + 1) /\
    Forall (fun row => is_post_launch row = false) pre /\
    map user_id post = py_range (n_users / 2 + 1) (n_users + 1) /\
    Forall clamped_post_row post.
Proof.
  intros Hn. unfold simulate_user_metrics.
  destruct (simulate_pre_launch_run (n_users / 2 + 1) 1 [] (Random seed))
    as (pre & rng1 & -> & Hpre & Hflags).
  cbn [app].
  assert (length pre = Z.to_nat (n_users / 2)) as Hlen.
  { rewrite <- (length_map user_id), Hpre, length_py_range. lia. }
  destruct (Z.le_gt_cases n_users 0) as [Hle|Hgt].
  - assert (n_users / 2 <= 0) by (apply Z.div_le_upper_bound; lia).
    assert (n_users <= n_users / 2) by (apply Z.div_le_lower_bound; lia).
    exists pre, []. rewrite (py_range_nil _ (n_users + 1)) by lia.
    cbn [foldM rbind ok fst]. rewrite app_nil_r. repeat split; try assumption.
    constructor.
  - assert (1 <= n_users / 2) by (apply Z.div_le_lower_bound; lia).
    destruct (simulate_post_launch_run (n_users / 2) (n_users + 1) (n_users / 2 + 1)
                pre rng1) as (post & rng2 & -> & Hpost & Hrows); [lia|lia|lia|].
    exists pre, post. cbn [rbind ok fst]. repeat split; assumption.
Qed.

(** X7. For one user the simulation raises [IndexError]: the loop over the
    post-launch users reads a pre-launch row that does not exist. For every
    other number of users (negative ones included) it returns one row per
    user, numbered 1 to [n_users] in order, the first [n_users // 2] rows
    marked pre-launch and the rest post-launch; for an odd number of users
    there is one post-launch row more than pre-launch rows. *)
Theorem simulate_user_metrics_shape (n_users seed : Z) :
  if n_users =? 1 then simulate_user_metrics n_users seed = raise IndexError
  else
    exists records,
      simulate_user_metrics n_users seed = ok records /\
      map user_id records = py_range 1 (n_users + 1) /\
      map is_post_launch records
        = replicate (Z.to_nat (n_users / 2)) false
            ++ replicate (Z.to_nat (n_users - n_users / 2)) true.
Proof.
  destruct (Z.eqb_spec n_users 1) as [->|Hn]; [apply simulate_single_user|].
  destruct (simulate_user_metrics_run n_users seed Hn)
    as (pre & post & -> & Hpre & Hflags & Hpost & Hrows).
  exists (pre ++ post). split; [reflexivity|].
  assert (length pre = Z.to_nat (n_users / 2)) as Hlen1.
  { rewrite <- (length_map user_id), Hpre, length_py_range. lia. }
  assert (length post = Z.to_nat (n_users - n_users / 2)) as Hlen2.
  { rewrite <- (length_map user_id), Hpost, length_py_range. lia. }
  rewrite !map_app, Hpre, Hpost. split.
  - destruct (Z.le_gt_cases n_users 0) as [Hle|Hgt].
    + assert (n_users / 2 <= 0) by (apply Z.div_le_upper_bound; lia).
      assert (n_users <= n_users / 2) by (apply Z.div_le_lower_bound; lia).
      now rewrite !py_range_nil by lia.
    + assert (1 <= n_users / 2) by (apply Z.div_le_lower_bound; lia).
      assert (n_users / 2 <= n_users) by (apply Z.div_le_upper_bound; lia).
      symmetry. apply py_range_app; lia.
  - f_equal.
    + rewrite <- Hlen1. clear -Hflags.
      induction Hflags as [|row pre Hrow _ IH]; cbn; [reflexivity|].
      now rewrite Hrow, IH.
    + rewrite <- Hlen2. clear -Hrows.
      induction Hrows as [|row post [Hrow _] _ IH]; cbn; [reflexivity|].
      now rewrite Hrow, IH.
Qed.

(** X8. Whatever the generator draws, every post-launch row of the
    simulation has an engagement rate and a conversion rate between 0.0 and
    1.0 (never NaN): both go through [max(0.0, min(1.0, ...))]. *)
Theorem simulate_post_launch_rates_clamped (n_users seed : Z)
    (records : list user_record) :
  simulate_user_metrics n_users seed = ok records ->
  Forall (fun row => is_post_launch row = true ->
                     in_unit_interval (engagement_rate row) /\
                     in_unit_interval (conversion_rate row)) records.
Proof.
  intros Hrun. destruct (Z.eq_dec n_users 1) as [->|Hn].
  - rewrite simulate_single_user in Hrun. discriminate.
  - destruct (simulate_user_metrics_run n_users seed Hn)
      as (pre & post & Hrun' & _ & Hflags & _ & Hrows).
    rewrite Hrun' in Hrun. injection Hrun as <-.
    apply Forall_app. split.
    + eapply Forall_impl; [exact Hflags|]. cbn. intros row -> [=].
    + eapply Forall_impl; [exact Hrows|]. cbn. intros row (_ & He & Hc) _. now split.
Qed.

End SimulationFacts.

(** A run on four users: the sums 0.25 + 0.5, 0.125 - 0.5, 0.875 + 0.25
    and 0.0625 + NaN are clamped to 0.75, 0.0, 1.0 and 1.0. *)
Lemma simulate_post_launch_rates_clamped_witness :
  exists records,
    @simulate_user_metrics (scripted_random example_tape) 4 42 = ok records /\
    map engagement_rate records = [0.25; 0.875; 0.75; 1]%float /\
    map conversion_rate records = [0.125; 0.0625; 0; 1]%float /\
    Forall (fun row => is_post_launch row = true ->
                       in_unit_interval (engagement_rate row) /\
                       in_unit_interval (conversion_rate row)) records.
Proof.
  eexists. split; [vm_compute; reflexivity|].
  split; [reflexivity|]. split; [reflexivity|].
  apply (@simulate_post_launch_rates_clamped (scripted_random example_tape) 4 42).
  vm_compute. reflexivity.
Defined.

Lemma filter_all_false {A} (f : A -> bool) (l : list A) :
  Forall (fun a => f a = false) l -> List.filter f l = [].
Proof.
  induction 1 as [|a l Ha _ IH]; cbn [List.filter]; [reflexivity|]. now rewrite Ha.
Qed.

Lemma filter_all_true {A} (f : A -> bool) (l : list A) :
  Forall (fun a => f a = true) l -> List.filter f l = l.
Proof.
  induction 1 as [|a l Ha _ IH]; cbn [List.filter]; [reflexivity|]. now rewrite Ha, IH.
Qed.

Section AnalysisFacts.
Context `{PyMath} `{PyBuiltins}.

Lemma values_mean_nonempty (values : list float) :
  values <> [] -> exists m, values_mean values = ok m.
Proof.
  intros Hne. unfold values_mean, float_div_int.
  destruct values as [|v values]; [contradiction|].
  replace (Z.of_nat (length (v :: values)) =? 0) with false
    by (symmetry; apply Z.eqb_neq; cbn [length]; lia).
  eauto.
Qed.

(** The analysis unfolded over its two metrics. *)
Lemma run_analysis_unfold stats (records : list user_record) :
  run_analysis stats records =
    (rows <- analyse_metric stats (pre_launch_rows records) (post_launch_rows records)
               [] ("engagement_rate"%string, engagement_rate) ;;
     analyse_metric stats (pre_launch_rows records) (post_launch_rows records)
       rows ("conversion_rate"%string, conversion_rate)).
Proof.
  unfold run_analysis, METRICS. cbn [foldM]. fold (pre_launch_rows records).
  fold (post_launch_rows records).
  destruct (analyse_metric _ _ _ [] _) as [e|rows]; [reflexivity|]. cbn [rbind].
  destruct (analyse_metric _ _ _ rows _) as [e|rows']; reflexivity.
Qed.

Lemma run_analysis_no_rows stats (records : list user_record) :
  pre_launch_rows records = [] \/ post_launch_rows records = [] ->
  run_analysis stats records = raise ZeroDivisionError.
Proof.
  intros Hempty. rewrite run_analysis_unfold. unfold analyse_metric at 1.
  destruct (pre_launch_rows records) as [|row pre] eqn:Hpre; [reflexivity|].
  destruct Hempty as [Hc| ->]; [discriminate|].
  destruct (values_mean_nonempty (map engagement_rate (row :: pre))) as [m ->];
    [discriminate|].
  reflexivity.
Qed.

Lemma run_analysis_few_rows (records : list user_record) :
  pre_launch_rows records <> [] -> post_launch_rows records <> [] ->
  (length (pre_launch_rows records) < 2)%nat \/
  (length (post_launch_rows records) < 2)%nat ->
  run_analysis None records = raise InsufficientSamples.
Proof.
  intros Hpre Hpost Hfew. rewrite run_analysis_unfold. unfold analyse_metric at 1.
  destruct (values_mean_nonempty (map engagement_rate (pre_launch_rows records)))
    as [m1 ->]; [now destruct (pre_launch_rows records)|].
  destruct (values_mean_nonempty (map engagement_rate (post_launch_rows records)))
    as [m2 ->]; [now destruct (post_launch_rows records)|].
  cbn [rbind ok]. unfold _manual_welchs_ttest. rewrite !length_map.
  replace (_ || _) with true; [reflexivity|].
  symmetry. apply orb_true_iff. rewrite !Z.ltb_lt. lia.
Qed.

(** X9. When all the records come from one period (or there are none),
    the analysis raises [ZeroDivisionError], with or without SciPy: the
    mean [sum(values) / len(values)] of the empty group is computed before
    any test. *)
Theorem run_analysis_single_period stats (records : list user_record) :
  Forall (fun row => is_post_launch row = true) records \/
  Forall (fun row => is_post_launch row = false) records ->
  run_analysis stats records = raise ZeroDivisionError.
Proof.
  intros [Hpost|Hpre]; apply run_analysis_no_rows.
  - left. apply filter_all_false. eapply Forall_impl; [exact Hpost|].
    cbn. now intros row ->.
  - right. now apply filter_all_false.
Qed.

(** X10. Without SciPy, records with rows from both periods but a single
    row in one of them make the analysis raise the error of the Welch
    test: the two means are computed, then the test refuses the sample of
    one observation. *)
Theorem run_analysis_insufficient_samples (records : list user_record) :
  (1 <= length (pre_launch_rows records))%nat ->
  (1 <= length (post_launch_rows records))%nat ->
  (length (pre_launch_rows records) = 1)%nat \/
  (length (post_launch_rows records) = 1)%nat ->
  run_analysis None records = raise InsufficientSamples.
Proof.
  intros Hpre Hpost Hone. apply run_analysis_few_rows.
  - intros Heq. rewrite Heq in Hpre. cbn in Hpre. lia.
  - intros Heq. rewrite Heq in Hpost. cbn in Hpost. lia.
  - lia.
Qed.

(** What one pass of the loop over the metrics appends. *)
Lemma analyse_metric_ok stats pre_records post_records summary_rows name field rows :
  analyse_metric stats pre_records post_records summary_rows (name, field) = ok rows ->
  exists row,
    rows = summary_rows ++ [row] /\
    metric row = name /\
    values_mean (map field pre_records) = ok (pre_mean row) /\
    values_mean (map field post_records) = ok (post_mean row) /\
    mean_change row = (post_mean row - pre_mean row)%float /\
    (stats = None ->
     exists t, _manual_welchs_ttest (map field post_records) (map field pre_records)
               = ok (t, p_value row)).
Proof.
  unfold analyse_metric.
  destruct (values_mean (map field pre_records)) as [?|pre]; [discriminate|].
  destruct (values_mean (map field post_records)) as [?|post]; [discriminate|].
  cbn [rbind ok]. destruct stats as [ttest_ind|].
  - destruct (ttest_ind _ _) as [?|r]; [discriminate|]. cbn [rbind ok].
    intros [= <-]. eexists. split; [reflexivity|]. cbn. repeat split. discriminate.
  - destruct (_manual_welchs_ttest _ _) as [?|[t p]]; [discriminate|]. cbn [rbind ok].
    intros [= <-]. eexists. split; [reflexivity|]. cbn. repeat split. eauto.
Qed.

Lemma welch_needs_two (sample_a sample_b : list float) r :
  _manual_welchs_ttest sample_a sample_b = ok r ->
  (2 <= length sample_a)%nat /\ (2 <= length sample_b)%nat.
Proof.
  unfold _manual_welchs_ttest.
  destruct (_ || _) eqn:Hguard; [discriminate|]. intros _.
  apply orb_false_iff in Hguard as [Ha Hb]. apply Z.ltb_ge in Ha, Hb. lia.
Qed.

(** X11. When the analysis returns, the summary has exactly two rows, for
    [engagement_rate] and [conversion_rate] in this order; each row holds
    the means [sum / len] of its metric over the pre-launch and the
    post-launch rows and their difference, post minus pre; both periods had
    rows. Without SciPy, both periods had at least two rows and each
    p-value is a number between 0.0 and 1.0. *)
Theorem run_analysis_summary stats (records : list user_record)
    (rows : list summary_row) :
  run_analysis stats records = ok rows ->
  map metric rows = ["engagement_rate"; "conversion_rate"]%string /\
  map (fun row => ok (pre_mean row)) rows
    = [values_mean (map engagement_rate (pre_launch_rows records));
       values_mean (map conversion_rate (pre_launch_rows records))] /\
  map (fun row => ok (post_mean row)) rows
    = [values_mean (map engagement_rate (post_launch_rows records));
       values_mean (map conversion_rate (post_launch_rows records))] /\
  Forall (fun row => mean_change row = (post_mean row - pre_mean row)%float) rows /\
  pre_launch_rows records <> [] /\ post_launch_rows records <> [] /\
  (stats = None ->
   (2 <= length (pre_launch_rows records))%nat /\
   (2 <= length (post_launch_rows records))%nat /\
   Forall (fun row => in_unit_interval (p_value row)) rows).
Proof.
  rewrite run_analysis_unfold.
  destruct (analyse_metric _ _ _ [] _) as [?|rows1] eqn:H1; [discriminate|].
  cbn [rbind]. intros H2.
  apply analyse_metric_ok in H1 as (row1 & -> & Hm1 & Hpre1 & Hpost1 & Hc1 & Hp1).
  apply analyse_metric_ok in H2 as (row2 & -> & Hm2 & Hpre2 & Hpost2 & Hc2 & Hp2).
  cbn [app map]. rewrite Hm1, Hm2, Hpre1, Hpre2, Hpost1, Hpost2.
  split; [reflexivity|]. split; [reflexivity|]. split; [reflexivity|].
  split; [repeat constructor; assumption|].
  split; [intros Heq; rewrite Heq in Hpre1; discriminate|].
  split; [intros Heq; rewrite Heq in Hpost1; discriminate|].
  intros Hstats. destruct (Hp1 Hstats) as [t1 Ht1]. destruct (Hp2 Hstats) as [t2 Ht2].
  pose proof (welch_needs_two _ _ _ Ht1) as [Hn2 Hn1]. rewrite !length_map in Hn1, Hn2.
  split; [assumption|]. split; [assumption|].
  repeat constructor; eapply welch_p_value_unit; eassumption.
Qed.

End AnalysisFacts.

(** No pre-launch row: a single post-launch record. *)
Lemma run_analysis_single_period_witness :
  @run_analysis ref_math ref_builtins None
    [{| user_id := 1; engagement_rate := 0.5; conversion_rate := 0.25;
        is_post_launch := true |}]
  = raise ZeroDivisionError.
Proof.
  apply (@run_analysis_single_period ref_math ref_builtins).
  left. repeat constructor.
Defined.

(** One row before the launch and two after it. *)
Lemma run_analysis_insufficient_samples_witness :
  @run_analysis ref_math ref_builtins None
    [{| user_id := 1; engagement_rate := 0.5; conversion_rate := 0.25;
        is_post_launch := false |};
     {| user_id := 2; engagement_rate := 0.75; conversion_rate := 0.25;
        is_post_launch := true |};
     {| user_id := 3; engagement_rate := 0.5; conversion_rate := 0.5;
        is_post_launch := true |}]
  = raise InsufficientSamples.
Proof.
  apply (@run_analysis_insufficient_samples ref_math ref_builtins);
    cbn; [lia|lia|left; reflexivity].
Defined.

(** Two rows per period, every rate 0.5: both tests take the fallback
    for a zero standard error. *)
Lemma run_analysis_summary_witness :
  exists rows,
    @run_analysis ref_math ref_builtins None flat_records = ok rows /\
    map metric rows = ["engagement_rate"; "conversion_rate"]%string /\
    map mean_change rows = [0; 0]%float /\
    map p_value rows = [1; 1]%float /\
    Forall (fun row => in_unit_interval (p_value row)) rows.
Proof.
  eexists. split; [vm_compute; reflexivity|].
  split; [reflexivity|]. split; [reflexivity|]. split; [reflexivity|].
  match goal with
  | |- Forall _ ?rows =>
      destruct (@run_analysis_summary ref_math ref_builtins None flat_records rows)
        as (_ & _ & _ & _ & _ & _ & Hp); [vm_compute; reflexivity|]
  end.
  exact (proj2 (proj2 (Hp eq_refl))).
Defined.

Lemma filter_pre_post (pre post : list user_record) :
  Forall (fun row => is_post_launch row = false) pre ->
  Forall clamped_post_row post ->
  pre_launch_rows (pre ++ post) = pre /\ post_launch_rows (pre ++ post) = post.
Proof.
  intros Hpre Hpost. unfold pre_launch_rows, post_launch_rows.
  rewrite !List.filter_app. split.
  - rewrite (filter_all_true _ pre), (filter_all_false _ post), app_nil_r; [reflexivity| |].
    + eapply Forall_impl; [exact Hpost|]. cbn. now intros row [-> _].
    + eapply Forall_impl; [exact Hpre|]. cbn. now intros row ->.
  - rewrite (filter_all_false _ pre), (filter_all_true _ post); [reflexivity| |].
    + eapply Forall_impl; [exact Hpost|]. cbn. now intros row [-> _].
    + assumption.
Qed.

Section PipelineFacts.
Context `{PyRandom} `{PyMath} `{PyBuiltins}.

(** X12. Without SciPy the pipeline [run_analysis(simulate_user_metrics(n))]
    fails for every [n] below 4: no user at all makes the analysis divide
    by zero, one user makes the simulation raise [IndexError], and two or
    three users leave a single pre-launch row, which the Welch test
    refuses. *)
Theorem simulate_then_analyse_small (n_users seed : Z) :
  n_users < 4 ->
  match simulate_user_metrics n_users seed with
  | inl e => n_users = 1 /\ e = IndexError
  | inr records =>
      n_users <> 1 /\
      run_analysis None records
      = raise (if n_users <=? 0 then ZeroDivisionError else InsufficientSamples)
  end.
Proof.
  intros Hn. destruct (Z.eq_dec n_users 1) as [->|Hne].
  - rewrite simulate_single_user. now split.
  - destruct (simulate_user_metrics_run n_users seed Hne)
      as (pre & post & -> & Hpre & Hflags & Hpost & Hrows).
    split; [assumption|].
    destruct (filter_pre_post pre post Hflags Hrows) as [Hfpre Hfpost].
    assert (length pre = Z.to_nat (n_users / 2)) as Hlen1.
    { rewrite <- (length_map user_id), Hpre, length_py_range. lia. }
    assert (length post = Z.to_nat (n_users - n_users / 2)) as Hlen2.
    { rewrite <- (length_map user_id), Hpost, length_py_range. lia. }
    destruct (Z.leb_spec n_users 0) as [Hle|Hgt].
    + assert (n_users / 2 <= 0) by (apply Z.div_le_upper_bound; lia).
      apply run_analysis_no_rows. left. rewrite Hfpre.
      destruct pre; [reflexivity|cbn [length] in Hlen1; lia].
    + assert (n_users / 2 = 1) as Hhalf
        by (assert (n_users = 2 \/ n_users = 3) as [-> | ->] by lia; reflexivity).
      rewrite Hhalf in Hlen1, Hlen2.
      apply run_analysis_few_rows; rewrite ?Hfpre, ?Hfpost.
      * destruct pre; [cbn [length] in Hlen1; lia|discriminate].
      * destruct post; [cbn [length] in Hlen2; lia|discriminate].
      * left. lia.
Qed.

End PipelineFacts.

(** Three users under the scripted generator. *)
Lemma simulate_then_analyse_small_witness :
  match @simulate_user_metrics (scripted_random example_tape) 3 42 with
  | inl e => 3 = 1 /\ e = IndexError
  | inr records =>
      3 <> 1 /\
      @run_analysis ref_math ref_builtins None records
      = raise (if 3 <=? 0 then ZeroDivisionError else InsufficientSamples)
  end.
Proof.
  apply (@simulate_then_analyse_small (scripted_random example_tape) ref_math ref_builtins).
  lia.
Defined.
(** ** Geometry of the text renderer *)

(** A loop over [enumerate(l)] whose body never raises on the items of
    [l] and keeps an invariant. *)
Lemma foldM_imap_invariant {A B C} (P : A -> Prop) (f : A -> C -> result A)
    (g : nat -> B -> C) (l : list B) :
  (forall a i b, l !! i = Some b -> P a -> exists a', f a (g i b) = ok a' /\ P a') ->
  forall acc, P acc -> exists r, foldM f acc (imap g l) = ok r /\ P r.
Proof.
  revert g. induction l as [|b l IH]; intros g Hstep acc Hacc; cbn [imap foldM].
  - eauto.
  - destruct (Hstep acc 0%nat b eq_refl Hacc) as (acc' & -> & Hacc'). cbn [rbind ok].
    apply IH; [|assumption]. intros a i b' Hi. exact (Hstep a (S i) b' Hi).
Qed.

Lemma length_list_ascii_of_string (s : string) :
  length (list_ascii_of_string s) = String.length s.
Proof. induction s as [|ch s IH]; cbn; [reflexivity|now rewrite IH]. Qed.

(** The glyph drawn for a character, listed in the font or not, has five
    rows of the width [glyph_width] gives. *)
Lemma glyph_rows (ch : N) :
  length (default blank_glyph (font_get ch)) = 5%nat /\
  Forall (fun row => String.length row = char_width ch)
         (default blank_glyph (font_get ch)).
Proof.
  unfold font_get, char_width. destruct (ch <? 128)%N; [|split; repeat constructor].
  destruct (FONT !! ascii_of_N ch) as [g|] eqn:Hg; cbn [default].
  - pose proof (FONT_all_shaped _ g Hg) as Hshape. unfold glyph_shape in Hshape.
    apply andb_true_iff in Hshape as [Hlen Hrows]. apply Nat.eqb_eq in Hlen.
    split; [assumption|]. apply Forall_forall. intros row Hrow.
    rewrite forallb_forall in Hrows. apply list_elem_of_In in Hrow.
    specialize (Hrows row Hrow). apply andb_true_iff in Hrows as [Hw _].
    now apply Nat.eqb_eq in Hw.
  - assert (glyph_width (ascii_of_N ch) = 3%nat) as ->.
    { unfold glyph_width.
      destruct (Ascii.eqb_spec (ascii_of_N ch) "(") as [Heq|_];
        [rewrite Heq in Hg; vm_compute in Hg; discriminate|].
      destruct (Ascii.eqb_spec (ascii_of_N ch) ")") as [Heq|_];
        [rewrite Heq in Hg; vm_compute in Hg; discriminate|].
      reflexivity. }
    split; [reflexivity|]. repeat constructor.
Qed.

(** *** Drawing under an invariant

    Every pixel a text touches lies in the region [R]; an invariant that
    the guarded assignment keeps inside [R] is kept by the whole text. *)

Section DrawInvariant.
Context {U : PyUnicode}.
Variables (W H : Z) (c : color) (Inv : Canvas -> Prop) (R : Z -> Z -> Prop).

Hypothesis Hset : forall canvas py px,
  Inv canvas -> 0 <= py < H -> 0 <= px < W -> R py px ->
  exists canvas', canvas_setitem canvas py px (color_list c) = ok canvas' /\ Inv canvas'.

Lemma draw_cell_invariant (x y gy gx : Z) (val : ascii) (canvas : Canvas) :
  Inv canvas -> R (y + gy) (x + gx) ->
  exists canvas', draw_cell W H c x y gy canvas (gx, val) = ok canvas' /\ Inv canvas'.
Proof using Hset.
  intros Hinv HR. unfold draw_cell.
  destruct (Ascii.eqb val "1"); [|eauto].
  destruct ((0 <=? x + gx) && (x + gx <? W) && ((0 <=? y + gy) && (y + gy <? H)))
    eqn:Hin; [|eauto].
  apply andb_true_iff in Hin as [Hx Hy].
  apply andb_true_iff in Hx as [Hx1 Hx2]. apply andb_true_iff in Hy as [Hy1 Hy2].
  apply Z.leb_le in Hx1, Hy1. apply Z.ltb_lt in Hx2, Hy2.
  apply Hset; [assumption|lia|lia|assumption].
Qed.

Lemma draw_row_invariant (x y gy : Z) (row : string) (canvas : Canvas) :
  Inv canvas ->
  (forall gx, 0 <= gx < Z.of_nat (String.length row) -> R (y + gy) (x + gx)) ->
  exists canvas', draw_row W H c x y canvas (gy, row) = ok canvas' /\ Inv canvas'.
Proof using Hset.
  intros Hinv HR. unfold draw_row, enumerate.
  apply (foldM_imap_invariant Inv); [|assumption].
  intros a i val Hi Ha. apply draw_cell_invariant; [assumption|].
  apply HR. apply lookup_lt_Some in Hi. rewrite length_list_ascii_of_string in Hi. lia.
Qed.

Lemma draw_char_invariant (y x : Z) (ch : N) (canvas : Canvas) :
  Inv canvas ->
  (forall gy gx, 0 <= gy < 5 -> 0 <= gx < Z.of_nat (char_width ch) ->
                 R (y + gy) (x + gx)) ->
  exists canvas',
    draw_char W H c y (canvas, x) ch = ok (canvas', x + Z.of_nat (char_width ch) + 1) /\
    Inv canvas'.
Proof using Hset.
  intros Hinv HR. unfold draw_char, dict_getitem. rewrite FONT_blank. cbn [rbind ok].
  destruct (glyph_rows ch) as [Hlen Hrows].
  set (g := default blank_glyph (font_get ch)) in *.
  destruct (foldM_imap_invariant Inv (draw_row W H c x y)
              (fun i a => (Z.of_nat i, a)) g) with (acc := canvas)
    as (canvas' & Hrun & Hinv'); [|assumption|].
  { intros a i row Hi Ha. apply draw_row_invariant; [assumption|].
    intros gx Hgx. apply HR.
    - apply lookup_lt_Some in Hi. lia.
    - rewrite Forall_lookup in Hrows. now rewrite <- (Hrows i row Hi). }
  unfold enumerate. rewrite Hrun. cbn [rbind ok].
  destruct g as [|row0 g]; [discriminate|]. cbn [list_first rbind ok].
  apply Forall_cons in Hrows as [-> _]. eauto.
Qed.

Lemma draw_chars_invariant (y : Z) (chars : pystr) (x : Z) (canvas : Canvas) :
  Inv canvas ->
  (forall py px, y <= py < y + 5 -> x <= px < x + chars_advance chars -> R py px) ->
  exists canvas',
    foldM (draw_char W H c y) (canvas, x) chars = ok (canvas', x + chars_advance chars) /\
    Inv canvas'.
Proof using Hset.
  revert x canvas. induction chars as [|ch chars IH]; intros x canvas Hinv HR.
  - cbn. rewrite Z.add_0_r. eauto.
  - cbn [foldM chars_advance foldr] in HR |- *. fold (chars_advance chars) in HR |- *.
    assert (0 <= chars_advance chars) as Hadv.
    { clear. induction chars as [|ch' chars IH]; cbn; [lia|].
      fold (chars_advance chars). lia. }
    destruct (draw_char_invariant y x ch canvas Hinv) as (canvas1 & -> & Hinv1).
    { intros gy gx Hgy Hgx. apply HR; lia. }
    cbn [rbind ok].
    destruct (IH (x + Z.of_nat (char_width ch) + 1) canvas1 Hinv1)
      as (canvas' & -> & Hinv').
    { intros py px Hpy Hpx. apply HR; lia. }
    exists canvas'. split; [|assumption]. do 2 f_equal. lia.
Qed.

Lemma draw_text_invariant (canvas : Canvas) (text : pystr) (x y : Z) :
  Inv canvas ->
  (forall py px, text_box x (x + text_advance text) y py px -> R py px) ->
  exists canvas',
    draw_text W H canvas text x y c = ok (canvas', x + text_advance text) /\
    Inv canvas'.
Proof using Hset.
  intros Hinv HR. unfold draw_text, text_advance.
  apply draw_chars_invariant; [assumption|].
  intros py px Hpy Hpx. apply HR. now split.
Qed.

End DrawInvariant.

(** *** Pixels of a canvas after an assignment *)

Lemma pixel_at_setitem (canvas canvas' : Canvas) (py px : Z) (v : list Z) :
  0 <= py -> 0 <= px ->
  canvas_setitem canvas py px v = ok canvas' ->
  forall qy qx,
    pixel_at canvas' qy qx
    = if (qy =? py) && (qx =? px) then Some v else pixel_at canvas qy qx.
Proof.
  intros Hpy Hpx. unfold canvas_setitem.
  destruct (canvas !! Z.to_nat py) as [row|] eqn:Hrow; [|discriminate].
  destruct (px <? Z.of_nat (length row)) eqn:Hlt; [|discriminate].
  apply Z.ltb_lt in Hlt. intros [= <-] qy qx. unfold pixel_at.
  destruct ((0 <=? qy) && (0 <=? qx)) eqn:Hq.
  2:{ destruct (Z.eqb_spec qy py) as [->|_]; [|reflexivity].
      destruct (Z.eqb_spec qx px) as [->|_]; [|reflexivity].
      apply andb_false_iff in Hq as [Hq|Hq]; apply Z.leb_gt in Hq; lia. }
  apply andb_true_iff in Hq as [Hqy Hqx]. apply Z.leb_le in Hqy, Hqx.
  destruct (Z.eqb_spec qy py) as [->|Hne].
  - rewrite list_lookup_insert_eq by (apply lookup_lt_Some in Hrow; assumption).
    rewrite Hrow. cbn [andb mbind option_bind].
    destruct (Z.eqb_spec qx px) as [->|Hnx].
    + apply list_lookup_insert_eq. lia.
    + apply list_lookup_insert_ne. lia.
  - cbn [andb]. rewrite list_lookup_insert_ne by lia. reflexivity.
Qed.

Lemma ascii_upper_idempotent (ch : N) : ascii_upper (ascii_upper ch) = ascii_upper ch.
Proof.
  unfold ascii_upper.
  destruct ((97 <=? ch) && (ch <=? 122))%N eqn:Hch; [|now rewrite Hch].
  apply andb_true_iff in Hch as [Hlo Hhi]. apply N.leb_le in Hlo, Hhi.
  replace (97 <=? ch - 32)%N with false by (symmetry; apply N.leb_gt; lia).
  reflexivity.
Qed.

Lemma ascii_upper_ascii (ch : N) : (ch < 128)%N -> (ascii_upper ch < 128)%N.
Proof.
  intros Hch. unfold ascii_upper. destruct ((97 <=? ch) && (ch <=? 122))%N; lia.
Qed.

(** Upper-casing an upper-cased text changes nothing. *)
Lemma str_upper_idempotent `{PyUnicode} (text : pystr) :
  str_upper (str_upper text) = str_upper text.
Proof.
  unfold str_upper. induction text as [|ch text IH]; [reflexivity|].
  cbn [flat_map]. rewrite flat_map_app, IH. f_equal.
  unfold char_upper at 2 3. destruct (N.ltb_spec ch 128) as [Hch|Hch].
  - cbn [flat_map]. rewrite app_nil_r. unfold char_upper.
    pose proof (ascii_upper_ascii ch Hch) as Hup. apply N.ltb_lt in Hup.
    now rewrite Hup, ascii_upper_idempotent.
  - exact (unicode_upper_idempotent ch Hch).
Qed.

(** A text whose box misses the canvas changes nothing. *)
Lemma draw_text_clipped {U : PyUnicode} (W H : Z) (canvas : Canvas) (text : pystr)
    (x y : Z) (c : color) :
  H <= y \/ y + 5 <= 0 \/ W <= x \/ x + text_advance text <= 0 ->
  draw_text W H canvas text x y c = ok (canvas, x + text_advance text).
Proof.
  intros Hoff.
  destruct (draw_text_invariant W H c (fun cv => cv = canvas)
              (text_box x (x + text_advance text) y)) with (canvas := canvas)
              (text := text) (x := x) (y := y)
    as (canvas1 & Hrun1 & ->); [|reflexivity|trivial|assumption].
  intros cv py px _ Hpy Hpx [Hby Hbx]. lia.
Qed.

Section DrawTextGeometry.
Context {U : PyUnicode}.
Variables W H : Z.

(** X13. On a canvas of the declared size [draw_text] returns for every
    text and every position, on or off the canvas; the canvas keeps its
    size, and the cursor ends at [x] plus, for each character of the
    upper-case form of the text, the width of its glyph and one cell of
    spacing. *)
Theorem draw_text_cursor (canvas : Canvas) (text : pystr) (x y : Z) (c : color) :
  canvas_dims W H canvas ->
  exists canvas',
    draw_text W H canvas text x y c = ok (canvas', x + text_advance text) /\
    canvas_dims W H canvas'.
Proof.
  intros Hdims.
  apply (draw_text_invariant W H c (canvas_dims W H) (fun _ _ => True));
    [|assumption|trivial].
  intros canvas0 py px Hd Hpy Hpx _. now apply canvas_setitem_dims.
Qed.

(** X14. [draw_text] touches only the cells of its box, the five rows
    from [y] and the columns from [x] up to the final cursor: every pixel
    outside the box is the pixel of the canvas before, and every pixel of
    the canvas after is either unchanged or the colour of the text. *)
Theorem draw_text_frame (canvas canvas' : Canvas) (text : pystr) (x y x' : Z)
    (c : color) :
  canvas_dims W H canvas ->
  draw_text W H canvas text x y c = ok (canvas', x') ->
  forall py px,
    (~ text_box x x' y py px -> pixel_at canvas' py px = pixel_at canvas py px) /\
    (pixel_at canvas' py px = pixel_at canvas py px \/
     pixel_at canvas' py px = Some (color_list c)).
Proof.
  intros Hdims Hrun.
  destruct (draw_text_invariant W H c
              (fun cv => canvas_dims W H cv /\
                         forall py px,
                           (~ text_box x (x + text_advance text) y py px ->
                            pixel_at cv py px = pixel_at canvas py px) /\
                           (pixel_at cv py px = pixel_at canvas py px \/
                            pixel_at cv py px = Some (color_list c)))
              (text_box x (x + text_advance text) y)) with (canvas := canvas)
              (text := text) (x := x) (y := y)
    as (canvas1 & Hrun1 & _ & Hframe).
  - intros cv py px [Hd Hcv] Hpy Hpx Hbox.
    destruct (canvas_setitem_dims W H cv py px (color_list c) Hd Hpy Hpx)
      as (cv' & Hset & Hd').
    exists cv'. split; [assumption|]. split; [assumption|].
    intros qy qx. rewrite (pixel_at_setitem cv cv' py px _ (proj1 Hpy) (proj1 Hpx) Hset).
    destruct (Hcv qy qx) as [Hout Hcol].
    destruct (Z.eqb_spec qy py) as [->|_]; cbn [andb]; [|now split].
    destruct (Z.eqb_spec qx px) as [->|_]; [|now split].
    split; [intros Hn; contradiction|now right].
  - split; [assumption|]. intros py px. split; [reflexivity|now left].
  - trivial.
  - rewrite Hrun in Hrun1. injection Hrun1 as <- ->. exact Hframe.
Qed.

(** X15. A text whose box lies entirely off the canvas (below, above, to
    the right or to the left of it; the width of the box is the advance of
    the upper-case form of the text) is clipped away: [draw_text] returns
    the canvas as it was, on any canvas. *)
Theorem draw_text_off_canvas (canvas : Canvas) (text : pystr) (x y : Z) (c : color) :
  H <= y \/ y + 5 <= 0 \/ W <= x \/ x + text_advance text <= 0 ->
  draw_text W H canvas text x y c = ok (canvas, x + text_advance text).
Proof. apply draw_text_clipped. Qed.

(** X16. Drawing the concatenation of two texts is drawing the first and
    then the second from the cursor the first one left. *)
Theorem draw_text_concat (canvas : Canvas) (s1 s2 : pystr) (x y : Z) (c : color) :
  draw_text W H canvas (s1 ++ s2) x y c =
  (drawn <- draw_text W H canvas s1 x y c ;;
   draw_text W H drawn.1 s2 drawn.2 y c).
Proof.
  unfold draw_text. rewrite str_upper_app, foldM_app.
  destruct (foldM _ _ (str_upper s1)) as [e|[canvas1 x1]]; reflexivity.
Qed.

(** X17. Text is drawn without regard to case: a text draws exactly as
    its upper-case form does. *)
Theorem draw_text_case_insensitive (canvas : Canvas) (text : pystr) (x y : Z)
    (c : color) :
  draw_text W H canvas (str_upper text) x y c = draw_text W H canvas text x y c.
Proof. unfold draw_text. now rewrite str_upper_idempotent. Qed.

End DrawTextGeometry.

(** The text ["(p)"] followed by the sharp s, at column 1 of a fresh 30
    by 10 canvas: the upper-case form is ["(P)SS"] and the cursor ends at
    [1 + 3 + 4 + 3 + 4 + 4]. *)
Lemma draw_text_cursor_witness :
  exists canvas',
    @draw_text ref_unicode 30 10 (_create_canvas 30 10 (255, 255, 255))
      (pystr_of_string "(p)" ++ [223%N]) 1 1 (0, 0, 0)
      = ok (canvas', 19) /\
    canvas_dims 30 10 canvas'.
Proof.
  apply (@draw_text_cursor ref_unicode 30 10 (_create_canvas 30 10 (255, 255, 255))
           (pystr_of_string "(p)" ++ [223%N]) 1 1 (0, 0, 0)).
  split; [reflexivity|]. vm_compute. repeat constructor.
Defined.

(** The letter I at column 2, row 1 of a fresh 8 by 7 canvas: its box is
    the rows 1 to 5 and the columns 2 to 5. *)
Lemma draw_text_frame_witness :
  exists canvas',
    @draw_text ref_unicode 8 7 (_create_canvas 8 7 (255, 255, 255))
      (pystr_of_string "I") 2 1 (0, 0, 0) = ok (canvas', 6) /\
    pixel_at canvas' 1 2 = Some [0; 0; 0] /\
    forall py px,
      (~ text_box 2 6 1 py px ->
       pixel_at canvas' py px = pixel_at (_create_canvas 8 7 (255, 255, 255)) py px) /\
      (pixel_at canvas' py px = pixel_at (_create_canvas 8 7 (255, 255, 255)) py px \/
       pixel_at canvas' py px = Some (color_list (0, 0, 0))).
Proof.
  eexists. split; [vm_compute; reflexivity|]. split; [reflexivity|].
  apply (@draw_text_frame ref_unicode 8 7 (_create_canvas 8 7 (255, 255, 255)) _
           (pystr_of_string "I") 2 1 6 (0, 0, 0)).
  - split; [reflexivity|]. vm_compute. repeat constructor.
  - vm_compute. reflexivity.
Defined.

(** A text drawn below a 20 by 10 canvas, and the sharp s drawn to the
    left of it: its upper-case form ["SS"] takes the columns -8 to -1. *)
Lemma draw_text_off_canvas_witness :
  @draw_text ref_unicode 20 10 (_create_canvas 20 10 (255, 255, 255))
    (pystr_of_string "P=1") 1 10 (0, 0, 0)
  = ok (_create_canvas 20 10 (255, 255, 255), 13) /\
  @draw_text ref_unicode 20 10 (_create_canvas 20 10 (255, 255, 255))
    [223%N] (-8) 1 (0, 0, 0)
  = ok (_create_canvas 20 10 (255, 255, 255), 0).
Proof.
  split.
  - apply (@draw_text_off_canvas ref_unicode 20 10 (_create_canvas 20 10 (255, 255, 255))
             (pystr_of_string "P=1") 1 10 (0, 0, 0)).
    left. lia.
  - apply (@draw_text_off_canvas ref_unicode 20 10 (_create_canvas 20 10 (255, 255, 255))
             [223%N] (-8) 1 (0, 0, 0)).
    right. right. right. vm_compute. discriminate.
Defined.
(** ** The PNG writer on canvases of any shape *)

Lemma bytes_of_ints_ok (pixel : list Z) :
  Forall channel_ok pixel -> bytes_of_ints pixel = ok (map byte_of_Z pixel).
Proof.
  induction 1 as [|v pixel Hv _ IH]; cbn [bytes_of_ints map]; [reflexivity|].
  replace ((0 <=? v) && (v <? 256)) with true
    by (symmetry; apply andb_true_iff; rewrite Z.leb_le, Z.ltb_lt; exact Hv).
  now rewrite IH.
Qed.

Lemma bytes_of_ints_bad (pixel : list Z) :
  Exists (fun v => ~ channel_ok v) pixel ->
  bytes_of_ints pixel = raise (ValueError "bytes must be in range(0, 256)").
Proof.
  induction pixel as [|v pixel IH]; intros Hbad; [now apply Exists_nil in Hbad|].
  cbn [bytes_of_ints].
  destruct ((0 <=? v) && (v <? 256)) eqn:Hv; [|reflexivity].
  apply Exists_cons in Hbad as [Hbad|Hbad].
  - apply andb_true_iff in Hv as [H0 H1]. apply Z.leb_le in H0. apply Z.ltb_lt in H1.
    exfalso. apply Hbad. split; assumption.
  - now rewrite (IH Hbad).
Qed.

Lemma bytes_of_ints_cases (pixel : list Z) :
  Forall channel_ok pixel \/ Exists (fun v => ~ channel_ok v) pixel.
Proof.
  induction pixel as [|v pixel [IH|IH]]; [now left| |right; now apply Exists_cons_tl].
  destruct (decide (0 <= v < 256)) as [Hv|Hv].
  - left. now constructor.
  - right. now apply Exists_cons_hd.
Qed.

(** The loop over the pixels of a row. *)
Lemma raw_pixels_ok (row : list (list Z)) (raw : list byte) :
  Forall (Forall channel_ok) row ->
  foldM (fun raw pixel => bs <- bytes_of_ints pixel ;; ok (raw ++ bs)) raw row
  = ok (raw ++ concat (map (map byte_of_Z) row)).
Proof.
  intros Hrow. revert raw.
  induction Hrow as [|pixel row Hpixel _ IH]; intros raw; cbn [foldM map concat].
  - now rewrite app_nil_r.
  - rewrite (bytes_of_ints_ok pixel Hpixel). cbn [rbind ok].
    rewrite IH. now rewrite <- app_assoc.
Qed.

Lemma raw_pixels_bad (row : list (list Z)) (raw : list byte) :
  Exists (Exists (fun v => ~ channel_ok v)) row ->
  foldM (fun raw pixel => bs <- bytes_of_ints pixel ;; ok (raw ++ bs)) raw row
  = raise (ValueError "bytes must be in range(0, 256)").
Proof.
  revert raw. induction row as [|pixel row IH]; intros raw Hbad;
    [now apply Exists_nil in Hbad|].
  cbn [foldM]. destruct (bytes_of_ints_cases pixel) as [Hok|Hpixel].
  - rewrite (bytes_of_ints_ok pixel Hok). cbn [rbind ok]. apply IH.
    apply Exists_cons in Hbad as [Hbad|Hbad]; [|assumption].
    exfalso. clear -Hok Hbad. induction Hok as [|v pixel Hv _ IH].
    + now apply Exists_nil in Hbad.
    + apply Exists_cons in Hbad as [Hbad|Hbad]; [contradiction|auto].
  - now rewrite (bytes_of_ints_bad pixel Hpixel).
Qed.

Lemma raw_rows_ok (canvas : Canvas) (raw : list byte) :
  Forall (Forall (Forall channel_ok)) canvas ->
  foldM raw_row raw canvas = ok (raw ++ canvas_scanlines canvas).
Proof.
  intros Hcanvas. revert raw.
  induction Hcanvas as [|row canvas Hrow _ IH]; intros raw; cbn [foldM].
  - unfold canvas_scanlines. cbn. now rewrite app_nil_r.
  - unfold raw_row at 1. rewrite (raw_pixels_ok row _ Hrow). cbn [rbind ok].
    rewrite IH. unfold canvas_scanlines. cbn [map concat].
    now rewrite <- !app_assoc.
Qed.

Lemma row_cases (row : list (list Z)) :
  Forall (Forall channel_ok) row \/ Exists (Exists (fun v => ~ channel_ok v)) row.
Proof.
  induction row as [|pixel row [IH|IH]]; [now left| |right; now apply Exists_cons_tl].
  destruct (bytes_of_ints_cases pixel) as [Hok|Hbad].
  - left. now constructor.
  - right. now apply Exists_cons_hd.
Qed.

Lemma raw_rows_bad (canvas : Canvas) (raw : list byte) :
  Exists (Exists (Exists (fun v => ~ channel_ok v))) canvas ->
  foldM raw_row raw canvas = raise (ValueError "bytes must be in range(0, 256)").
Proof.
  revert raw. induction canvas as [|row canvas IH]; intros raw Hbad;
    [now apply Exists_nil in Hbad|].
  cbn [foldM]. unfold raw_row at 1. destruct (row_cases row) as [Hok|Hrow].
  - rewrite (raw_pixels_ok row _ Hok). cbn [rbind ok]. apply IH.
    apply Exists_cons in Hbad as [Hbad|Hbad]; [|assumption].
    exfalso. clear -Hok Hbad. induction Hok as [|pixel row Hpixel _ IH].
    + now apply Exists_nil in Hbad.
    + apply Exists_cons in Hbad as [Hbad|Hbad]; [|auto].
      clear -Hpixel Hbad. induction Hpixel as [|v pixel Hv _ IH].
      * now apply Exists_nil in Hbad.
      * apply Exists_cons in Hbad as [Hbad|Hbad]; [contradiction|auto].
  - now rewrite (raw_pixels_bad row _ Hrow).
Qed.

Section WritePngShapes.
Context `{Zlib}.

(** What [_write_png] does on any canvas of bytes whose height and first
    row fit the header: the outcome follows the compressor. *)
Lemma write_png_canvas_run (canvas : Canvas) :
  Forall (Forall (Forall channel_ok)) canvas ->
  canvas_width canvas < 2 ^ 32 ->
  Z.of_nat (length canvas) < 2 ^ 32 ->
  _write_png canvas =
    let header :=
      PNG_SIGNATURE
        ++ spec_chunk IHDR (spec_ihdr_data (canvas_width canvas) (Z.of_nat (length canvas))) in
    match zlib_compress (canvas_scanlines canvas) 9 with
    | inl e => (Some header, raise e)
    | inr z =>
        match chunk IDAT z with
        | inl e => (Some header, raise e)
        | inr idat => (Some (header ++ idat ++ spec_chunk IEND []), ok tt)
        end
    end.
Proof.
  intros Hok Hw Hh. unfold _write_png.
  rewrite (raw_rows_ok canvas [] Hok). cbn [app]. fold (canvas_width canvas).
  assert (0 <= canvas_width canvas) by (destruct canvas; cbn; lia).
  unfold write_png_body, io_bind, file_write, io_lift.
  rewrite struct_pack_ihdr by lia. cbn [rbind ok].
  rewrite chunk_spec by (rewrite length_spec_ihdr_data; lia). cbn [app].
  destruct (zlib_compress (canvas_scanlines canvas) 9) as [e|z]; cbn [rbind ok];
    [reflexivity|].
  destruct (chunk IDAT z) as [e|idat]; [reflexivity|].
  rewrite chunk_spec by (cbn; lia). cbn [app]. rewrite <- !app_assoc. reflexivity.
Qed.

(** X18. A canvas with a channel value outside 0..255 anywhere makes
    [_write_png] raise [ValueError] while it builds the scanlines, before
    the file is opened: no file is created. *)
Theorem write_png_invalid_channel (canvas : Canvas) :
  Exists (Exists (Exists (fun v => v < 0 \/ 255 < v))) canvas ->
  _write_png canvas = (None, raise (ValueError "bytes must be in range(0, 256)")).
Proof.
  intros Hbad. unfold _write_png. rewrite (raw_rows_bad canvas []); [reflexivity|].
  eapply Exists_impl; [exact Hbad|]. intros row Hrow.
  eapply Exists_impl; [exact Hrow|]. intros pixel Hpixel.
  eapply Exists_impl; [exact Hpixel|]. unfold channel_ok. intros v Hv. lia.
Qed.

(** X19. [_write_png] never checks the shape of the canvas. On every
    canvas of byte values, whatever the lengths of its rows and of its
    pixels, it writes a complete stream when the compressor returns: the
    header declares the length of the first row as the width and the
    number of rows as the height, and the data hold every row as it is, a
    filter byte 0 followed by its channels. *)
Theorem write_png_unchecked_shape (canvas : Canvas) (z : list byte) :
  Forall (Forall (Forall channel_ok)) canvas ->
  canvas_width canvas < 2 ^ 32 ->
  Z.of_nat (length canvas) < 2 ^ 32 ->
  zlib_compress (canvas_scanlines canvas) 9 = ok z ->
  Z.of_nat (length z) < 2 ^ 32 ->
  _write_png canvas =
    (Some (PNG_SIGNATURE
             ++ spec_chunk IHDR (spec_ihdr_data (canvas_width canvas)
                                                (Z.of_nat (length canvas)))
             ++ spec_chunk IDAT z
             ++ spec_chunk IEND []),
     ok tt).
Proof.
  intros Hok Hw Hh Hz Hzlen. rewrite write_png_canvas_run by assumption.
  rewrite Hz. cbn [ok]. rewrite chunk_spec by assumption. cbn [ok].
  now rewrite <- !app_assoc.
Qed.

End WritePngShapes.

(** A 1 by 1 canvas whose pixel has the channel 256. *)
Lemma write_png_invalid_channel_witness :
  @_write_png ref_zlib [[[255; 256; 0]]]
  = (None, raise (ValueError "bytes must be in range(0, 256)")).
Proof.
  apply (@write_png_invalid_channel ref_zlib).
  apply Exists_cons_hd, Exists_cons_hd, Exists_cons_tl, Exists_cons_hd. lia.
Defined.

(** The ragged canvas: the header declares 2 by 2, the data hold a row of
    six channel bytes and a row of four. *)
Lemma write_png_unchecked_shape_witness :
  exists z,
    canvas_scanlines ragged_canvas
    = [Byte.x00; Byte.x01; Byte.x02; Byte.x03; Byte.x04; Byte.x05; Byte.x06;
       Byte.x00; Byte.x07; Byte.x08; Byte.x09; Byte.x0a] /\
    @_write_png ref_zlib ragged_canvas =
      (Some (PNG_SIGNATURE
               ++ @spec_chunk ref_zlib IHDR (spec_ihdr_data 2 2)
               ++ @spec_chunk ref_zlib IDAT z
               ++ @spec_chunk ref_zlib IEND []),
       ok tt).
Proof.
  eexists. split; [reflexivity|].
  apply (@write_png_unchecked_shape ref_zlib ragged_canvas).
  - unfold ragged_canvas, channel_ok. repeat constructor; lia.
  - vm_compute. reflexivity.
  - vm_compute. reflexivity.
  - vm_compute. reflexivity.
  - vm_compute. reflexivity.
Defined.
(** ** The fallback plot *)

Lemma foldM_invariant_Forall {A B} (P : A -> Prop) (Q : B -> Prop)
    (f : A -> B -> result A) (items : list B) :
  (forall a b, Q b -> P a -> exists a', f a b = ok a' /\ P a') ->
  Forall Q items ->
  forall acc, P acc -> exists r, foldM f acc items = ok r /\ P r.
Proof.
  intros Hstep Hitems. induction Hitems as [|b items Hb _ IH]; intros acc Hacc;
    cbn [foldM].
  - eauto.
  - destruct (Hstep acc b Hb Hacc) as (acc' & -> & Hacc'). cbn [rbind ok]. eauto.
Qed.

Lemma py_range_bounds (a b : Z) : Forall (fun y => a <= y < b) (py_range a b).
Proof.
  unfold py_range. apply Forall_forall. intros y Hy.
  apply list_elem_of_In, in_map_iff in Hy as (k & <- & Hk). apply in_seq in Hk. lia.
Qed.

(** [int(x)] returns on the finite floats and raises on the others. *)
Lemma int_of_float_cases (x : float) :
  if is_finite x then exists n, int_of_float x = ok n
  else int_of_float x = raise (ValueError "cannot convert float NaN to integer") \/
       int_of_float x = raise OverflowError.
Proof.
  unfold is_finite, is_nan, is_infinity, int_of_float.
  rewrite !FloatAxioms.eqb_spec, abs_spec.
  destruct (Prim2SF x) as [s|s| |s m e]; cbn; eauto.
  - destruct s; cbn; eauto.
  - rewrite Z.compare_refl, Pos.compare_refl. destruct s; cbn; eauto.
Qed.

(** *** Filling a rectangle under an invariant *)

Section FillInvariant.
Variables (v : list Z) (Inv : Canvas -> Prop) (y0 y1 x0 x1 : Z).

Hypothesis Hset : forall canvas py px,
  Inv canvas -> 0 <= py < height -> 0 <= px < width ->
  y0 <= py < y1 -> x0 <= px < x1 ->
  exists canvas', canvas_setitem canvas py px v = ok canvas' /\ Inv canvas'.

Lemma fill_rect_invariant (canvas : Canvas) :
  Inv canvas ->
  exists canvas', fill_rect (ok v) y0 y1 x0 x1 canvas = ok canvas' /\ Inv canvas'.
Proof using Hset.
  unfold fill_rect.
  apply (foldM_invariant_Forall Inv (fun y => y0 <= y < y1)); [|apply py_range_bounds].
  intros cv y Hy Hcv.
  apply (foldM_invariant_Forall Inv (fun x => x0 <= x < x1)); [|apply py_range_bounds|assumption].
  intros cv' x Hx Hcv'. unfold fill_cell.
  destruct ((0 <=? x) && (x <? width) && ((0 <=? y) && (y <? height))) eqn:Hin; [|eauto].
  apply andb_true_iff in Hin as [Hx' Hy'].
  apply andb_true_iff in Hx' as [Hx1 Hx2]. apply andb_true_iff in Hy' as [Hy1 Hy2].
  apply Z.leb_le in Hx1, Hy1. apply Z.ltb_lt in Hx2, Hy2.
  cbn [rbind ok]. apply Hset; (assumption || lia).
Qed.

End FillInvariant.

(** *** The canvas of the plot *)

Lemma plot_canvas_setitem (v : list Z) (canvas : Canvas) (py px : Z) :
  length v = 3%nat -> Forall channel_ok v ->
  plot_canvas canvas -> 0 <= py < height -> 0 <= px < width ->
  exists canvas', canvas_setitem canvas py px v = ok canvas' /\ plot_canvas canvas'.
Proof.
  intros Hlen Hv [Hdims Hpixels] Hpy Hpx.
  destruct (canvas_setitem_dims width height canvas py px v Hdims Hpy Hpx)
    as (canvas' & Hset & Hdims').
  exists canvas'. split; [assumption|]. split; [assumption|].
  revert Hset. unfold canvas_setitem.
  destruct (canvas !! Z.to_nat py) as [row|] eqn:Hrow; [|discriminate].
  destruct (px <? Z.of_nat (length row)); [|discriminate]. intros [= <-].
  apply Forall_insert; [assumption|].
  apply Forall_insert; [|now split].
  rewrite Forall_lookup in Hpixels. eauto.
Qed.

Lemma plot_canvas_fresh : plot_canvas (_create_canvas width height white).
Proof.
  unfold _create_canvas. split; [split|].
  - now rewrite length_replicate.
  - apply Forall_replicate. now rewrite length_replicate.
  - apply Forall_replicate, Forall_replicate. split; [reflexivity|].
    unfold channel_ok. repeat constructor; lia.
Qed.

Lemma plot_canvas_draw_text {U : PyUnicode} (canvas : Canvas) (text : pystr) (x y : Z) :
  plot_canvas canvas ->
  exists canvas',
    draw_text width height canvas text x y black = ok (canvas', x + text_advance text) /\
    plot_canvas canvas'.
Proof.
  intros Hplot.
  apply (draw_text_invariant width height black plot_canvas (fun _ _ => True));
    [|assumption|trivial].
  intros cv py px Hcv Hpy Hpx _. apply plot_canvas_setitem; try assumption.
  - reflexivity.
  - unfold channel_ok. repeat constructor; lia.
Qed.

Lemma plot_canvas_fill_rect (v : list Z) (y0 y1 x0 x1 : Z) (canvas : Canvas) :
  length v = 3%nat -> Forall channel_ok v ->
  plot_canvas canvas ->
  exists canvas', fill_rect (ok v) y0 y1 x0 x1 canvas = ok canvas' /\ plot_canvas canvas'.
Proof.
  intros Hlen Hv Hplot. apply (fill_rect_invariant v plot_canvas); [|assumption].
  intros cv py px Hcv Hpy Hpx _ _. now apply plot_canvas_setitem.
Qed.

Lemma plot_canvas_scanlines (canvas : Canvas) :
  plot_canvas canvas ->
  Forall (Forall (Forall channel_ok)) canvas /\
  canvas_width canvas = width /\
  Z.of_nat (length canvas) = height /\
  Z.of_nat (length (canvas_scanlines canvas)) = height * (1 + 3 * width).
Proof.
  intros [[Hrows Hcols] Hpixels]. split; [|split; [|split]].
  - eapply Forall_impl; [exact Hpixels|]. intros row Hrow.
    eapply Forall_impl; [exact Hrow|]. now intros pixel [_ Hpixel].
  - destruct canvas as [|row0 canvas]; [discriminate|].
    now apply Forall_cons in Hcols as [Hrow0 _].
  - assumption.
  - rewrite <- Hrows. clear Hrows. unfold canvas_scanlines.
    induction canvas as [|row canvas IH]; [reflexivity|].
    apply Forall_cons in Hcols as [Hrow Hcols].
    apply Forall_cons in Hpixels as [Hpx Hpixels].
    cbn [map concat]. rewrite length_app, Nat2Z.inj_add, (IH Hcols Hpixels).
    cbn [length]. rewrite Nat2Z.inj_succ.
    assert (Z.of_nat (length (concat (map (map byte_of_Z) row))) = 3 * width) as ->.
    { rewrite <- Hrow. clear Hrow. induction Hpx as [|pixel row [Hlen _] _ IHrow];
        [reflexivity|].
      cbn [map concat length]. rewrite length_app, length_map, Hlen. lia. }
    lia.
Qed.

Section FallbackPlotFacts.
Context `{Zlib} `{PyBuiltins} {U : PyUnicode}.

Lemma plot_canvas_legend_entry (canvas : Canvas) (legend_y : Z) (item : string * color) :
  In item COLORS -> plot_canvas canvas ->
  exists st, draw_legend_entry (canvas, legend_y) item = ok st /\ plot_canvas st.1.
Proof.
  intros Hitem Hplot. unfold draw_legend_entry. destruct item as [label color].
  destruct (plot_canvas_fill_rect (color_list color) legend_y (legend_y + 20) 520 540 canvas)
    as (canvas1 & -> & Hplot1); [| |assumption|].
  { now destruct color as [[c0 c1] c2]. }
  { unfold channel_ok.
    destruct Hitem as [[= <- <-]|[[= <- <-]|[]]]; cbn; repeat constructor; lia. }
  cbn [rbind ok].
  destruct (plot_canvas_draw_text canvas1 (str_upper (pystr_of_string label)) 550 (legend_y + 5) Hplot1)
    as (canvas2 & -> & Hplot2).
  cbn [rbind ok fst]. eauto.
Qed.

(** A row with finite scaled means is drawn, whatever its index, its
    metric name and the formatted numbers; the canvas stays a canvas of
    the plot. *)
Lemma plot_canvas_draw_metric (canvas : Canvas) (i : Z) (row : summary_row) :
  drawable_row row -> plot_canvas canvas ->
  exists canvas', draw_metric canvas (i, row) = ok canvas' /\ plot_canvas canvas'.
Proof.
  intros [Hpre Hpost] Hplot. unfold draw_metric.
  pose proof (int_of_float_cases (pre_mean row * float_of_int scale)) as Hi1.
  rewrite Hpre in Hi1. destruct Hi1 as [pre_height ->].
  pose proof (int_of_float_cases (post_mean row * float_of_int scale)) as Hi2.
  rewrite Hpost in Hi2. destruct Hi2 as [post_height ->].
  cbn [rbind ok].
  change (c <- colors_getitem "Pre-launch" ;; ok (color_list c)) with (ok [70; 130; 180]).
  change (c <- colors_getitem "Post-launch" ;; ok (color_list c)) with (ok [46; 204; 113]).
  match goal with
  | |- context [fill_rect (ok [70; 130; 180]) ?a ?b ?c ?d canvas] =>
      destruct (plot_canvas_fill_rect [70; 130; 180] a b c d canvas)
        as (canvas1 & -> & Hplot1);
        [reflexivity|unfold channel_ok; repeat constructor; lia|assumption|]
  end.
  cbn [rbind ok].
  match goal with
  | |- context [fill_rect (ok [46; 204; 113]) ?a ?b ?c ?d canvas1] =>
      destruct (plot_canvas_fill_rect [46; 204; 113] a b c d canvas1)
        as (canvas2 & -> & Hplot2);
        [reflexivity|unfold channel_ok; repeat constructor; lia|assumption|]
  end.
  cbn [rbind ok].
  match goal with
  | |- context [draw_text width height canvas2 ?t ?x ?y black] =>
      destruct (plot_canvas_draw_text canvas2 t x y Hplot2) as (canvas3 & -> & Hplot3)
  end.
  cbn [rbind ok fst].
  match goal with
  | |- context [draw_text width height canvas3 ?t ?x ?y black] =>
      destruct (plot_canvas_draw_text canvas3 t x y Hplot3) as (canvas4 & -> & Hplot4)
  end.
  cbn [rbind ok fst].
  match goal with
  | |- context [draw_text width height canvas4 ?t ?x ?y black] =>
      destruct (plot_canvas_draw_text canvas4 t x y Hplot4) as (canvas5 & -> & Hplot5)
  end.
  cbn [rbind ok fst]. eauto.
Qed.

(** A row with a scaled mean that is NaN or infinite stops the plot at
    its [int(...)]. *)
Lemma draw_metric_not_drawable (canvas : Canvas) (i : Z) (row : summary_row) :
  ~ drawable_row row ->
  draw_metric canvas (i, row)
    = raise (ValueError "cannot convert float NaN to integer") \/
  draw_metric canvas (i, row) = raise OverflowError.
Proof.
  intros Hbad. unfold draw_metric, drawable_row in *.
  pose proof (int_of_float_cases (pre_mean row * float_of_int scale)) as Hi1.
  destruct (is_finite (pre_mean row * float_of_int scale)).
  - destruct Hi1 as [pre_height ->]. cbn [rbind ok].
    pose proof (int_of_float_cases (post_mean row * float_of_int scale)) as Hi2.
    destruct (is_finite (post_mean row * float_of_int scale)).
    + exfalso. apply Hbad. now split.
    + destruct Hi2 as [-> | ->]; [now left|now right].
  - destruct Hi1 as [-> | ->]; [now left|now right].
Qed.

(** The drawing before the loop over the summary. *)
Lemma plot_canvas_decorations :
  exists st,
    (drawn <- draw_text width height (_create_canvas width height white)
               (pystr_of_string title) 40 30 black ;;
     drawn <- draw_text width height drawn.1 (pystr_of_string subtitle) 40 60 black ;;
     drawn <- draw_text width height drawn.1 (pystr_of_string "Legend:") 520 260 black ;;
     foldM draw_legend_entry (drawn.1, 280) COLORS) = ok st /\
    plot_canvas st.1.
Proof.
  destruct (plot_canvas_draw_text _ (pystr_of_string title) 40 30 plot_canvas_fresh) as (c1 & -> & H1).
  cbn [rbind ok fst].
  destruct (plot_canvas_draw_text c1 (pystr_of_string subtitle) 40 60 H1) as (c2 & -> & H2).
  cbn [rbind ok fst].
  destruct (plot_canvas_draw_text c2 (pystr_of_string "Legend:") 520 260 H2) as (c3 & -> & H3).
  cbn [rbind ok fst].
  unfold COLORS at 1. cbn [foldM].
  destruct (plot_canvas_legend_entry c3 280 ("Pre-launch"%string, (70, 130, 180)))
    as ([c4 y4] & -> & H4); [now left|assumption|]. cbn [rbind ok fst] in *.
  destruct (plot_canvas_legend_entry c4 y4 ("Post-launch"%string, (46, 204, 113)))
    as (st & -> & H5); [right; now left|assumption|]. cbn [rbind ok]. eauto.
Qed.

Lemma fallback_canvas_unfold (summary : list summary_row) :
  fallback_canvas summary =
    (st <- (drawn <- draw_text width height (_create_canvas width height white)
                       (pystr_of_string title) 40 30 black ;;
            drawn <- draw_text width height drawn.1 (pystr_of_string subtitle) 40 60 black ;;
            drawn <- draw_text width height drawn.1 (pystr_of_string "Legend:") 520 260 black ;;
            foldM draw_legend_entry (drawn.1, 280) COLORS) ;;
     foldM draw_metric st.1 (enumerate summary)).
Proof.
  unfold fallback_canvas.
  destruct (draw_text _ _ _ (pystr_of_string title) _ _ _) as [?|d1]; [reflexivity|]. cbn [rbind].
  destruct (draw_text _ _ _ (pystr_of_string subtitle) _ _ _) as [?|d2]; [reflexivity|]. cbn [rbind].
  destruct (draw_text _ _ _ (pystr_of_string "Legend:") _ _ _) as [?|d3]; [reflexivity|]. cbn [rbind].
  reflexivity.
Qed.

(** The loop over the summary, from any index on: it returns a canvas of
    the plot when every row is drawable, and raises at the first row that
    is not. *)
Lemma draw_metrics_run (summary : list summary_row) (k : nat) (canvas : Canvas) :
  plot_canvas canvas ->
  match foldM draw_metric canvas (imap (fun i row => (Z.of_nat (k + i), row)) summary) with
  | inr canvas' => Forall drawable_row summary /\ plot_canvas canvas'
  | inl e =>
      Exists (fun row => ~ drawable_row row) summary /\
      (e = ValueError "cannot convert float NaN to integer" \/ e = OverflowError)
  end.
Proof.
  revert k canvas. induction summary as [|row summary IH]; intros k canvas Hplot;
    cbn [imap foldM].
  - now split.
  - assert (drawable_row row \/ ~ drawable_row row) as [Hrow|Hrow].
    { unfold drawable_row.
      destruct (is_finite (pre_mean row * float_of_int scale));
        destruct (is_finite (post_mean row * float_of_int scale)); intuition congruence. }
    + destruct (plot_canvas_draw_metric canvas (Z.of_nat (k + 0)) row Hrow Hplot)
        as (canvas1 & -> & Hplot1).
      cbn [rbind ok]. specialize (IH (S k) canvas1 Hplot1).
      rewrite (imap_ext _ (fun i row => (Z.of_nat (S k + i), row)))
        by (intros i x _; cbn; do 2 f_equal; lia).
      destruct (foldM _ _ _) as [e|canvas'].
      * destruct IH as [Hex He]. split; [now apply Exists_cons_tl|assumption].
      * destruct IH as [Hall Hplot']. split; [now constructor|assumption].
    + destruct (draw_metric_not_drawable canvas (Z.of_nat (k + 0)) row Hrow) as [-> | ->];
        (split; [now apply Exists_cons_hd|auto]).
Qed.

Lemma fallback_canvas_run (summary : list summary_row) :
  match fallback_canvas summary with
  | inr canvas => Forall drawable_row summary /\ plot_canvas canvas
  | inl e =>
      Exists (fun row => ~ drawable_row row) summary /\
      (e = ValueError "cannot convert float NaN to integer" \/ e = OverflowError)
  end.
Proof.
  rewrite fallback_canvas_unfold.
  destruct plot_canvas_decorations as (st & -> & Hplot). cbn [rbind ok].
  exact (draw_metrics_run summary 0 st.1 Hplot).
Qed.

(** X20. For a summary of any length whose scaled means are all finite,
    [_fallback_plot] never raises before it writes: its canvas is 700 by
    420 with byte triples for pixels, so the scanlines hold 420 rows of
    1 + 3 * 700 bytes and, when the compressor returns [z], the file is a
    complete PNG stream whose header declares 700 by 420. *)
Theorem fallback_plot_writes_png (summary : list summary_row) :
  Forall drawable_row summary ->
  exists canvas,
    fallback_canvas summary = ok canvas /\
    canvas_dims 700 420 canvas /\
    Z.of_nat (length (canvas_scanlines canvas)) = 420 * (1 + 3 * 700) /\
    forall z,
      zlib_compress (canvas_scanlines canvas) 9 = ok z ->
      Z.of_nat (length z) < 2 ^ 32 ->
      _fallback_plot summary =
        (Some (PNG_SIGNATURE
                 ++ spec_chunk IHDR (spec_ihdr_data 700 420)
                 ++ spec_chunk IDAT z
                 ++ spec_chunk IEND []),
         ok tt).
Proof.
  intros Hall. pose proof (fallback_canvas_run summary) as Hrun.
  unfold _fallback_plot.
  destruct (fallback_canvas summary) as [e|canvas].
  - exfalso. destruct Hrun as [Hex _]. apply Exists_exists in Hex as (row & Hin & Hbad).
    rewrite Forall_forall in Hall. auto.
  - destruct Hrun as [_ Hplot].
    destruct (plot_canvas_scanlines canvas Hplot) as (Hbytes & Hw & Hh & Hlen).
    exists canvas. split; [reflexivity|]. split; [exact (proj1 Hplot)|].
    split; [exact Hlen|]. intros z Hz Hzlen.
    rewrite write_png_canvas_run by (rewrite ?Hw, ?Hh; done).
    rewrite Hz, Hw, Hh. cbn [ok]. rewrite chunk_spec by assumption. cbn [ok].
    now rewrite <- !app_assoc.
Qed.

(** X21. A summary with a row whose scaled pre-launch or post-launch mean
    is NaN or infinite makes [_fallback_plot] raise at [int(...)]:
    [ValueError] for NaN, [OverflowError] for an infinity. The file is not
    opened, whatever was drawn for the rows before. *)
Theorem fallback_plot_not_drawable (summary : list summary_row) :
  Exists (fun row => ~ drawable_row row) summary ->
  _fallback_plot summary
    = (None, raise (ValueError "cannot convert float NaN to integer")) \/
  _fallback_plot summary = (None, raise OverflowError).
Proof.
  intros Hex. pose proof (fallback_canvas_run summary) as Hrun.
  unfold _fallback_plot.
  destruct (fallback_canvas summary) as [e|canvas].
  - destruct Hrun as [_ [-> | ->]]; [now left|now right].
  - exfalso. destruct Hrun as [Hall _].
    apply Exists_exists in Hex as (row & Hin & Hbad).
    rewrite Forall_forall in Hall. auto.
Qed.

End FallbackPlotFacts.
(** ** A statistic that is not a number *)

Lemma float_nan_mul (x : float) : (nan * x)%float = nan.
Proof. apply Prim2SF_inj. rewrite mul_spec. reflexivity. Qed.

Section NanStatistic.
Context `{PyMath}.

(** The integral at NaN, when the density returns, is NaN: the step
    [h = x / n_intervals] is. *)
Lemma simpson_integral_nan (df I : float) :
  simpson_integral nan df = ok I -> I = nan.
Proof.
  unfold simpson_integral.
  destruct (_student_t_pdf 0 df) as [?|p0]; [discriminate|].
  destruct (_student_t_pdf nan df) as [?|px]; [discriminate|]. cbn [rbind ok].
  destruct (foldM _ _ _) as [?|total]; [discriminate|]. cbn [rbind ok].
  intros [= <-].
  change (nan / float_of_int (n_intervals_made_even (n_intervals_chosen nan)) / 3)%float
    with nan.
  apply float_nan_mul.
Qed.

(** X5. For a statistic that is NaN the CDF returns 1.0 and the
    two-tailed p-value 0.0, whenever the density returns along the
    integration: [min(1.0, nan)] keeps 1.0, so the NaN is turned into the
    most significant p-value instead of being reported. *)
Theorem two_tailed_p_value_nan (t df : float) :
  is_nan t = true ->
  (df <=? 0)%float = false ->
  is_ok (simpson_integral (PrimFloat.abs t) df) = true ->
  _student_t_cdf t df = ok 1%float /\ _two_tailed_p_value t df = ok 0%float.
Proof.
  intros Ht Hdf Hok. rewrite (float_nan_eq t Ht) in *.
  assert (_student_t_cdf nan df = ok 1%float) as Hcdf.
  { unfold _student_t_cdf. change (nan =? 0)%float with false.
    change (0 <? nan)%float with false. change (PrimFloat.abs nan) with nan in *.
    destruct (simpson_integral nan df) as [?|I] eqn:HI; [discriminate|].
    rewrite (simpson_integral_nan df I HI). reflexivity. }
  split; [assumption|].
  unfold _two_tailed_p_value. rewrite Hdf, Hcdf. reflexivity.
Qed.

End NanStatistic.

(** The statistic NaN at ten degrees of freedom. *)
Lemma two_tailed_p_value_nan_witness :
  @_student_t_cdf nan_math nan 10 = ok 1%float /\
  @_two_tailed_p_value nan_math nan 10 = ok 0%float.
Proof.
  apply (@two_tailed_p_value_nan nan_math nan 10); vm_compute; reflexivity.
Defined.

(** ** Rows of the summary that fall off the plot *)

Lemma fill_rect_off_canvas (pixel : list Z) (y0 y1 x0 x1 : Z) (canvas : Canvas) :
  width <= x0 -> fill_rect (ok pixel) y0 y1 x0 x1 canvas = ok canvas.
Proof.
  intros Hx.
  destruct (fill_rect_invariant pixel (fun cv => cv = canvas) y0 y1 x0 x1) with (canvas := canvas)
    as (canvas' & -> & ->); [|reflexivity|reflexivity].
  intros cv py px _ _ Hpx _ Hpx'. lia.
Qed.

Section ClippedRows.
Context `{Zlib} `{PyBuiltins} {U : PyUnicode}.

(** From the fourth row on, the bars and the labels of a row start at
    column 740 or beyond, to the right of the canvas. *)
Lemma draw_metric_off_canvas (canvas : Canvas) (i : Z) (row : summary_row) :
  3 <= i -> drawable_row row -> draw_metric canvas (i, row) = ok canvas.
Proof.
  intros Hi [Hpre Hpost]. unfold draw_metric.
  pose proof (int_of_float_cases (pre_mean row * float_of_int scale)) as Hi1.
  rewrite Hpre in Hi1. destruct Hi1 as [pre_height ->].
  pose proof (int_of_float_cases (post_mean row * float_of_int scale)) as Hi2.
  rewrite Hpost in Hi2. destruct Hi2 as [post_height ->].
  cbn [rbind ok].
  change (c <- colors_getitem "Pre-launch" ;; ok (color_list c)) with (ok [70; 130; 180]).
  change (c <- colors_getitem "Post-launch" ;; ok (color_list c)) with (ok [46; 204; 113]).
  assert (width <= base_x + i * (2 * bar_width + gap)) as Hx0
    by (unfold width, base_x, bar_width, gap; lia).
  do 2 (rewrite fill_rect_off_canvas by (unfold bar_width in *; lia); cbn [rbind ok]).
  do 3 (rewrite draw_text_clipped by (right; right; left; exact Hx0); cbn [rbind ok fst]).
  reflexivity.
Qed.

Lemma draw_metrics_off_canvas (summary : list summary_row) (k : nat) (canvas : Canvas) :
  (3 <= k)%nat -> Forall drawable_row summary ->
  foldM draw_metric canvas (imap (fun i row => (Z.of_nat (k + i), row)) summary)
  = ok canvas.
Proof.
  intros Hk Hall. revert k Hk.
  induction Hall as [|row summary Hrow _ IH]; intros k Hk; cbn [imap foldM];
    [reflexivity|].
  rewrite draw_metric_off_canvas by (assumption || lia). cbn [rbind ok].
  rewrite (imap_ext _ (fun i row => (Z.of_nat (S k + i), row)))
    by (intros i x _; cbn; do 2 f_equal; lia).
  apply IH. lia.
Qed.

(** X22. The plot has room for three metrics. For a summary whose scaled
    means are all finite, the rows after the third leave no trace: the
    canvas, and with it the file, is the one of the first three rows. *)
Theorem fallback_plot_three_rows (summary : list summary_row) :
  Forall drawable_row summary ->
  fallback_canvas summary = fallback_canvas (take 3 summary) /\
  _fallback_plot summary = _fallback_plot (take 3 summary).
Proof.
  intros Hall.
  assert (fallback_canvas summary = fallback_canvas (take 3 summary)) as Hcanvas.
  { rewrite !fallback_canvas_unfold.
    destruct plot_canvas_decorations as (st & -> & _). cbn [rbind ok].
    rewrite <- (take_drop 3 summary) at 1. unfold enumerate.
    rewrite imap_app, foldM_app.
    destruct (foldM draw_metric st.1 (imap _ (take 3 summary))) as [e|canvas] eqn:Hrun;
      [reflexivity|].
    cbn [rbind ok].
    destruct (Nat.le_gt_cases 3 (length summary)) as [Hlen|Hlen].
    - rewrite length_take, Nat.min_l by assumption.
      apply (draw_metrics_off_canvas (drop 3 summary) 3 canvas); [lia|].
      now apply Forall_drop.
    - rewrite drop_ge by lia. reflexivity. }
  split; [assumption|]. unfold _fallback_plot. now rewrite Hcanvas.
Qed.

End ClippedRows.

(** The summary of two rows: every scaled mean is finite. *)
Lemma fallback_plot_writes_png_witness :
  exists canvas,
    @fallback_canvas ref_builtins ref_unicode example_summary = ok canvas /\
    canvas_dims 700 420 canvas /\
    Z.of_nat (length (canvas_scanlines canvas)) = 420 * (1 + 3 * 700) /\
    forall z,
      @zlib_compress ref_zlib (canvas_scanlines canvas) 9 = ok z ->
      Z.of_nat (length z) < 2 ^ 32 ->
      @_fallback_plot ref_zlib ref_builtins ref_unicode example_summary =
        (Some (PNG_SIGNATURE
                 ++ @spec_chunk ref_zlib IHDR (spec_ihdr_data 700 420)
                 ++ @spec_chunk ref_zlib IDAT z
                 ++ @spec_chunk ref_zlib IEND []),
         ok tt).
Proof.
  apply (@fallback_plot_writes_png ref_zlib ref_builtins ref_unicode example_summary).
  repeat constructor.
Defined.

(** A summary whose second row has a NaN mean. *)
Lemma fallback_plot_not_drawable_witness :
  @_fallback_plot ref_zlib ref_builtins ref_unicode (take 1 example_summary ++ [nan_row])
    = (None, raise (ValueError "cannot convert float NaN to integer")) \/
  @_fallback_plot ref_zlib ref_builtins ref_unicode (take 1 example_summary ++ [nan_row])
    = (None, raise OverflowError).
Proof.
  apply (@fallback_plot_not_drawable ref_zlib ref_builtins ref_unicode).
  apply Exists_cons_tl, Exists_cons_hd. intros [Hpre _]. discriminate Hpre.
Defined.

(** Five rows: the two rows of the example, twice, and one more. *)
Lemma fallback_plot_three_rows_witness :
  @fallback_canvas ref_builtins ref_unicode
    (example_summary ++ example_summary ++ take 1 example_summary)
  = @fallback_canvas ref_builtins ref_unicode (example_summary ++ take 1 example_summary) /\
  @_fallback_plot ref_zlib ref_builtins ref_unicode
    (example_summary ++ example_summary ++ take 1 example_summary)
  = @_fallback_plot ref_zlib ref_builtins ref_unicode
      (example_summary ++ take 1 example_summary).
Proof.
  apply (@fallback_plot_three_rows ref_zlib ref_builtins ref_unicode
           (example_summary ++ example_summary ++ take 1 example_summary)).
  repeat constructor.
Defined.

(** ** The text summary *)

Lemma string_length_app (s1 s2 : string) :
  String.length (s1 +:+ s2) = (String.length s1 + String.length s2)%nat.
Proof.
  induction s1 as [|ch s1 IH]; [reflexivity|].
  change (S (String.length (s1 +:+ s2)) = S (String.length s1 + String.length s2)).
  now rewrite IH.
Qed.

Lemma length_spaces (n : nat) : String.length (spaces n) = n.
Proof.
  unfold spaces. induction n as [|n IH]; [reflexivity|].
  cbn [replicate string_of_list_ascii String.length]. now rewrite IH.
Qed.

Lemma length_ljust (w : nat) (s : string) :
  String.length (ljust w s) = Nat.max w (String.length s).
Proof. unfold ljust. rewrite string_length_app, length_spaces. lia. Qed.

Lemma length_rjust (w : nat) (s : string) :
  String.length (rjust w s) = Nat.max w (String.length s).
Proof. unfold rjust. rewrite string_length_app, length_spaces. lia. Qed.

Section FormatSummaryFacts.
Context `{PyBuiltins}.

Lemma format_summary_lines (summary : list summary_row) (lines : list string) :
  fold_left (fun lines row => lines ++ [summary_line row]) summary lines
  = lines ++ map summary_line summary.
Proof.
  revert lines. induction summary as [|row summary IH]; intros lines; cbn [fold_left map].
  - now rewrite app_nil_r.
  - rewrite IH, <- app_assoc. reflexivity.
Qed.

(** X23. The text summary is the header, a rule of dashes and one line
    per row, joined by newlines. The header and the rule are 68 characters
    wide. A row is padded, never cut: its line is at least 68 characters
    wide, and exactly 68, aligned with the header, if and only if its
    metric name and its formatted numbers fit their columns. *)
Theorem format_summary_table (summary : list summary_row) :
  _format_summary summary
  = str_join newline
      (summary_header :: string_of_list_ascii (replicate 68 "-"%char)
         :: map summary_line summary) /\
  String.length summary_header = 68%nat /\
  Forall (fun row => (68 <= String.length (summary_line row))%nat /\
                     (String.length (summary_line row) = 68%nat <-> fits_columns row))
         summary.
Proof.
  split; [|split].
  - unfold _format_summary. now rewrite format_summary_lines.
  - reflexivity.
  - apply Forall_forall. intros row _. unfold summary_line, fits_columns.
    rewrite !string_length_app, length_ljust, !length_rjust. lia.
Qed.

End FormatSummaryFacts.
